(** * Content-type merge: a shallow embedding of [lib/content-types/merge.js]

    The module under verification exports one function, [squish], that
    combines content-type definitions with input-plugin templates inside a
    [Promise] executor.  The embedding follows the source statement by
    statement:

    - JavaScript values that are plain data (what a configuration file or a
      plugin module holds) are trees of type [data];
    - the objects the caller hands in and [squish] may write to -- the
      content-type objects and the plugin templates -- live in a heap, a
      finite map from references to objects, so that in-place updates and
      the identity of the returned objects are visible; what such an
      object holds is data, held by value;
    - objects the run creates itself ([_.cloneDeep] copies, the result of
      [merge], array literals) are held by value: nothing else refers to
      them while they are being filled in, and an assignment below such
      an object is a read, an update and a write back;
    - [reject]/[resolve] act on an explicit promise state: the first
      settlement wins, and an exception escaping the executor rejects the
      promise when it is still pending;
    - the third-party functions ([deepmerge], lodash's [kebabCase],
      [uuid.v4]) and the plugin catalog that [plugabilly] returns are
      parameters of the development.

    Numbers are integers ([Z]) and strings are strings of bytes;
    functions, symbols, accessors and cyclic values are not data.  Where
    JavaScript's behaviour on a value leaves this fragment the embedding
    answers [OutOfModel] and claims nothing. *)

From stdpp Require Import gmap strings list pretty.
From Stdlib Require Import ZArith Ascii.

Set Warnings "-register-all".

Local Open Scope Z_scope.
Local Open Scope string_scope.
Local Open Scope list_scope.

(** ** Data *)

Inductive data : Type :=
| VUndef
| VNull
| VBool (b : bool)
| VNum (n : Z)
| VStr (s : string)
| VArr (l : list data)
| VObj (ps : list (string * data)).

(** An object is its own properties in enumeration order; a key that
    occurs again further down the list is shadowed by its first
    occurrence. *)
Definition obj : Type := list (string * data).

Inductive error : Type :=
| Error (msg : string)
| TypeError.

Inductive outcome (A : Type) : Type :=
| Ret (a : A)
| Throw (e : error)
| OutOfModel.
Arguments Ret {A} a.
Arguments Throw {A} e.
Arguments OutOfModel {A}.

Definition obind {A B} (o : outcome A) (k : A -> outcome B) : outcome B :=
  match o with
  | Ret a => k a
  | Throw e => Throw e
  | OutOfModel => OutOfModel
  end.

Notation "x <~ o ;; k" := (obind o (fun x => k))
  (at level 100, o at next level, right associativity).

Fixpoint ofold {A B} (f : A -> B -> outcome A) (a : A) (l : list B) : outcome A :=
  match l with
  | [] => Ret a
  | b :: l' => a' <~ f a b ;; ofold f a' l'
  end.

Fixpoint omapM {A B} (f : A -> outcome B) (l : list A) : outcome (list B) :=
  match l with
  | [] => Ret []
  | a :: l' => b <~ f a ;; bs <~ omapM f l' ;; Ret (b :: bs)
  end.

(** ** Property access on data *)

Fixpoint lookup_prop (k : string) (ps : obj) : option data :=
  match ps with
  | [] => None
  | (k', v) :: ps' => if String.eqb k k' then Some v else lookup_prop k ps'
  end.

Fixpoint upsert (k : string) (v : data) (ps : obj) : obj :=
  match ps with
  | [] => [(k, v)]
  | (k', v') :: ps' =>
      if String.eqb k k' then (k, v) :: ps' else (k', v') :: upsert k v ps'
  end.

(** The array index a property key denotes, among the first [n] indices. *)
Definition index_of_key (k : string) (n : nat) : option nat :=
  head (filter (fun i => pretty i = k) (seq 0 n)).

Definition string_chars (s : string) : list data :=
  (fun c => VStr (String c EmptyString)) <$> String.list_ascii_of_string s.

Definition indexed_get (l : list data) (k : string) : data :=
  match index_of_key k (length l) with
  | Some i => default VUndef (l !! i)
  | None => if String.eqb k "length" then VNum (Z.of_nat (length l)) else VUndef
  end.

Definition indexed_has (l : list data) (k : string) : bool :=
  match index_of_key k (length l) with
  | Some _ => true
  | None => String.eqb k "length"
  end.

(** [Object.keys(v)] *)
Definition own_keys (v : data) : outcome (list string) :=
  match v with
  | VUndef | VNull => Throw TypeError
  | VBool _ | VNum _ => Ret []
  | VStr s => Ret (pretty <$> seq 0 (length (string_chars s)))
  | VArr l => Ret (pretty <$> seq 0 (length l))
  | VObj ps => Ret (remove_dups ps.*1)
  end.

(** [v.k] and [v[k]] for a key that no prototype defines *)
Definition get (v : data) (k : string) : outcome data :=
  match v with
  | VUndef | VNull => Throw TypeError
  | VBool _ | VNum _ => Ret VUndef
  | VStr s => Ret (indexed_get (string_chars s) k)
  | VArr l => Ret (indexed_get l k)
  | VObj ps => Ret (default VUndef (lookup_prop k ps))
  end.

(** [v.hasOwnProperty(k)]: a method call, so an own data property named
    [hasOwnProperty] makes it a call of a non-function. *)
Definition hasOwnProperty (v : data) (k : string) : outcome bool :=
  match v with
  | VUndef | VNull => Throw TypeError
  | VBool _ | VNum _ => Ret false
  | VStr s => Ret (indexed_has (string_chars s) k)
  | VArr l => Ret (indexed_has l k)
  | VObj ps =>
      match lookup_prop "hasOwnProperty" ps with
      | Some _ => Throw TypeError
      | None => Ret (bool_decide (is_Some (lookup_prop k ps)))
      end
  end.

(** [v.k = x] in strict mode.  An array takes an assignment to one of its
    indices; named properties on arrays are outside the fragment. *)
Definition set (v : data) (k : string) (x : data) : outcome data :=
  match v with
  | VUndef | VNull | VBool _ | VNum _ | VStr _ => Throw TypeError
  | VArr l =>
      match index_of_key k (length l) with
      | Some i => Ret (VArr (<[i := x]> l))
      | None => OutOfModel
      end
  | VObj ps => Ret (VObj (upsert k x ps))
  end.

(** [o.k.… = x]: an assignment below [o.k] updates the object held at
    [o.k] in place; by value this is read, update, write back. *)
Definition set_in (o : data) (k : string) (f : data -> outcome data) : outcome data :=
  v <~ get o k ;; v' <~ f v ;; set o k v'.

(** [a === b].  The nodes of a data tree are distinct objects, so two
    object values are never identical. *)
Definition strict_eq (a b : data) : bool :=
  match a, b with
  | VUndef, VUndef | VNull, VNull => true
  | VBool x, VBool y => bool_decide (x = y)
  | VNum x, VNum y => bool_decide (x = y)
  | VStr x, VStr y => bool_decide (x = y)
  | _, _ => false
  end.

Definition truthy (v : data) : bool :=
  match v with
  | VUndef | VNull => false
  | VBool b => b
  | VNum n => negb (bool_decide (n = 0))
  | VStr s => negb (bool_decide (s = ""))
  | VArr _ | VObj _ => true
  end.

(** [typeof v === 'object'] *)
Definition typeof_object (v : data) : bool :=
  match v with
  | VNull | VArr _ | VObj _ => true
  | _ => false
  end.

(** [typeof v === 'string'] *)
Definition typeof_string (v : data) : bool :=
  match v with
  | VStr _ => true
  | _ => false
  end.

(** The string a template literal substitutes for [v]. *)
Definition to_string (v : data) : outcome string :=
  match v with
  | VUndef => Ret "undefined"
  | VNull => Ret "null"
  | VBool true => Ret "true"
  | VBool false => Ret "false"
  | VNum n => Ret (pretty n)
  | VStr s => Ret s
  | VArr _ | VObj _ => OutOfModel
  end.

(** How often [for (let i = 0; i < bound; i++)] runs its body. *)
Definition loop_bound (bound : data) : outcome nat :=
  match bound with
  | VNum n => Ret (Z.to_nat n)
  | VBool true => Ret 1%nat
  | VBool false | VNull | VUndef => Ret 0%nat
  | VStr _ | VArr _ | VObj _ => OutOfModel
  end.

(** [_.cloneDeep] rebuilds every array and object of a value. *)
Fixpoint cloneDeep (v : data) : data :=
  match v with
  | VArr l => VArr (map cloneDeep l)
  | VObj ps => VObj (map (fun p => (p.1, cloneDeep p.2)) ps)
  | _ => v
  end.

Definition MAX_SAFE_INTEGER : Z := 9007199254740991.

(** ** [requiredLevel] (merge.js, lines 16-25) *)

Definition requiredLevel (level : data) : data :=
  if strict_eq level (VBool true) || strict_eq level (VStr "save")
     || strict_eq level (VNum 2)
  then VStr "save"
  else if strict_eq level (VStr "publish") || strict_eq level (VNum 1)
  then VStr "publish"
  else VBool false.

(** ** Heap, promise and the executor monad *)

Definition ref : Type := nat.

(** A value handed to [squish]: a reference to an object of the caller,
    or a literal nothing else refers to. *)
Inductive val : Type :=
| Ref (r : ref)
| Lit (d : data).

(** The [types] argument: an array of values, or any other value. *)
Inductive arg : Type :=
| Arr (l : list val)
| Other (v : val).

Inductive promise : Type :=
| Pending
| Fulfilled (configured : list val)
| Rejected (e : error).

Record state : Type := State {
  st_heap : gmap ref obj;
  st_promise : promise;
  st_uuid : nat
}.

Definition M (A : Type) : Type := state -> outcome A * state.

Definition mret {A} (a : A) : M A := fun st => (Ret a, st).

Definition mbind {A B} (m : M A) (k : A -> M B) : M B :=
  fun st =>
    match m st with
    | (Ret a, st') => k a st'
    | (Throw e, st') => (Throw e, st')
    | (OutOfModel, st') => (OutOfModel, st')
    end.

Notation "x <- m ;; k" := (mbind m (fun x => k))
  (at level 100, m at next level, right associativity).
Notation "m ;;; k" := (mbind m (fun _ => k))
  (at level 100, right associativity).

Definition lift {A} (o : outcome A) : M A := fun st => (o, st).

(** What a read through [v] sees; a reference to nothing reads as
    [undefined]. *)
Definition load (h : gmap ref obj) (v : val) : data :=
  match v with
  | Lit d => d
  | Ref r => match h !! r with Some ps => VObj ps | None => VUndef end
  end.

(** [v.k] *)
Definition prop (v : val) (k : string) : M data :=
  fun st => (get (load (st_heap st) v) k, st).

(** [v.hasOwnProperty(k)] *)
Definition has_prop (v : val) (k : string) : M bool :=
  fun st => (hasOwnProperty (load (st_heap st) v) k, st).

(** [v.k = x]: through a reference this writes the caller's object. *)
Definition assign (v : val) (k : string) (x : data) : M val :=
  fun st =>
    match v with
    | Ref r =>
        match st_heap st !! r with
        | Some ps =>
            (Ret (Ref r),
             State (<[r := upsert k x ps]> (st_heap st)) (st_promise st) (st_uuid st))
        | None => (Throw TypeError, st)
        end
    | Lit d =>
        match set d k x with
        | Ret d' => (Ret (Lit d'), st)
        | Throw e => (Throw e, st)
        | OutOfModel => (OutOfModel, st)
        end
    end.

Definition settle (p : promise) (st : state) : state :=
  match st_promise st with
  | Pending => State (st_heap st) p (st_uuid st)
  | _ => st
  end.

Definition reject (e : error) : M unit := fun st => (Ret tt, settle (Rejected e) st).

Definition resolve (configured : list val) : M unit :=
  fun st => (Ret tt, settle (Fulfilled configured) st).

Fixpoint mfold {A B} (f : A -> B -> M A) (a : A) (l : list B) : M A :=
  match l with
  | [] => mret a
  | b :: l' => a' <- f a b ;; mfold f a' l'
  end.

Fixpoint mmap {A B} (f : A -> M B) (l : list A) : M (list B) :=
  match l with
  | [] => mret []
  | a :: l' => b <- f a ;; bs <- mmap f l' ;; mret (b :: bs)
  end.

(** ** The errors [squish] rejects with, under the names of the design *)

Definition NotAnArray : error := Error "Content types must be an array".
Definition MissingIdentifierField (tname : string) : error :=
  Error ("Identifier missing in content type '" +:+ tname +:+ "'").
Definition InvalidIdentifierType (tname : string) : error :=
  Error ("Identifier in content type '" +:+ tname +:+ "' must be a string").
Definition PluginNotFound (ty : string) : error :=
  Error ("Input '" +:+ ty +:+ "' not found").
Definition MissingAttributeName (id tname : string) : error :=
  Error ("Input '" +:+ id +:+ "' in content type '" +:+ tname +:+ "' needs a name").
Definition MissingAttributeId (name tname : string) : error :=
  Error ("Input '" +:+ name +:+ "' in content type '" +:+ tname +:+ "' needs an ID").
Definition DuplicateAttributeId (id tname name : string) : error :=
  Error ("Input ID '" +:+ id +:+ "' in content type '" +:+ tname
         +:+ "' cannot be duplicated (in '" +:+ name +:+ "')").
Definition NonKebabCaseId (id slug : string) : error :=
  Error ("Input ID '" +:+ id +:+ "' needs to be written in kebab case (e.g. '"
         +:+ slug +:+ "')").
Definition IdentifierNotAttribute (ident tname : string) : error :=
  Error ("Identifier '" +:+ ident +:+ "' is not an attribute in content type '"
         +:+ tname +:+ "'.").
Definition IdentifierMultipleInputs (ident tname : string) : error :=
  Error ("Identifier '" +:+ ident +:+ "' in content type '" +:+ tname
         +:+ "' has more than one input. Only single-input attributes may be the identifier.").
Definition IdentifierRepeatable (ident tname : string) : error :=
  Error ("Identifier '" +:+ ident +:+ "' in content type '" +:+ tname
         +:+ "' is repeatable. Only non-repeatable attributes may be the identifier.").
Definition IdentifierHasOptions (ident tname : string) : error :=
  Error ("Identifier '" +:+ ident +:+ "' in content type '" +:+ tname
         +:+ "' has options. Attributes with options may not be the identifier.").

(** ** [squish] (merge.js, lines 35-232) *)

Section Squish.

(** [deepmerge], lodash's [kebabCase], the successive results of
    [uuid.v4], and the catalog that [plugabilly] returns (line 42):
    plugin name to template object. *)
Variable merge : data -> data -> outcome data.
Variable slugify : data -> string.
Variable uuid_v4 : nat -> string.
Variable plugins : gmap string ref.

Definition uuid : M string :=
  fun st =>
    (Ret (uuid_v4 (st_uuid st)),
     State (st_heap st) (st_promise st) (S (st_uuid st))).

(** Lines 63-94: the five checks on an attribute.  Each failed check
    calls [reject] and execution goes on to the next statement. *)
Definition validate (type : val) (ids : list data) (attribute : data)
  : M (list data) :=
  ty <- lift (get attribute "type") ;;
  tys <- lift (to_string ty) ;;
  (if bool_decide (plugins !! ("input-plugin-" +:+ tys) = None)
   then reject (PluginNotFound tys)
   else mret tt) ;;;
  hn <- lift (hasOwnProperty attribute "name") ;;
  (if negb hn then
     id0 <- lift (get attribute "type") ;;
     hi <- lift (hasOwnProperty attribute "id") ;;
     id <- lift (if hi then get attribute "id" else Ret id0) ;;
     sid <- lift (to_string id) ;;
     tn <- prop type "name" ;;
     stn <- lift (to_string tn) ;;
     reject (MissingAttributeName sid stn)
   else mret tt) ;;;
  hi <- lift (hasOwnProperty attribute "id") ;;
  (if negb hi then
     n <- lift (get attribute "name") ;;
     sn <- lift (to_string n) ;;
     tn <- prop type "name" ;;
     stn <- lift (to_string tn) ;;
     reject (MissingAttributeId sn stn)
   else mret tt) ;;;
  id <- lift (get attribute "id") ;;
  (if existsb (strict_eq id) ids then
     sid <- lift (to_string id) ;;
     tn <- prop type "name" ;;
     stn <- lift (to_string tn) ;;
     n <- lift (get attribute "name") ;;
     sn <- lift (to_string n) ;;
     reject (DuplicateAttributeId sid stn sn)
   else mret tt) ;;;
  (if negb (strict_eq (VStr (slugify id)) id) then
     sid <- lift (to_string id) ;;
     reject (NonKebabCaseId sid (slugify id))
   else mret tt) ;;;
  mret (ids ++ [id]).

(** Line 96: [_.cloneDeep(plugins[`input-plugin-${attribute.type}`])] *)
Definition template (attribute : data) : M data :=
  ty <- lift (get attribute "type") ;;
  tys <- lift (to_string ty) ;;
  fun st =>
    (Ret (cloneDeep
            match plugins !! ("input-plugin-" +:+ tys) with
            | Some r => load (st_heap st) (Ref r)
            | None => VUndef
            end),
     st).

(** Lines 98-114: name, description, required, id and type *)
Definition configure (type : val) (attribute plugin : data) : M data :=
  name <- lift (get attribute "name") ;;
  plugin <- lift (if truthy name then set plugin "name" name else Ret plugin) ;;
  description <- lift (get attribute "description") ;;
  plugin <- lift (if truthy description
                  then set plugin "description" description
                  else Ret plugin) ;;
  required <- lift (get attribute "required") ;;
  plugin <- lift (if truthy required
                  then set plugin "required" (requiredLevel required)
                  else Ret plugin) ;;
  id <- lift (get attribute "id") ;;
  identifier <- prop type "identifier" ;;
  plugin <- lift (if strict_eq id identifier
                  then set plugin "required" (VStr "save")
                  else Ret plugin) ;;
  plugin <- lift (set plugin "id" id) ;;
  ty <- lift (get attribute "type") ;;
  lift (set plugin "type" ty).

(** Lines 117-121: a single input takes the plugin's name as label *)
Definition default_label (plugin : data) : outcome data :=
  inputs <~ get plugin "inputs" ;;
  ks <~ own_keys inputs ;;
  if bool_decide (length ks = 1%nat) then
    let input := hd "undefined" ks in
    name <~ get plugin "name" ;;
    set_in plugin "inputs" (fun inputs =>
      set_in inputs input (fun i => set i "label" name))
  else Ret plugin.

(** Lines 126-152: the body of the loop over the attribute's input
    overrides *)
Definition merge_input (overrides plugin : data) (attr : string) : outcome data :=
  inputs <~ get plugin "inputs" ;;
  ks <~ own_keys inputs ;;
  if bool_decide (attr ∈ ks) then
    default <~ get inputs attr ;;
    override <~ get overrides attr ;;
    merged <~ merge default override ;;
    validation <~ get default "validation" ;;
    merged <~ set merged "validation" validation ;;
    ty <~ get default "type" ;;
    merged <~ set merged "type" ty ;;
    hs <~ hasOwnProperty default "script" ;;
    merged <~ (if hs then
                 script <~ get default "script" ;; set merged "script" script
               else Ret merged) ;;
    ho <~ hasOwnProperty override "options" ;;
    merged <~ (if ho then
                 options <~ get override "options" ;; set merged "options" options
               else Ret merged) ;;
    hr <~ hasOwnProperty merged "required" ;;
    merged <~ (if negb hr then
                 required <~ get plugin "required" ;; set merged "required" required
               else
                 required <~ get merged "required" ;;
                 set merged "required" (requiredLevel required)) ;;
    inputs <~ get plugin "inputs" ;;
    inputs <~ set inputs attr merged ;;
    set plugin "inputs" inputs
  else Ret plugin.

(** Lines 124-154 *)
Definition merge_inputs (attribute plugin : data) : outcome data :=
  overrides <~ get attribute "inputs" ;;
  if truthy overrides then
    ks <~ own_keys overrides ;;
    ofold (merge_input overrides) plugin ks
  else Ret plugin.

(** Lines 157-160: a generated id and a name for every input *)
Definition assign_id (plugin : data) (input : string) : M data :=
  u <- uuid ;;
  plugin <- lift (set_in plugin "inputs" (fun inputs =>
                    set_in inputs input (fun i => set i "id" (VStr u)))) ;;
  id <- lift (get plugin "id") ;;
  sid <- lift (to_string id) ;;
  lift (set_in plugin "inputs" (fun inputs =>
          set_in inputs input (fun i =>
            set i "name" (VStr (sid +:+ "--" +:+ input))))).

Definition assign_ids (plugin : data) : M data :=
  inputs <- lift (get plugin "inputs") ;;
  ks <- lift (own_keys inputs) ;;
  mfold assign_id plugin ks.

(** Lines 165-185: [plugin.repeatable] in its unified form *)
Definition unify_repeatable (repeatable plugin : data) : outcome data :=
  if typeof_object repeatable then
    hmin <~ hasOwnProperty repeatable "min" ;;
    min <~ (if negb hmin then Ret (VNum 1) else get repeatable "min") ;;
    hmax <~ hasOwnProperty repeatable "max" ;;
    max <~ (if negb hmax then Ret (VNum MAX_SAFE_INTEGER)
            else get repeatable "max") ;;
    set plugin "repeatable" (VObj [("min", min); ("max", max)])
  else if strict_eq repeatable (VBool true) then
    set plugin "repeatable"
      (VObj [("min", VNum 1); ("max", VNum MAX_SAFE_INTEGER)])
  else Ret plugin.

(** Lines 190-194: instance [i] of the inputs *)
Definition suffix_input (i : nat) (inputs : data) (input : string) : outcome data :=
  inputs <~ set_in inputs input (fun inp =>
              id <~ get inp "id" ;;
              sid <~ to_string id ;;
              set inp "id" (VStr (sid +:+ "--" +:+ pretty i))) ;;
  set_in inputs input (fun inp =>
    name <~ get inp "name" ;;
    sname <~ to_string name ;;
    set inp "name" (VStr (sname +:+ "--" +:+ pretty i))).

Definition instance (plugin_inputs : data) (i : nat) : outcome data :=
  let inputs := cloneDeep plugin_inputs in
  ks <~ own_keys inputs ;;
  ofold (suffix_input i) inputs ks.

(** Lines 163-198 *)
Definition expand_repeatable (attribute plugin : data) : outcome data :=
  repeatable <~ get attribute "repeatable" ;;
  if truthy repeatable then
    plugin <~ unify_repeatable repeatable plugin ;;
    r <~ get plugin "repeatable" ;;
    min <~ get r "min" ;;
    n <~ loop_bound min ;;
    inputs <~ get plugin "inputs" ;;
    pluginInputs <~ omapM (instance inputs) (seq 0 n) ;;
    set plugin "inputs" (VArr pluginInputs)
  else Ret plugin.

(** Lines 62-201: the callback of [mergedType.attributes.map]; [ids] is
    the array of the ids seen so far. *)
Definition resolve_attribute (type : val) (ids : list data) (attribute : data)
  : M (data * list data) :=
  ids' <- validate type ids attribute ;;
  plugin <- template attribute ;;
  plugin <- configure type attribute plugin ;;
  plugin <- lift (default_label plugin) ;;
  plugin <- lift (merge_inputs attribute plugin) ;;
  plugin <- assign_ids plugin ;;
  plugin <- lift (expand_repeatable attribute plugin) ;;
  mret (plugin, ids').

Fixpoint map_attributes (type : val) (ids : list data) (attributes : list data)
  : M (list data) :=
  match attributes with
  | [] => mret []
  | attribute :: rest =>
      r <- resolve_attribute type ids attribute ;;
      attrs <- map_attributes type r.2 rest ;;
      mret (r.1 :: attrs)
  end.

(** Lines 204-206: [attrs.find(attr => attr.id === mergedType.identifier)] *)
Fixpoint find_contender (type : val) (attrs : list data) : M data :=
  match attrs with
  | [] => mret VUndef
  | attr :: rest =>
      id <- lift (get attr "id") ;;
      identifier <- prop type "identifier" ;;
      if strict_eq id identifier then mret attr else find_contender type rest
  end.

(** Lines 204-223: the checks on the identifier attribute *)
Definition check_identifier (type : val) (attrs : list data) : M unit :=
  contender <- find_contender type attrs ;;
  (if negb (truthy contender) then
     identifier <- prop type "identifier" ;;
     si <- lift (to_string identifier) ;;
     tn <- prop type "name" ;;
     stn <- lift (to_string tn) ;;
     reject (IdentifierNotAttribute si stn)
   else mret tt) ;;;
  inputs <- lift (get contender "inputs") ;;
  ks <- lift (own_keys inputs) ;;
  (if bool_decide (1 < length ks)%nat then
     identifier <- prop type "identifier" ;;
     si <- lift (to_string identifier) ;;
     tn <- prop type "name" ;;
     stn <- lift (to_string tn) ;;
     reject (IdentifierMultipleInputs si stn)
   else mret tt) ;;;
  hr <- lift (hasOwnProperty contender "repeatable") ;;
  (if hr then
     identifier <- prop type "identifier" ;;
     si <- lift (to_string identifier) ;;
     tn <- prop type "name" ;;
     stn <- lift (to_string tn) ;;
     reject (IdentifierRepeatable si stn)
   else mret tt) ;;;
  inputs <- lift (get contender "inputs") ;;
  ks <- lift (own_keys inputs) ;;
  first <- lift (get inputs (hd "undefined" ks)) ;;
  ho <- lift (hasOwnProperty first "options") ;;
  (if ho then
     identifier <- prop type "identifier" ;;
     si <- lift (to_string identifier) ;;
     tn <- prop type "name" ;;
     stn <- lift (to_string tn) ;;
     reject (IdentifierHasOptions si stn)
   else mret tt).

(** Lines 48-228: the callback of [types.map] *)
Definition process_type (type : val) : M val :=
  let mergedType := type in
  hi <- has_prop mergedType "identifier" ;;
  (if negb hi then
     tn <- prop mergedType "name" ;;
     stn <- lift (to_string tn) ;;
     reject (MissingIdentifierField stn)
   else mret tt) ;;;
  hi <- has_prop mergedType "identifier" ;;
  (if hi then
     identifier <- prop mergedType "identifier" ;;
     if negb (typeof_string identifier) then
       tn <- prop mergedType "name" ;;
       stn <- lift (to_string tn) ;;
       reject (InvalidIdentifierType stn)
     else mret tt
   else mret tt) ;;;
  attributes <- prop mergedType "attributes" ;;
  attrs <- match attributes with
           | VArr l => map_attributes type [] l
           | _ => lift (Throw TypeError)
           end ;;
  check_identifier type attrs ;;;
  assign mergedType "attributes" (VArr attrs).

(** [Array.isArray(types)] *)
Definition is_array (types : arg) : bool :=
  match types with
  | Arr _ | Other (Lit (VArr _)) => true
  | Other _ => false
  end.

(** [types.map(f)]: only an array has a [map] to call. *)
Definition types_map (types : arg) (f : val -> M val) : M (list val) :=
  match types with
  | Arr l => mmap f l
  | Other (Lit (VArr l)) => mmap f (Lit <$> l)
  | Other _ => lift (Throw TypeError)
  end.

(** Lines 45-230: the executor handed to [new Promise] *)
Definition executor (types : arg) : M unit :=
  (if negb (is_array types) then reject NotAnArray else mret tt) ;;;
  configured <- types_map types process_type ;;
  resolve configured.

(** Lines 44-231: the promise [squish] returns, run on the caller's heap
    [h] with [n] identifiers generated before.  An exception leaving the
    executor rejects the promise. *)
Definition squish (types : arg) (h : gmap ref obj) (n : nat) : option state :=
  match executor types (State h Pending n) with
  | (Ret _, st) => Some st
  | (Throw e, st) => Some (settle (Rejected e) st)
  | (OutOfModel, _) => None
  end.

End Squish.

(** ** Running the code: instances of the parameters

    The statements below hold for every [merge], [slugify], [uuid_v4] and
    catalog.  To run [squish] on concrete input these instances are used. *)

(** [deepmerge] on plain objects (release 1 of the package): the target's
    properties, then the source's; a source property that is an object is
    merged into a truthy target property of the same name, any other one
    replaces it.  Merging arrays or strings is left out. *)
Fixpoint deepmerge (target source : data) {struct source} : outcome data :=
  match source with
  | VUndef | VNull => Throw TypeError
  | VBool _ | VNum _ =>
      Ret match target with VObj tps => VObj tps | _ => VObj [] end
  | VStr _ | VArr _ => OutOfModel
  | VObj sps =>
      let destination := match target with VObj tps => tps | _ => [] end in
      d <~ (fix keys (seen : list string) (destination sps : obj) {struct sps}
              : outcome obj :=
              match sps with
              | [] => Ret destination
              | (key, sv) :: rest =>
                  if bool_decide (key ∈ seen) then keys seen destination rest
                  else
                    v <~ (if typeof_object sv && negb (strict_eq sv VNull) then
                            tv <~ get target key ;;
                            if truthy tv then deepmerge tv sv else Ret sv
                          else Ret sv) ;;
                    keys (key :: seen) (upsert key v destination) rest
              end) [] destination sps ;;
      Ret (VObj d)
  end.

Definition is_lower (c : ascii) : bool :=
  let n := nat_of_ascii c in bool_decide (97 ≤ n ≤ 122)%nat.
Definition is_upper (c : ascii) : bool :=
  let n := nat_of_ascii c in bool_decide (65 ≤ n ≤ 90)%nat.
Definition is_digit (c : ascii) : bool :=
  let n := nat_of_ascii c in bool_decide (48 ≤ n ≤ 57)%nat.
Definition to_lower (c : ascii) : ascii :=
  if is_upper c then ascii_of_nat (nat_of_ascii c + 32) else c.

(** Kebab case of an ASCII string: words are runs of letters or of digits,
    a capital after a small letter starts a word, words are joined by
    hyphens in lower case.  [prev] is the last character of the word being
    read, [gap] tells that a separator was skipped since. *)
Fixpoint kebab_go (prev : option ascii) (gap : bool) (cs : list ascii) : list ascii :=
  match cs with
  | [] => []
  | c :: cs' =>
      if is_lower c || is_upper c || is_digit c then
        let boundary :=
          match prev with
          | None => false
          | Some p =>
              gap || (is_lower p && is_upper c)
              || (negb (is_digit p) && is_digit c)
              || (is_digit p && negb (is_digit c))
          end in
        (if boundary then ["-"%char] else []) ++ to_lower c :: kebab_go (Some c) false cs'
      else kebab_go prev true cs'
  end.

Definition kebab (s : string) : string :=
  String.string_of_list_ascii (kebab_go None false (String.list_ascii_of_string s)).

(** [kebabCase] first turns its argument into a string. *)
Definition kebabCase (v : data) : string :=
  match v with
  | VUndef | VNull => ""
  | VBool true => "true"
  | VBool false => "false"
  | VNum n => kebab (pretty n)
  | VStr s => kebab s
  | VArr _ => ""
  | VObj _ => "object-object"
  end.

(** A generator whose [n]-th identifier is [id-n]. *)
Definition uuid_seq (n : nat) : string := "id-" +:+ pretty n.


(** * Definitions in the words of the design *)

(** ** Required levels *)

(** The three levels of the design, and the value [requiredLevel] returns
    for each: the level [none] is JavaScript's [false]. *)
Inductive RequiredLevel : Type := none | publish | save.

Definition level_value (l : RequiredLevel) : data :=
  match l with
  | save => VStr "save"
  | publish => VStr "publish"
  | none => VBool false
  end.

(** The mapping in the words of the design:
    [true | 'save' | 2 → save; 'publish' | 1 → publish; else none]. *)
Definition normalize (level : data) : RequiredLevel :=
  match level with
  | VBool true => save
  | VStr s =>
      if decide (s = "save") then save
      else if decide (s = "publish") then publish
      else none
  | VNum n =>
      if decide (n = 2) then save
      else if decide (n = 1) then publish
      else none
  | _ => none
  end.


(** ** Repeatable specifications *)

(** The normalization in the words of the design: [true] is
    [{min: 1, max: MAX}]; an object has [min] filled with [1] and [max]
    with [MAX] when absent; anything else is not a specification. *)
Definition normalized_repeatable (repeatable : data) : option (data * data) :=
  match repeatable with
  | VBool true => Some (VNum 1, VNum MAX_SAFE_INTEGER)
  | VObj spec =>
      Some (default (VNum 1) (lookup_prop "min" spec),
            default (VNum MAX_SAFE_INTEGER) (lookup_prop "max" spec))
  | _ => None
  end.

(** * Sample input

    A catalog of two plugins and a few content types, used to run the
    code. *)

(** [{name: 'Text', inputs: {value: {type: 'string', validation: {maxLength: 10}}}}] *)
Definition text_plugin : obj :=
  [("name", VStr "Text");
   ("inputs",
    VObj [("value",
           VObj [("type", VStr "string");
                 ("validation", VObj [("maxLength", VNum 10)])])])].

(** [{name: 'Email', required: 'publish',
      inputs: {email: {type: 'email', validation: {}, script: 'check.js'}}}] *)
Definition email_plugin : obj :=
  [("name", VStr "Email");
   ("required", VStr "publish");
   ("inputs",
    VObj [("email",
           VObj [("type", VStr "email"); ("validation", VObj []);
                 ("script", VStr "check.js")])])].

Definition sample_plugins : gmap string ref :=
  {[ "input-plugin-text" := 10%nat; "input-plugin-email" := 11%nat ]}.

(** The heap with the two templates and the content-type object [post] at
    reference 0. *)
Definition sample_heap (post : obj) : gmap ref obj :=
  {[ 0%nat := post; 10%nat := text_plugin; 11%nat := email_plugin ]}.

(** [{identifier: 'slug', name: 'Post',
      attributes: [{id: 'slug', type: 'text', name: 'Slug', required: 'publish'},
                   {id: 'contact', type: 'email', name: 'Contact', required: false}]}] *)
Definition post : obj :=
  [("identifier", VStr "slug");
   ("name", VStr "Post");
   ("attributes",
    VArr [VObj [("id", VStr "slug"); ("type", VStr "text");
                ("name", VStr "Slug"); ("required", VStr "publish")];
          VObj [("id", VStr "contact"); ("type", VStr "email");
                ("name", VStr "Contact"); ("required", VBool false)]])].

(** [squish] on the sample catalog. *)
Definition sample_squish (types : arg) (h : gmap ref obj) : option state :=
  squish deepmerge kebabCase uuid_seq sample_plugins types h 0.

(** [{identifier: 'slug', name: 'Draft',
      attributes: [{id: 'slug', type: 'text'},
                   {id: 'body', type: 'text', name: 'Body'}]}]:
    the first attribute has no name. *)
Definition draft : obj :=
  [("identifier", VStr "slug");
   ("name", VStr "Draft");
   ("attributes",
    VArr [VObj [("id", VStr "slug"); ("type", VStr "text")];
          VObj [("id", VStr "body"); ("type", VStr "text");
                ("name", VStr "Body")]])].





(** [{id: 'notes', type: 'text', name: 'Notes', repeatable: {min: 0}}] *)
Definition notes : data :=
  VObj [("id", VStr "notes"); ("type", VStr "text"); ("name", VStr "Notes");
        ("repeatable", VObj [("min", VNum 0)])].

Definition notes_resolved : data :=
  VObj [("name", VStr "Notes"); ("inputs", VArr []);
        ("id", VStr "notes"); ("type", VStr "text");
        ("repeatable", VObj [("min", VNum 0); ("max", VNum MAX_SAFE_INTEGER)])].

(** One attribute resolved on the sample catalog, for the type [post]. *)
Definition sample_resolve (attribute : data) : outcome (data * list data) * state :=
  resolve_attribute deepmerge kebabCase uuid_seq sample_plugins (Ref 0%nat) []
    attribute (State (sample_heap post) Pending 0).

(** [{id: 'title', type: 'text', name: 'Title',
      inputs: {value: {validation: {maxLength: 999}, script: 'custom.js',
                       options: ['A', 'B']}}}] *)
Definition title : data :=
  VObj [("id", VStr "title"); ("type", VStr "text"); ("name", VStr "Title");
        ("inputs",
         VObj [("value",
                VObj [("validation", VObj [("maxLength", VNum 999)]);
                      ("script", VStr "custom.js");
                      ("options", VArr [VStr "A"; VStr "B"])])])].

(** The plugin for [title] when the overrides are about to be merged
    (line 123), and after (line 155). *)
Definition title_configured : data :=
  VObj [("name", VStr "Title");
        ("inputs",
         VObj [("value",
                VObj [("type", VStr "string");
                      ("validation", VObj [("maxLength", VNum 10)]);
                      ("label", VStr "Title")])]);
        ("id", VStr "title"); ("type", VStr "text")].

Definition title_merged : data :=
  VObj [("name", VStr "Title");
        ("inputs",
         VObj [("value",
                VObj [("type", VStr "string");
                      ("validation", VObj [("maxLength", VNum 10)]);
                      ("label", VStr "Title"); ("script", VStr "custom.js");
                      ("options", VArr [VStr "A"; VStr "B"]);
                      ("required", VUndef)])]);
        ("id", VStr "title"); ("type", VStr "text")].

(** [title] as a run resolves it. *)
Definition title_resolved : data :=
  VObj [("name", VStr "Title");
        ("inputs",
         VObj [("value",
                VObj [("type", VStr "string");
                      ("validation", VObj [("maxLength", VNum 10)]);
                      ("label", VStr "Title"); ("script", VStr "custom.js");
                      ("options", VArr [VStr "A"; VStr "B"]);
                      ("required", VUndef); ("id", VStr "id-0");
                      ("name", VStr "title--value")])]);
        ("id", VStr "title"); ("type", VStr "text")].

(** * Predicates the statements use *)

(** In the type object [t], an attribute whose id is the type's identifier
    is required to save. *)
Definition identifier_is_save (t : data) : Prop :=
  ∀ attrs a id identifier,
    get t "attributes" = Ret (VArr attrs) → a ∈ attrs →
    get a "id" = Ret id → get t "identifier" = Ret identifier →
    strict_eq id identifier = true →
    get a "required" = Ret (VStr "save").


(** From [h] to [h'] the only writes were to [attributes] of the objects
    at [rs]: every object is as it was, or is one of [rs] with a new value
    of [attributes] and nothing else changed. *)
Definition writes_only_attributes (rs : list ref) (h h' : gmap ref obj) : Prop :=
  ∀ r, h' !! r = h !! r ∨
       (r ∈ rs ∧ ∃ ps x, h !! r = Some ps ∧ h' !! r = Some (upsert "attributes" x ps)).


Definition is_object (v : data) : Prop := ∃ ps, v = VObj ps.

(** The attribute whose id equals the type's identifier: the first one,
    when there are several. *)
Definition contender_of (identifier : data) (attrs : list data) : option data :=
  List.find
    (λ a, match get a "id" with
          | Ret id => strict_eq id identifier
          | _ => false
          end)
    attrs.

(** The input [c] is the input [b] with [--i] appended to its id and to
    its name, and nothing else changed. *)
Definition suffixed (i : nat) (b c : data) : Prop :=
  ∃ id name sid sname b',
    get b "id" = Ret id ∧ to_string id = Ret sid ∧
    get b "name" = Ret name ∧ to_string name = Ret sname ∧
    set b "id" (VStr (sid +:+ "--" +:+ pretty i)) = Ret b' ∧
    set b' "name" (VStr (sname +:+ "--" +:+ pretty i)) = Ret c ∧
    get c "id" = Ret (VStr (sid +:+ "--" +:+ pretty i)) ∧
    get c "name" = Ret (VStr (sname +:+ "--" +:+ pretty i)) ∧
    ∀ k, k ≠ "id" → k ≠ "name" → get c k = get b k.

(** The input map [inst] is copy [i] of the input map [base]: the same
    inputs in the same order, each one suffixed. *)
Definition copy_of (i : nat) (base inst : data) : Prop :=
  ∃ ks,
    own_keys base = Ret ks ∧ own_keys inst = Ret ks ∧
    ∀ input, input ∈ ks →
      ∃ b c, get base input = Ret b ∧ get inst input = Ret c ∧ suffixed i b c.

(** The fixed precedence of the per-input merge, for the plugin's
    [default] input, the attribute's [override], their deep merge
    [merged] and the [resolved] input: [validation] and [type] are the
    default's; [script] is the default's when the default has one and is
    left as merged otherwise; [options] is the override's when the
    override has one. *)
Definition precedence (default override merged resolved : data) : Prop :=
  get resolved "validation" = get default "validation" ∧
  get resolved "type" = get default "type" ∧
  (hasOwnProperty default "script" = Ret true →
   hasOwnProperty resolved "script" = Ret true ∧
   get resolved "script" = get default "script") ∧
  (hasOwnProperty default "script" = Ret false →
   hasOwnProperty resolved "script" = hasOwnProperty merged "script" ∧
   get resolved "script" = get merged "script") ∧
  (hasOwnProperty override "options" = Ret true →
   get resolved "options" = get override "options").

(** A property of the state that every step of a computation keeps. *)
Definition keeps {A} (R : relation state) (m : M A) : Prop :=
  ∀ st, R st (m st).2.

(** What every step of [squish] keeps, the writes to the caller's objects
    and the final [resolve] excepted: the heap is the same, the promise is
    as before or went from pending to rejected, and identifiers are only
    ever drawn. *)
Definition only_rejects (p p' : promise) : Prop :=
  p' = p ∨ (p = Pending ∧ ∃ e, p' = Rejected e).

Definition quiet : relation state := λ st st',
  st_heap st' = st_heap st ∧
  only_rejects (st_promise st) (st_promise st') ∧
  (st_uuid st ≤ st_uuid st')%nat.

(** The promise part alone, which writes to the heap keep as well. *)
Definition promise_quiet : relation state := λ st st',
  only_rejects (st_promise st) (st_promise st').

(** Two values with the same properties outside of [ks]. *)
Definition outside (ks : list string) (p p' : data) : Prop :=
  ∀ k, k ∉ ks → get p' k = get p k.

(** A resolved attribute of a type, on the heap [h]. *)
Definition resolved_from (merge : data → data → outcome data)
    (slugify : data → string) (uuid_v4 : nat → string) (plugins : gmap string ref)
    (h : gmap ref obj) (type : val) (attribute plugin : data) : Prop :=
  ∃ ids st ids' st',
    st_heap st = h ∧
    resolve_attribute merge slugify uuid_v4 plugins type ids attribute st
    = (Ret (plugin, ids'), st').

(** The elements of [types] when it is an array. *)
Definition array_elements (types : arg) : option (list val) :=
  match types with
  | Arr l => Some l
  | Other (Lit (VArr l)) => Some (Lit <$> l)
  | Other _ => None
  end.

(** The same on states. *)
Definition frame (rs : list ref) : relation state := λ st st',
  writes_only_attributes rs (st_heap st) (st_heap st').

(** The input [c] is the input [b] with a label, or [b] itself. *)
Definition labelled (b c : data) : Prop :=
  c = b ∨ ∃ label, set b "label" label = Ret c.

(** The input [c] is the input [b] with an id and a name assigned. *)
Definition identified (b c : data) : Prop :=
  ∃ id name b', set b "id" id = Ret b' ∧ set b' "name" name = Ret c.

(** [resolved] is a resolved input of the attribute [plugin] under the key
    [attr]: the entry of [inputs] when the attribute is not repeatable,
    the entry of one of the instances when it is. *)
Definition resolved_input (repeatable plugin : data) (attr : string)
    (resolved : data) : Prop :=
  ∃ inputs,
    get plugin "inputs" = Ret inputs ∧
    if truthy repeatable
    then ∃ instances i inst,
        inputs = VArr instances ∧ instances !! i = Some inst ∧
        get inst attr = Ret resolved
    else get inputs attr = Ret resolved.

(** An attribute that passes the five checks of lines 63-93 against the
    ids [ids] seen before it: its plugin is in the catalog, it has a name
    and an id of its own, the id is new and is its own kebab-case form. *)
Definition valid_attribute (slugify : data → string) (plugins : gmap string ref)
    (ids : list data) (attribute id : data) : Prop :=
  ∃ ty tys,
    get attribute "type" = Ret ty ∧ to_string ty = Ret tys ∧
    is_Some (plugins !! ("input-plugin-" +:+ tys)) ∧
    hasOwnProperty attribute "name" = Ret true ∧
    hasOwnProperty attribute "id" = Ret true ∧
    get attribute "id" = Ret id ∧
    existsb (strict_eq id) ids = false ∧
    id = VStr (slugify id).

(** The ids of the resolved attributes [attrs] are strings, each its own
    kebab-case form, and no two are the same. *)
Definition distinct_kebab_ids (slugify : data → string) (attrs : list data) : Prop :=
  ∃ ids : list string,
    Forall2 (λ a s, get a "id" = Ret (VStr s)) attrs ids ∧
    NoDup ids ∧
    Forall (λ s, slugify (VStr s) = s) ids.

(** In the type object [t] the identifier is a string that names one of
    the attributes, and that attribute has exactly one input, no
    [repeatable] and no [options] on its input. *)
Definition single_input_identifier (t : data) : Prop :=
  ∃ s attrs c inputs k first,
    hasOwnProperty t "identifier" = Ret true ∧
    get t "identifier" = Ret (VStr s) ∧
    get t "attributes" = Ret (VArr attrs) ∧
    contender_of (VStr s) attrs = Some c ∧
    get c "id" = Ret (VStr s) ∧
    get c "inputs" = Ret inputs ∧
    own_keys inputs = Ret [k] ∧
    hasOwnProperty c "repeatable" = Ret false ∧
    get inputs k = Ret first ∧
    hasOwnProperty first "options" = Ret false.

(** No identifier was drawn from [st] to [st']. *)
Definition same_uuid : relation state := λ st st', st_uuid st' = st_uuid st.

(** [template] is the object that the catalog holds for the plugin the
    attribute names, on the heap [h]. *)
Definition template_of (plugins : gmap string ref) (h : gmap ref obj)
    (attribute template : data) : Prop :=
  ∃ ty tys r ps,
    get attribute "type" = Ret ty ∧ to_string ty = Ret tys ∧
    plugins !! ("input-plugin-" +:+ tys) = Some r ∧
    h !! r = Some ps ∧ template = VObj ps.

(** The attribute overrides the input [k]: [attribute.inputs] is truthy
    and has the key [k]. *)
Definition overridden (attribute : data) (k : string) : Prop :=
  ∃ overrides ko,
    get attribute "inputs" = Ret overrides ∧ truthy overrides = true ∧
    own_keys overrides = Ret ko ∧ k ∈ ko.

(** Lines 144-149: the required level of the resolved input [c], from
    the deep merge [merged] of an input and its override and from the
    resolved attribute [plugin]. *)
Definition input_required (merged plugin c : data) : Prop :=
  (hasOwnProperty merged "required" = Ret true →
   ∃ r, get merged "required" = Ret r ∧
        get c "required" = Ret (requiredLevel r)) ∧
  (hasOwnProperty merged "required" = Ret false →
   get c "required" = get plugin "required").

(** A computation that leaves the heap alone unless it returns. *)
Definition writes_on_return {A} (m : M A) : Prop :=
  ∀ st, (∀ a, (m st).1 ≠ Ret a) → st_heap (m st).2 = st_heap st.

(** More sample input: attributes that fail one of the checks, and type
    objects that fail the checks on the type. *)

(** [{id: 'map', type: 'geo', name: 'Map'}]: the catalog has no plugin
    [input-plugin-geo]. *)
Definition map_attribute : data :=
  VObj [("id", VStr "map"); ("type", VStr "geo"); ("name", VStr "Map")].

(** [{id: 'slug', type: 'text'}] *)
Definition nameless : data :=
  VObj [("id", VStr "slug"); ("type", VStr "text")].

(** [{type: 'text', name: 'Body'}] *)
Definition idless : data :=
  VObj [("type", VStr "text"); ("name", VStr "Body")].

(** [{id: 'slug', type: 'text', name: 'Slug'}] *)
Definition slug_attribute : data :=
  VObj [("id", VStr "slug"); ("type", VStr "text"); ("name", VStr "Slug")].

(** [{id: 'My Id', type: 'text', name: 'Mine'}] *)
Definition spaced : data :=
  VObj [("id", VStr "My Id"); ("type", VStr "text"); ("name", VStr "Mine")].

(** [{name: 'Page', attributes: []}] *)
Definition page_without_identifier : obj :=
  [("name", VStr "Page"); ("attributes", VArr [])].

(** [{identifier: 7, name: 'Page', attributes: []}] *)
Definition page_numbered : obj :=
  [("identifier", VNum 7); ("name", VStr "Page"); ("attributes", VArr [])].

(** [{identifier: 'slug', name: 'Page'}] *)
Definition page_without_attributes : obj :=
  [("identifier", VStr "slug"); ("name", VStr "Page")].

(** [{identifier: 'map', name: 'Atlas', attributes: [{id: 'map', type: 'geo', name: 'Map'}]}] *)
Definition atlas : obj :=
  [("identifier", VStr "map"); ("name", VStr "Atlas");
   ("attributes", VArr [map_attribute])].

(** The state a run on the sample catalog starts from, with the content
    type [t] at reference 0. *)
Definition sample_state (t : obj) : state := State (sample_heap t) Pending 0.

(** The checks of lines 63-93 on the sample catalog, for the type at
    reference 0. *)
Definition sample_validate (t : obj) (ids : list data) (attribute : data)
  : outcome (list data) * state :=
  validate kebabCase sample_plugins (Ref 0%nat) ids attribute (sample_state t).

(** The callback of [types.map] on the sample catalog, for the type at
    reference 0. *)
Definition sample_process (t : obj) : outcome val * state :=
  process_type deepmerge kebabCase uuid_seq sample_plugins (Ref 0%nat)
    (sample_state t).

(** [slug_attribute] as a run resolves it for the type [post], whose
    identifier it is. *)
Definition slug_resolved : data :=
  VObj [("name", VStr "Slug");
        ("inputs",
         VObj [("value",
                VObj [("type", VStr "string");
                      ("validation", VObj [("maxLength", VNum 10)]);
                      ("label", VStr "Slug"); ("id", VStr "id-0");
                      ("name", VStr "slug--value")])]);
        ("required", VStr "save"); ("id", VStr "slug"); ("type", VStr "text")].

(** [{identifier: 'notes', name: 'Notebook', attributes: [notes]}]: the
    identifier attribute is repeatable with [min: 0], so it has no
    instance of its inputs. *)
Definition notebook : obj :=
  [("identifier", VStr "notes"); ("name", VStr "Notebook");
   ("attributes", VArr [notes])].

(** [{id: 'thrice', type: 'text', name: 'Thrice', repeatable: 3}] *)
Definition thrice : data :=
  VObj [("id", VStr "thrice"); ("type", VStr "text"); ("name", VStr "Thrice");
        ("repeatable", VNum 3)].
(** * Properties *)

(** ** Properties of objects *)

Lemma lookup_upsert_eq k v ps : lookup_prop k (upsert k v ps) = Some v.
Proof.
  induction ps as [|[k' v'] ps IH]; simpl.
  - by rewrite String.eqb_refl.
  - destruct (String.eqb_spec k k') as [->|Hne]; simpl.
    + by rewrite String.eqb_refl.
    + by destruct (String.eqb_spec k k').
Qed.

Lemma lookup_upsert_ne k k' v ps :
  k ≠ k' → lookup_prop k' (upsert k v ps) = lookup_prop k' ps.
Proof.
  intros Hne. induction ps as [|[k1 v1] ps IH]; simpl.
  - destruct (String.eqb_spec k' k); congruence.
  - destruct (String.eqb_spec k k1) as [->|Hk]; simpl.
    + destruct (String.eqb_spec k' k1); congruence.
    + destruct (String.eqb_spec k' k1); congruence.
Qed.

Lemma upsert_keys k v ps : k ∈ ps.*1 → (upsert k v ps).*1 = ps.*1.
Proof.
  induction ps as [|[k' v'] ps IH]; simpl.
  - by intros ?%elem_of_nil.
  - destruct (String.eqb_spec k k') as [->|Hne]; simpl; [done|].
    rewrite elem_of_cons. intros [?|?]; [done|]. f_equal. by apply IH.
Qed.

Lemma index_of_key_Some k n i :
  index_of_key k n = Some i → (i < n)%nat ∧ pretty i = k.
Proof.
  unfold index_of_key. intros H%head_Some_elem_of.
  apply list_elem_of_filter in H as [? H]. apply elem_of_seq in H. split; [lia|done].
Qed.

Lemma index_of_key_pretty i n : (i < n)%nat → index_of_key (pretty i) n = Some i.
Proof.
  assert (∀ n s, (s ≤ i < s + n)%nat →
            head (filter (λ j, pretty j = pretty i) (seq s n)) = Some i) as H.
  { clear n. induction n as [|n IH]; intros s Hs; [lia|]. simpl.
    destruct (decide (s = i)) as [->|Hne].
    - by rewrite filter_cons_True.
    - rewrite filter_cons_False; [apply IH; lia|].
      intros Heq. by apply (inj pretty) in Heq. }
  intros Hi. apply H. lia.
Qed.

Lemma own_keys_NoDup v ks : own_keys v = Ret ks → NoDup ks.
Proof.
  destruct v; simpl; intros [=]; subst.
  - constructor.
  - constructor.
  - apply NoDup_fmap_2; [apply _|apply NoDup_seq].
  - apply NoDup_fmap_2; [apply _|apply NoDup_seq].
  - apply NoDup_remove_dups.
Qed.

Lemma get_set_eq o k x o' : set o k x = Ret o' → get o' k = Ret x.
Proof.
  destruct o; simpl; try done.
  - destruct (index_of_key k (length l)) as [i|] eqn:Hi; [|done].
    intros [= <-]. simpl. unfold indexed_get. rewrite length_insert, Hi.
    apply index_of_key_Some in Hi as [Hi _].
    by rewrite list_lookup_insert_eq.
  - intros [= <-]. simpl. by rewrite lookup_upsert_eq.
Qed.

Lemma get_set_ne o k x o' k' : set o k x = Ret o' → k' ≠ k → get o' k' = get o k'.
Proof.
  destruct o; simpl; try done.
  - destruct (index_of_key k (length l)) as [i|] eqn:Hi; [|done].
    intros [= <-] Hne. simpl. unfold indexed_get. rewrite length_insert.
    destruct (index_of_key k' (length l)) as [j|] eqn:Hj; [|done].
    apply index_of_key_Some in Hi as [_ Hi]. apply index_of_key_Some in Hj as [_ Hj].
    rewrite list_lookup_insert_ne; [done|]. congruence.
  - intros [= <-] Hne. simpl. by rewrite lookup_upsert_ne.
Qed.

Lemma own_keys_set o k x o' ks :
  set o k x = Ret o' → own_keys o = Ret ks → k ∈ ks → own_keys o' = Ret ks.
Proof.
  destruct o; simpl; try done.
  - destruct (index_of_key k (length l)) as [i|] eqn:Hi; [|done].
    intros [= <-] [= <-] _. simpl. by rewrite length_insert.
  - intros [= <-] [= <-] Hk. simpl. rewrite elem_of_remove_dups in Hk.
    by rewrite upsert_keys.
Qed.

Lemma has_set_ne o k x o' k' :
  set o k x = Ret o' → k' ≠ k → k ≠ "hasOwnProperty" →
  hasOwnProperty o' k' = hasOwnProperty o k'.
Proof.
  destruct o; simpl; try done.
  - destruct (index_of_key k (length l)) as [i|] eqn:Hi; [|done].
    intros [= <-] _ _. simpl. unfold indexed_has. by rewrite length_insert.
  - intros [= <-] Hne Hh. simpl.
    rewrite !lookup_upsert_ne by done. done.
Qed.

(** ** The two monads *)

Lemma obind_Ret {A B} (o : outcome A) (k : A → outcome B) b :
  obind o k = Ret b → ∃ a, o = Ret a ∧ k a = Ret b.
Proof. destruct o; simpl; eauto; done. Qed.

Lemma mbind_Ret {A B} (m : M A) (k : A → M B) st b st' :
  mbind m k st = (Ret b, st') →
  ∃ a st1, m st = (Ret a, st1) ∧ k a st1 = (Ret b, st').
Proof. unfold mbind. destruct (m st) as [[a|e|] st1]; eauto; done. Qed.

Lemma lift_Ret {A} (o : outcome A) st a st' :
  lift o st = (Ret a, st') → o = Ret a ∧ st' = st.
Proof. unfold lift. by intros [= -> ->]. Qed.

Lemma mret_Ret {A} (x : A) st a st' : mret x st = (Ret a, st') → a = x ∧ st' = st.
Proof. unfold mret. by intros [= -> ->]. Qed.

Section Keeps.
Context (R : relation state) `{!PreOrder R}.

Lemma keeps_mret {A} (a : A) : keeps R (mret a).
Proof. intros st. simpl. reflexivity. Qed.

Lemma keeps_lift {A} (o : outcome A) : keeps R (lift o).
Proof. intros st. simpl. reflexivity. Qed.

Lemma keeps_mbind {A B} (m : M A) (k : A → M B) :
  keeps R m → (∀ a, keeps R (k a)) → keeps R (mbind m k).
Proof.
  intros Hm Hk st. unfold mbind. specialize (Hm st).
  destruct (m st) as [[a|e|] st1]; simpl in *; [|done..].
  etrans; [done|apply Hk].
Qed.

Lemma keeps_mfold {A B} (f : A → B → M A) a l :
  (∀ a b, keeps R (f a b)) → keeps R (mfold f a l).
Proof.
  intros Hf. revert a. induction l as [|b l IH]; intros a; simpl.
  - apply keeps_mret.
  - apply keeps_mbind; auto.
Qed.

Lemma keeps_mmap {A B} (f : A → M B) l :
  (∀ a, keeps R (f a)) → keeps R (mmap f l).
Proof.
  intros Hf. induction l as [|a l IH]; simpl.
  - apply keeps_mret.
  - apply keeps_mbind; [done|]. intros b.
    apply keeps_mbind; [done|]. intros bs. apply keeps_mret.
Qed.

Lemma keeps_if {A} (b : bool) (m1 m2 : M A) :
  keeps R m1 → keeps R m2 → keeps R (if b then m1 else m2).
Proof. by destruct b. Qed.
End Keeps.


Lemma only_rejects_refl p : only_rejects p p.
Proof. by left. Qed.

Lemma only_rejects_trans p1 p2 p3 :
  only_rejects p1 p2 → only_rejects p2 p3 → only_rejects p1 p3.
Proof.
  intros [->|[-> [e ->]]] [->|[? [e' ->]]]; unfold only_rejects; eauto; done.
Qed.

Lemma only_rejects_settled p p' : only_rejects p p' → p ≠ Pending → p' = p.
Proof. by intros [->|[-> _]]. Qed.

Global Instance quiet_preorder : PreOrder quiet.
Proof.
  split.
  - intros st. split; [done|]. split; [apply only_rejects_refl|done].
  - intros x y z (H1 & H2 & H3) (H1' & H2' & H3'). split; [congruence|].
    split; [by eapply only_rejects_trans|lia].
Qed.

Global Instance promise_quiet_preorder : PreOrder promise_quiet.
Proof.
  split; [intros st; apply only_rejects_refl|].
  intros x y z; apply only_rejects_trans.
Qed.

Lemma keeps_sub {A} (R1 R2 : relation state) (m : M A) :
  (∀ st st', R1 st st' → R2 st st') → keeps R1 m → keeps R2 m.
Proof. intros Hs Hm st. apply Hs, Hm. Qed.

Lemma quiet_promise_quiet st st' : quiet st st' → promise_quiet st st'.
Proof. by intros (_ & ? & _). Qed.

Lemma settle_settled p st : st_promise st ≠ Pending → settle p st = st.
Proof. unfold settle. by destruct (st_promise st). Qed.

Lemma settle_heap p st : st_heap (settle p st) = st_heap st.
Proof. unfold settle. by destruct (st_promise st). Qed.

Lemma settle_uuid p st : st_uuid (settle p st) = st_uuid st.
Proof. unfold settle. by destruct (st_promise st). Qed.

Lemma settle_pending p st :
  st_promise st = Pending → st_promise (settle p st) = p.
Proof. unfold settle. by intros ->. Qed.

Lemma keeps_quiet_reject e : keeps quiet (reject e).
Proof.
  intros st. simpl. split; [apply settle_heap|].
  split; [|by rewrite settle_uuid].
  unfold settle, only_rejects.
  destruct (st_promise st) eqn:E; simpl; rewrite ?E; eauto.
Qed.

Lemma keeps_quiet_prop v k : keeps quiet (prop v k).
Proof. intros st. simpl. reflexivity. Qed.

Lemma keeps_quiet_has_prop v k : keeps quiet (has_prop v k).
Proof. intros st. simpl. reflexivity. Qed.

Lemma keeps_quiet_uuid f : keeps quiet (uuid f).
Proof.
  intros st. unfold uuid, quiet. simpl.
  split; [done|]. split; [apply only_rejects_refl|lia].
Qed.

Lemma keeps_promise_assign v k x : keeps promise_quiet (assign v k x).
Proof.
  intros st. unfold assign, promise_quiet. destruct v as [r|d].
  - destruct (st_heap st !! r); apply only_rejects_refl.
  - destruct (set d k x); apply only_rejects_refl.
Qed.

Create HintDb keeps discriminated.
#[export] Hint Resolve keeps_quiet_reject keeps_quiet_prop keeps_quiet_has_prop
  keeps_quiet_uuid keeps_promise_assign : keeps.

(** Goes through a computation built from binds and conditionals. *)
Ltac keeps_tac :=
  repeat first
    [ solve [eauto with keeps]
    | apply keeps_mbind; [apply _ | | intros ?]
    | apply keeps_if
    | apply keeps_mfold; [apply _ | intros ? ?]
    | apply keeps_mmap; [apply _ | intros ?]
    | apply keeps_mret; apply _
    | apply keeps_lift; apply _
    | match goal with |- keeps _ (match ?x with _ => _ end) => destruct x end ].

(** ** What the stages of [squish] leave alone *)

Section Stages.
Context (merge : data → data → outcome data) (slugify : data → string)
  (uuid_v4 : nat → string) (plugins : gmap string ref).

Lemma keeps_quiet_template attribute : keeps quiet (template plugins attribute).
Proof. unfold template. keeps_tac. intros st. simpl. reflexivity. Qed.

Lemma keeps_quiet_validate type ids attribute :
  keeps quiet (validate slugify plugins type ids attribute).
Proof. unfold validate. keeps_tac. Qed.

Lemma keeps_quiet_configure type attribute plugin :
  keeps quiet (configure type attribute plugin).
Proof. unfold configure. keeps_tac. Qed.

Lemma keeps_quiet_assign_ids plugin : keeps quiet (assign_ids uuid_v4 plugin).
Proof. unfold assign_ids, assign_id. keeps_tac. Qed.

Hint Resolve keeps_quiet_template keeps_quiet_validate keeps_quiet_configure
  keeps_quiet_assign_ids : keeps.

Lemma keeps_quiet_resolve_attribute type ids attribute :
  keeps quiet
    (resolve_attribute merge slugify uuid_v4 plugins type ids attribute).
Proof. unfold resolve_attribute. keeps_tac. Qed.

Hint Resolve keeps_quiet_resolve_attribute : keeps.

Lemma keeps_quiet_map_attributes type ids attributes :
  keeps quiet
    (map_attributes merge slugify uuid_v4 plugins type ids attributes).
Proof. revert ids. induction attributes; intros ids; simpl; keeps_tac. Qed.

Lemma keeps_quiet_find_contender type attrs :
  keeps quiet (find_contender type attrs).
Proof. induction attrs; simpl; keeps_tac. Qed.

Hint Resolve keeps_quiet_map_attributes keeps_quiet_find_contender : keeps.

Lemma keeps_quiet_check_identifier type attrs :
  keeps quiet (check_identifier type attrs).
Proof. unfold check_identifier. keeps_tac. Qed.

End Stages.

#[export] Hint Resolve keeps_quiet_template keeps_quiet_validate
  keeps_quiet_configure keeps_quiet_assign_ids keeps_quiet_resolve_attribute
  keeps_quiet_map_attributes keeps_quiet_find_contender
  keeps_quiet_check_identifier : keeps.

(** ** The required-level normalizer *)

(** C7: [requiredLevel] is a total function of its argument alone and
    computes the design's mapping: [true], ['save'] and [2] give [save],
    ['publish'] and [1] give [publish], every other value gives [none]. *)
Theorem requiredLevel_normalize (level : data) :
  requiredLevel level = level_value (normalize level).
Proof.
  unfold requiredLevel, normalize.
  destruct level as [| |[]|n|s| |]; simpl; try reflexivity.
  - repeat case_decide; subst; simpl; try reflexivity;
      repeat case_bool_decide; simpl; congruence.
  - repeat case_decide; subst; simpl; try reflexivity;
      repeat case_bool_decide; simpl; congruence.
Qed.

(** ** The [types] argument *)

Section NotAnArray.
Context (merge : data → data → outcome data) (slugify : data → string)
  (uuid_v4 : nat → string) (plugins : gmap string ref).

(** C9: when [types] is not an array the promise is rejected with the
    [NotAnArray] error, whatever else the call was given; nothing is
    resolved and the heap is as before. *)
Theorem squish_not_an_array (types : arg) (h : gmap ref obj) (n : nat) :
  is_array types = false →
  squish merge slugify uuid_v4 plugins types h n
  = Some (State h (Rejected NotAnArray) n).
Proof.
  intros Harr. unfold squish, executor, mbind.
  rewrite Harr. simpl.
  destruct types as [l|[r|d]]; [done| |]; simpl; [done|].
  by destruct d.
Qed.
End NotAnArray.

Lemma squish_not_an_array_witness :
  is_array (Other (Ref 0%nat)) = false ∧
  squish deepmerge kebabCase uuid_seq ∅ (Other (Ref 0%nat))
    {[ 0%nat := [("identifier", VStr "slug"); ("name", VStr "Post");
                 ("attributes", VArr [])] ]} 0
  = Some (State
            {[ 0%nat := [("identifier", VStr "slug"); ("name", VStr "Post");
                         ("attributes", VArr [])] ]}
            (Rejected NotAnArray) 0).
Proof.
  split; [reflexivity|].
  apply (squish_not_an_array deepmerge kebabCase uuid_seq ∅). reflexivity.
Defined.

(** ** Reading the stages backwards *)

Lemma prop_Ret v k st x st' :
  prop v k st = (Ret x, st') → get (load (st_heap st) v) k = Ret x ∧ st' = st.
Proof. unfold prop. by intros [= -> ->]. Qed.

Lemma has_prop_Ret v k st x st' :
  has_prop v k st = (Ret x, st') →
  hasOwnProperty (load (st_heap st) v) k = Ret x ∧ st' = st.
Proof. unfold has_prop. by intros [= -> ->]. Qed.

(** Takes a successful run apart, bind by bind. *)
Ltac inv_step :=
  match goal with
  | H : mbind _ _ _ = (Ret _, _) |- _ =>
      let a := fresh "a" in let st := fresh "st" in let E := fresh "E" in
      apply mbind_Ret in H as (a & st & E & H)
  | H : obind _ _ = Ret _ |- _ =>
      let a := fresh "a" in let E := fresh "E" in
      apply obind_Ret in H as (a & E & H)
  | H : lift _ _ = (Ret _, _) |- _ => apply lift_Ret in H as [H ->]
  | H : mret _ _ = (Ret _, _) |- _ => apply mret_Ret in H as [-> ->]
  | H : prop _ _ _ = (Ret _, _) |- _ => apply prop_Ret in H as [H ->]
  | H : has_prop _ _ _ = (Ret _, _) |- _ => apply has_prop_Ret in H as [H ->]
  end.

(** Membership in an explicit list of keys. *)
Ltac solve_elem :=
  first [ by (rewrite !elem_of_cons; auto 10)
        | by (intros ? ?; rewrite !elem_of_cons in *; intuition auto 10) ].

Ltac solve_nelem :=
  by (rewrite ?not_elem_of_cons; repeat split; (done || apply not_elem_of_nil)).


Lemma outside_refl ks p : outside ks p p.
Proof. done. Qed.

Lemma outside_trans ks p1 p2 p3 :
  outside ks p1 p2 → outside ks p2 p3 → outside ks p1 p3.
Proof. intros H1 H2 k Hk. rewrite H2, H1; done. Qed.

Lemma outside_weaken ks ks' p p' : ks ⊆ ks' → outside ks p p' → outside ks' p p'.
Proof. intros Hs H k Hk. apply H. intros ?. by apply Hk, Hs. Qed.

Lemma outside_set o k x o' ks : set o k x = Ret o' → k ∈ ks → outside ks o o'.
Proof.
  intros Hset Hk k' Hk'. eapply get_set_ne; [done|]. intros ->. done.
Qed.

Lemma set_in_Ret o k f o' :
  set_in o k f = Ret o' →
  ∃ v v', get o k = Ret v ∧ f v = Ret v' ∧ set o k v' = Ret o'.
Proof. unfold set_in. intros H. repeat inv_step. eauto. Qed.

Lemma outside_set_in o k f o' ks : set_in o k f = Ret o' → k ∈ ks → outside ks o o'.
Proof.
  intros (v & v' & _ & _ & Hset)%set_in_Ret. by eapply outside_set.
Qed.

Lemma outside_ofold {B} (f : data → B → outcome data) ks l p p' :
  (∀ a b a', f a b = Ret a' → outside ks a a') →
  ofold f p l = Ret p' → outside ks p p'.
Proof.
  intros Hf. revert p. induction l as [|b l IH]; intros p; simpl.
  - intros [= ->]. apply outside_refl.
  - intros H. inv_step. eapply outside_trans; eauto.
Qed.

Lemma outside_mfold {B} (f : data → B → M data) ks l p st p' st' :
  (∀ a b st a' st', f a b st = (Ret a', st') → outside ks a a') →
  mfold f p l st = (Ret p', st') → outside ks p p'.
Proof.
  intros Hf. revert p st. induction l as [|b l IH]; intros p st; simpl.
  - intros H. inv_step. apply outside_refl.
  - intros H. inv_step. eapply outside_trans; eauto.
Qed.

Lemma default_label_outside plugin plugin' :
  default_label plugin = Ret plugin' → outside ["inputs"] plugin plugin'.
Proof.
  unfold default_label. intros H. repeat inv_step.
  case_bool_decide.
  - inv_step. eapply outside_set_in; [done|solve_elem].
  - injection H as ->. apply outside_refl.
Qed.

Lemma unify_repeatable_outside repeatable plugin plugin' :
  unify_repeatable repeatable plugin = Ret plugin' →
  outside ["repeatable"] plugin plugin'.
Proof.
  unfold unify_repeatable. intros H.
  destruct (typeof_object repeatable).
  - repeat inv_step. eapply outside_set; [done|solve_elem].
  - destruct (strict_eq repeatable (VBool true)).
    + eapply outside_set; [done|solve_elem].
    + injection H as ->. apply outside_refl.
Qed.

Lemma expand_repeatable_outside attribute plugin plugin' :
  expand_repeatable attribute plugin = Ret plugin' →
  outside ["repeatable"; "inputs"] plugin plugin'.
Proof.
  unfold expand_repeatable. intros H. inv_step.
  destruct (truthy a).
  - repeat inv_step. eapply outside_trans.
    + eapply outside_weaken; [|by eapply unify_repeatable_outside]. solve_elem.
    + eapply outside_set; [done|solve_elem].
  - injection H as ->. apply outside_refl.
Qed.

Section StagesBackwards.
Context (merge : data → data → outcome data) (slugify : data → string)
  (uuid_v4 : nat → string) (plugins : gmap string ref).


Lemma merge_input_outside overrides plugin attr plugin' :
  merge_input merge overrides plugin attr = Ret plugin' →
  outside ["inputs"] plugin plugin'.
Proof.
  unfold merge_input. intros H. do 2 inv_step.
  case_bool_decide.
  - repeat inv_step. eapply outside_set; [done|solve_elem].
  - injection H as ->. apply outside_refl.
Qed.

Lemma merge_inputs_outside attribute plugin plugin' :
  merge_inputs merge attribute plugin = Ret plugin' →
  outside ["inputs"] plugin plugin'.
Proof.
  unfold merge_inputs. intros H. inv_step.
  destruct (truthy a).
  - inv_step. eapply outside_ofold; [|done].
    intros ???. apply merge_input_outside.
  - injection H as ->. apply outside_refl.
Qed.

Lemma assign_id_outside plugin input st plugin' st' :
  assign_id uuid_v4 plugin input st = (Ret plugin', st') →
  outside ["inputs"] plugin plugin'.
Proof.
  unfold assign_id. intros H. repeat inv_step.
  eapply outside_trans; eapply outside_set_in; try done; solve_elem.
Qed.

Lemma assign_ids_outside plugin st plugin' st' :
  assign_ids uuid_v4 plugin st = (Ret plugin', st') →
  outside ["inputs"] plugin plugin'.
Proof.
  unfold assign_ids. intros H. repeat inv_step.
  eapply outside_mfold; [|done]. intros ?????. apply assign_id_outside.
Qed.



(** The stages a resolved attribute went through. *)
Lemma resolve_attribute_Ret type ids attribute st plugin ids' st' :
  resolve_attribute merge slugify uuid_v4 plugins type ids attribute st
  = (Ret (plugin, ids'), st') →
  ∃ st1 p0 p1 p2 p3 p4 st2,
    validate slugify plugins type ids attribute st = (Ret ids', st1) ∧
    template plugins attribute st1 = (Ret p0, st1) ∧
    configure type attribute p0 st1 = (Ret p1, st1) ∧
    default_label p1 = Ret p2 ∧
    merge_inputs merge attribute p2 = Ret p3 ∧
    assign_ids uuid_v4 p3 st1 = (Ret p4, st2) ∧
    expand_repeatable attribute p4 = Ret plugin ∧
    st' = st2 ∧ st_heap st1 = st_heap st ∧ st_heap st2 = st_heap st.
Proof.
  unfold resolve_attribute. intros H.
  apply mbind_Ret in H as (ids1 & st1 & Hv & H).
  apply mbind_Ret in H as (p0 & st1' & Ht & H).
  apply mbind_Ret in H as (p1 & st1'' & Hc & H).
  apply mbind_Ret in H as (p2 & ? & [Hd ->]%lift_Ret & H).
  apply mbind_Ret in H as (p3 & ? & [Hm ->]%lift_Ret & H).
  apply mbind_Ret in H as (p4 & st2 & Ha & H).
  apply mbind_Ret in H as (p5 & ? & [He ->]%lift_Ret & H).
  apply mret_Ret in H as [[= -> ->] ->].
  assert (st1' = st1) as ->.
  { unfold template in Ht. repeat inv_step. by injection Ht. }
  assert (st1'' = st1) as ->.
  { unfold configure in Hc. by repeat inv_step. }
  pose proof (keeps_quiet_validate slugify plugins type ids attribute st) as K1.
  rewrite Hv in K1. destruct K1 as [K1 _]. simpl in K1.
  pose proof (keeps_quiet_assign_ids uuid_v4 p3 st1) as K2.
  rewrite Ha in K2. destruct K2 as [K2 _]. simpl in K2.
  exists st1, p0, p1, p2, p3, p4, st2. repeat split; try done. congruence.
Qed.

End StagesBackwards.

(** ** Deep copies *)

(** Induction on data, with the hypothesis for every element of an array
    and every property of an object. *)
Lemma data_rect_nested (P : data → Prop) :
  P VUndef → P VNull → (∀ b, P (VBool b)) → (∀ n, P (VNum n)) →
  (∀ s, P (VStr s)) →
  (∀ l, Forall P l → P (VArr l)) →
  (∀ ps, Forall (λ p, P p.2) ps → P (VObj ps)) →
  ∀ v, P v.
Proof.
  intros Hu Hn Hb Hz Hs Ha Ho.
  fix IH 1. intros [| |b|n|s|l|ps];
    [exact Hu|exact Hn|apply Hb|apply Hz|apply Hs| |].
  - apply Ha. induction l as [|x l IHl]; constructor; [apply IH|apply IHl].
  - apply Ho. induction ps as [|[k x] ps IHps]; constructor; [apply IH|apply IHps].
Qed.

Lemma cloneDeep_eq v : cloneDeep v = v.
Proof.
  induction v as [| | | | |l IH|ps IH] using data_rect_nested; simpl; try done.
  - f_equal. induction IH as [|x l Hx _ IHl]; simpl; [done|]. by rewrite Hx, IHl.
  - f_equal. induction IH as [|[k x] l Hx _ IHl]; simpl; [done|].
    simpl in Hx. by rewrite Hx, IHl.
Qed.

Lemma get_cond_set_ne (b : bool) o k x o' k' :
  (if b then set o k x else Ret o) = Ret o' → k' ≠ k → get o' k' = get o k'.
Proof. destruct b; [apply get_set_ne|]. by intros [= ->]. Qed.

(** ** The required level of a resolved attribute *)

Section Required.
Context (merge : data → data → outcome data) (slugify : data → string)
  (uuid_v4 : nat → string) (plugins : gmap string ref).

Lemma template_Ret attribute st p st' :
  template plugins attribute st = (Ret p, st') →
  ∃ ty tys,
    get attribute "type" = Ret ty ∧ to_string ty = Ret tys ∧
    p = match plugins !! ("input-plugin-" +:+ tys) with
        | Some r => load (st_heap st) (Ref r)
        | None => VUndef
        end ∧ st' = st.
Proof.
  unfold template. intros H. repeat inv_step.
  injection H as <- <-. rewrite cloneDeep_eq. eauto 10.
Qed.

Lemma configure_Ret type attribute plugin st p' st' :
  configure type attribute plugin st = (Ret p', st') →
  ∃ id identifier required,
    get attribute "id" = Ret id ∧
    get (load (st_heap st) type) "identifier" = Ret identifier ∧
    get attribute "required" = Ret required ∧
    get p' "id" = Ret id ∧
    get p' "required"
    = (if strict_eq id identifier then Ret (VStr "save")
       else if truthy required then Ret (requiredLevel required)
       else get plugin "required") ∧
    outside ["name"; "description"; "required"; "id"; "type"] plugin p'.
Proof.
  unfold configure. intros H.
  apply mbind_Ret in H as (name & ? & [Hn ->]%lift_Ret & H).
  apply mbind_Ret in H as (p1 & ? & [H1 ->]%lift_Ret & H).
  apply mbind_Ret in H as (description & ? & [Hd ->]%lift_Ret & H).
  apply mbind_Ret in H as (p2 & ? & [H2 ->]%lift_Ret & H).
  apply mbind_Ret in H as (required & ? & [Hr ->]%lift_Ret & H).
  apply mbind_Ret in H as (p3 & ? & [H3 ->]%lift_Ret & H).
  apply mbind_Ret in H as (id & ? & [Hi ->]%lift_Ret & H).
  apply mbind_Ret in H as (identifier & ? & [Hident ->]%prop_Ret & H).
  apply mbind_Ret in H as (p4 & ? & [H4 ->]%lift_Ret & H).
  apply mbind_Ret in H as (p5 & ? & [H5 ->]%lift_Ret & H).
  apply mbind_Ret in H as (ty & ? & [Hty ->]%lift_Ret & H).
  apply lift_Ret in H as [H6 _].
  exists id, identifier, required. repeat split; try done.
  - erewrite get_set_ne by done. by eapply get_set_eq.
  - erewrite (get_set_ne p5) by done. erewrite (get_set_ne p4) by done.
    destruct (strict_eq id identifier); [by eapply get_set_eq|].
    injection H4 as ->.
    destruct (truthy required); [by eapply get_set_eq|].
    injection H3 as ->.
    erewrite (get_cond_set_ne _ p1) by done.
    erewrite (get_cond_set_ne _ plugin) by done. done.
  - intros k Hk. rewrite !not_elem_of_cons in Hk.
    destruct Hk as (? & ? & ? & ? & ? & _).
    erewrite (get_set_ne p5) by done. erewrite (get_set_ne p4) by done.
    erewrite (get_cond_set_ne _ p3) by done.
    erewrite (get_cond_set_ne _ p2) by done.
    erewrite (get_cond_set_ne _ p1) by done.
    erewrite (get_cond_set_ne _ plugin) by done. done.
Qed.

(** The id and the required level of a resolved attribute, from the
    attribute as configured and the template [p0] it started from. *)
Lemma resolve_attribute_required type ids attribute st plugin ids' st' :
  resolve_attribute merge slugify uuid_v4 plugins type ids attribute st
  = (Ret (plugin, ids'), st') →
  ∃ id identifier required ty tys,
    get attribute "id" = Ret id ∧
    get (load (st_heap st) type) "identifier" = Ret identifier ∧
    get attribute "required" = Ret required ∧
    get attribute "type" = Ret ty ∧ to_string ty = Ret tys ∧
    get plugin "id" = Ret id ∧
    get plugin "required"
    = (if strict_eq id identifier then Ret (VStr "save")
       else if truthy required then Ret (requiredLevel required)
       else get match plugins !! ("input-plugin-" +:+ tys) with
                | Some r => load (st_heap st) (Ref r)
                | None => VUndef
                end "required").
Proof.
  intros (st1 & p0 & p1 & p2 & p3 & p4 & st2 & Hv & Ht & Hc & Hd & Hm & Ha & He
          & -> & Hh1 & Hh2)%resolve_attribute_Ret.
  apply template_Ret in Ht as (ty & tys & Hty & Htys & Hp0 & _).
  apply configure_Ret in Hc
    as (id & identifier & required & Hid & Hident & Hreq & Hpid & Hpreq & _).
  apply default_label_outside in Hd. apply merge_inputs_outside in Hm.
  apply assign_ids_outside in Ha. apply expand_repeatable_outside in He.
  assert (∀ k, k ∉ ["repeatable"; "inputs"] → get plugin k = get p1 k) as Hout.
  { intros k Hk. rewrite !not_elem_of_cons in Hk. destruct Hk as (? & ? & _).
    rewrite He, Ha, Hm, Hd; solve_nelem. }
  exists id, identifier, required, ty, tys.
  rewrite Hh1 in Hident, Hp0. subst p0.
  rewrite (Hout "id"), (Hout "required") by solve_nelem. done.
Qed.

End Required.

(** ** Resolved attributes are objects *)

(** Without a template there is nothing to configure: line 113 throws. *)
Lemma configure_undefined type attribute st p st' :
  configure type attribute VUndef st = (Ret p, st') → False.
Proof.
  unfold configure. intros H.
  apply mbind_Ret in H as (name & ? & [Hn ->]%lift_Ret & H).
  apply mbind_Ret in H as (p1 & ? & [H1 ->]%lift_Ret & H).
  apply mbind_Ret in H as (description & ? & [Hd ->]%lift_Ret & H).
  apply mbind_Ret in H as (p2 & ? & [H2 ->]%lift_Ret & H).
  apply mbind_Ret in H as (required & ? & [Hr ->]%lift_Ret & H).
  apply mbind_Ret in H as (p3 & ? & [H3 ->]%lift_Ret & H).
  apply mbind_Ret in H as (id & ? & [Hi ->]%lift_Ret & H).
  apply mbind_Ret in H as (identifier & ? & [Hident ->]%prop_Ret & H).
  apply mbind_Ret in H as (p4 & ? & [H4 ->]%lift_Ret & H).
  apply mbind_Ret in H as (p5 & ? & [H5 ->]%lift_Ret & H).
  destruct (truthy name); [done|]. injection H1 as <-.
  destruct (truthy description); [done|]. injection H2 as <-.
  destruct (truthy required); [done|]. injection H3 as <-.
  destruct (strict_eq id identifier); [done|]. injection H4 as <-.
  done.
Qed.

Lemma set_is_object o k x o' : is_object o → set o k x = Ret o' → is_object o'.
Proof. intros [ps ->]. simpl. intros [= <-]. by eexists. Qed.

Lemma set_in_is_object o k f o' : is_object o → set_in o k f = Ret o' → is_object o'.
Proof.
  intros Ho (v & v' & _ & _ & Hset)%set_in_Ret. by eapply set_is_object.
Qed.

Lemma cond_set_is_object (b : bool) o k x o' :
  is_object o → (if b then set o k x else Ret o) = Ret o' → is_object o'.
Proof. destruct b; [apply set_is_object|]. by intros ? [= <-]. Qed.

Lemma default_label_is_object plugin plugin' :
  is_object plugin → default_label plugin = Ret plugin' → is_object plugin'.
Proof.
  unfold default_label. intros Ho H. repeat inv_step.
  case_bool_decide.
  - inv_step. by eapply set_in_is_object.
  - by injection H as <-.
Qed.

Lemma expand_repeatable_is_object attribute plugin plugin' :
  is_object plugin → expand_repeatable attribute plugin = Ret plugin' →
  is_object plugin'.
Proof.
  unfold expand_repeatable. intros Ho H. inv_step.
  destruct (truthy a); [|by injection H as <-].
  repeat inv_step. eapply set_is_object; [|done].
  match goal with H : unify_repeatable _ _ = _ |- _ => revert H end.
  unfold unify_repeatable. intros Hu.
  destruct (typeof_object a).
  - repeat inv_step. by eapply set_is_object.
  - destruct (strict_eq a (VBool true)); [by eapply set_is_object|].
    by injection Hu as <-.
Qed.

Lemma ofold_is_object {B} (f : data → B → outcome data) l : ∀ p p',
  (∀ a b a', is_object a → f a b = Ret a' → is_object a') →
  is_object p → ofold f p l = Ret p' → is_object p'.
Proof.
  induction l as [|b l IH]; intros p p' Hf Ho; simpl.
  - by intros [= <-].
  - intros H. inv_step. eauto.
Qed.

Lemma mfold_is_object {B} (f : data → B → M data) l : ∀ p st p' st',
  (∀ a b st a' st', is_object a → f a b st = (Ret a', st') → is_object a') →
  is_object p → mfold f p l st = (Ret p', st') → is_object p'.
Proof.
  induction l as [|b l IH]; intros p st p' st' Hf Ho; simpl.
  - by intros [-> _]%mret_Ret.
  - intros H. inv_step. eauto.
Qed.

Section Objects.
Context (merge : data → data → outcome data) (slugify : data → string)
  (uuid_v4 : nat → string) (plugins : gmap string ref).

Lemma merge_inputs_is_object attribute plugin plugin' :
  is_object plugin → merge_inputs merge attribute plugin = Ret plugin' →
  is_object plugin'.
Proof.
  unfold merge_inputs. intros Ho H. inv_step.
  destruct (truthy a); [|by injection H as <-].
  inv_step. eapply ofold_is_object; [|done..].
  intros q attr q' Hq. unfold merge_input. intros H1. do 2 inv_step.
  case_bool_decide; [|by injection H1 as <-].
  repeat inv_step. by eapply set_is_object.
Qed.

Lemma assign_ids_is_object plugin st plugin' st' :
  is_object plugin → assign_ids uuid_v4 plugin st = (Ret plugin', st') →
  is_object plugin'.
Proof.
  unfold assign_ids. intros Ho H. do 2 inv_step.
  eapply mfold_is_object; [|done..].
  intros q input sq q' sq' Hq. unfold assign_id. intros H1. repeat inv_step.
  eapply set_in_is_object; [|done]. by eapply set_in_is_object.
Qed.

Lemma configure_is_object type attribute plugin st p' st' :
  is_object plugin → configure type attribute plugin st = (Ret p', st') →
  is_object p'.
Proof.
  unfold configure. intros Ho H.
  apply mbind_Ret in H as (name & ? & [Hn ->]%lift_Ret & H).
  apply mbind_Ret in H as (p1 & ? & [H1 ->]%lift_Ret & H).
  apply mbind_Ret in H as (description & ? & [Hd ->]%lift_Ret & H).
  apply mbind_Ret in H as (p2 & ? & [H2 ->]%lift_Ret & H).
  apply mbind_Ret in H as (required & ? & [Hr ->]%lift_Ret & H).
  apply mbind_Ret in H as (p3 & ? & [H3 ->]%lift_Ret & H).
  apply mbind_Ret in H as (id & ? & [Hi ->]%lift_Ret & H).
  apply mbind_Ret in H as (identifier & ? & [Hident ->]%prop_Ret & H).
  apply mbind_Ret in H as (p4 & ? & [H4 ->]%lift_Ret & H).
  apply mbind_Ret in H as (p5 & ? & [H5 ->]%lift_Ret & H).
  apply mbind_Ret in H as (ty & ? & [Hty ->]%lift_Ret & H).
  apply lift_Ret in H as [H6 _].
  eapply set_is_object; [|done]. eapply set_is_object; [|done].
  eapply cond_set_is_object; [|done]. eapply cond_set_is_object; [|done].
  eapply cond_set_is_object; [|done]. by eapply cond_set_is_object.
Qed.

Lemma resolve_attribute_is_object type ids attribute st plugin ids' st' :
  resolve_attribute merge slugify uuid_v4 plugins type ids attribute st
  = (Ret (plugin, ids'), st') →
  is_object plugin.
Proof.
  intros (st1 & p0 & p1 & p2 & p3 & p4 & st2 & _ & Ht & Hc & Hd & Hm & Ha & He
          & _)%resolve_attribute_Ret.
  eapply expand_repeatable_is_object; [|done].
  eapply assign_ids_is_object; [|done].
  eapply merge_inputs_is_object; [|done].
  eapply default_label_is_object; [|done].
  eapply configure_is_object; [|done].
  apply template_Ret in Ht as (ty & tys & _ & _ & -> & _).
  destruct (plugins !! _) as [r|]; simpl in *;
    [|by apply configure_undefined in Hc].
  destruct (st_heap st1 !! r); [by eexists|by apply configure_undefined in Hc].
Qed.

(** The attributes a type's [map] returns are objects: what the checks on
    the identifier attribute assume. *)
Lemma map_attributes_objects type ids l st attrs st' :
  map_attributes merge slugify uuid_v4 plugins type ids l st = (Ret attrs, st') →
  Forall is_object attrs.
Proof.
  revert ids st attrs. induction l as [|a l IH]; intros ids st attrs; simpl.
  - intros [-> _]%mret_Ret. constructor.
  - intros H.
    apply mbind_Ret in H as ([p ids1] & st1 & Hr & H).
    apply mbind_Ret in H as (rest & st2 & Hm & H).
    apply mret_Ret in H as [-> ->]. simpl in *.
    constructor; [by eapply resolve_attribute_is_object|by eapply IH].
Qed.

End Objects.

(** ** From one type to the whole run *)

Ltac keeps_tac' :=
  repeat first
    [ solve [eauto with keeps]
    | (apply (keeps_sub quiet promise_quiet);
       [apply quiet_promise_quiet | solve [eauto with keeps]])
    | apply keeps_mbind; [apply _ | | intros ?]
    | apply keeps_if
    | apply keeps_mmap; [apply _ | intros ?]
    | apply keeps_mret; apply _
    | apply keeps_lift; apply _
    | match goal with |- keeps _ (match ?x with _ => _ end) => destruct x end ].

Lemma assign_Ret type k x st v st' :
  assign type k x st = (Ret v, st') →
  set (load (st_heap st) type) k x = Ret (load (st_heap st') v) ∧
  (∀ u, load (st_heap st') u = load (st_heap st) u ∨ u = v) ∧
  match type with
  | Ref r => v = Ref r
  | Lit _ => (∃ d, v = Lit d) ∧ st_heap st' = st_heap st
  end.
Proof.
  unfold assign. destruct type as [r|d]; simpl.
  - destruct (st_heap st !! r) as [ps|] eqn:E; [|done].
    intros [= <- <-]. simpl. rewrite lookup_insert_eq. split; [done|].
    split; [|done]. intros [r'|d]; simpl; [|by left].
    destruct (decide (r' = r)) as [->|Hne]; [by right|left].
    by rewrite lookup_insert_ne.
  - destruct (set d k x) as [d'| |] eqn:E; try done.
    intros [= <- <-]. simpl. eauto 10.
Qed.

Section Types.
Context (merge : data → data → outcome data) (slugify : data → string)
  (uuid_v4 : nat → string) (plugins : gmap string ref).

Abbreviation resolve_attribute' := (resolve_attribute merge slugify uuid_v4 plugins).
Abbreviation process_type' := (process_type merge slugify uuid_v4 plugins).
Abbreviation resolved_from' := (resolved_from merge slugify uuid_v4 plugins).

Lemma keeps_promise_process_type type : keeps promise_quiet (process_type' type).
Proof. unfold process_type. keeps_tac'. Qed.

Lemma keeps_promise_types_map types :
  keeps promise_quiet (types_map types process_type').
Proof.
  pose proof keeps_promise_process_type.
  unfold types_map. keeps_tac'.
Qed.


Lemma map_attributes_Ret type ids l st attrs st' :
  map_attributes merge slugify uuid_v4 plugins type ids l st = (Ret attrs, st') →
  Forall2 (resolved_from' (st_heap st) type) l attrs.
Proof.
  revert ids st attrs. induction l as [|a l IH]; intros ids st attrs; simpl.
  - intros [-> _]%mret_Ret. constructor.
  - intros H.
    apply mbind_Ret in H as ([p ids1] & st1 & Hr & H).
    apply mbind_Ret in H as (rest & st2 & Hm & H).
    apply mret_Ret in H as [-> ->]. simpl in *.
    pose proof (keeps_quiet_resolve_attribute merge slugify uuid_v4 plugins
                  type ids a st) as K.
    rewrite Hr in K. destruct K as [K _]. simpl in K.
    constructor.
    + by exists ids, st, ids1, st1.
    + rewrite <- K. by eapply IH.
Qed.

(** A processed type: its attributes were an array, each was resolved
    against the heap as it was, and the array of the results was
    assigned to [attributes]. *)
Lemma process_type_Ret type st v st' :
  process_type' type st = (Ret v, st') →
  ∃ l attrs,
    get (load (st_heap st) type) "attributes" = Ret (VArr l) ∧
    Forall2 (resolved_from' (st_heap st) type) l attrs ∧
    set (load (st_heap st) type) "attributes" (VArr attrs)
    = Ret (load (st_heap st') v) ∧
    (∀ u, load (st_heap st') u = load (st_heap st) u ∨ u = v) ∧
    match type with
    | Ref r => v = Ref r
    | Lit _ => (∃ d, v = Lit d) ∧ st_heap st' = st_heap st
    end.
Proof.
  unfold process_type. intros H.
  apply mbind_Ret in H as (hi & st1 & H1 & H).
  apply mbind_Ret in H as ([] & st2 & H2 & H).
  apply mbind_Ret in H as (hi' & st3 & H3 & H).
  apply mbind_Ret in H as ([] & st4 & H4 & H).
  apply mbind_Ret in H as (attributes & st5 & H5 & H).
  apply mbind_Ret in H as (attrs & st6 & H6 & H).
  apply mbind_Ret in H as ([] & st7 & H7 & H).
  assert (quiet st st4) as (Hh4 & _).
  { etrans; [|etrans; [|etrans]].
    - pose proof (keeps_quiet_has_prop type "identifier" st) as K.
      by rewrite H1 in K.
    - match type of H2 with ?m _ = _ => assert (keeps quiet m) as K by keeps_tac end.
      specialize (K st1). by rewrite H2 in K.
    - pose proof (keeps_quiet_has_prop type "identifier" st2) as K.
      by rewrite H3 in K.
    - match type of H4 with ?m _ = _ => assert (keeps quiet m) as K by keeps_tac end.
      specialize (K st3). by rewrite H4 in K. }
  apply prop_Ret in H5 as [H5 ->]. rewrite Hh4 in H5.
  destruct attributes as [| | | | |l|]; try by apply lift_Ret in H6 as [? _].
  pose proof (map_attributes_Ret _ _ _ _ _ _ H6) as HF. rewrite Hh4 in HF.
  assert (st_heap st7 = st_heap st) as Hh7.
  { pose proof (keeps_quiet_map_attributes merge slugify uuid_v4 plugins
                  type [] l st4) as K.
    rewrite H6 in K. destruct K as [K _].
    pose proof (keeps_quiet_check_identifier type attrs st6) as K'.
    rewrite H7 in K'. destruct K' as [K' _]. simpl in *. congruence. }
  apply assign_Ret in H as (Hset & Hu & Hv). rewrite Hh7 in Hset, Hu, Hv.
  exists l, attrs. repeat split; done.
Qed.

(** Later types leave the objects of earlier ones alone, unless they are
    the same object. *)
Lemma mmap_process_type_load l st vs st' :
  mmap process_type' l st = (Ret vs, st') →
  ∀ u, load (st_heap st') u = load (st_heap st) u ∨ u ∈ vs.
Proof.
  revert st vs. induction l as [|t l IH]; intros st vs; simpl.
  - intros [-> ->]%mret_Ret. by left.
  - intros H.
    apply mbind_Ret in H as (v & st1 & Hp & H).
    apply mbind_Ret in H as (rest & st2 & Hm & H).
    apply mret_Ret in H as [-> ->].
    apply process_type_Ret in Hp as (_ & _ & _ & _ & _ & Hu & _).
    intros u. destruct (IH _ _ Hm u) as [E|?]; [|right; by right].
    rewrite E. destruct (Hu u) as [?| ->]; [by left|right; left].
Qed.

(** A property of type objects that processing a type establishes holds
    of every type the run returns. *)
Lemma mmap_process_type_Forall (P : data → Prop) l st vs st' :
  (∀ type st v st',
      process_type' type st = (Ret v, st') → P (load (st_heap st') v)) →
  mmap process_type' l st = (Ret vs, st') →
  Forall (λ v, P (load (st_heap st') v)) vs.
Proof.
  intros HP. revert st vs. induction l as [|t l IH]; intros st vs; simpl.
  - intros [-> ->]%mret_Ret. constructor.
  - intros H.
    apply mbind_Ret in H as (v & st1 & Hp & H).
    apply mbind_Ret in H as (rest & st2 & Hm & H).
    apply mret_Ret in H as [-> ->].
    pose proof (IH _ _ Hm) as HF. constructor; [|done].
    destruct (mmap_process_type_load _ _ _ _ Hm v) as [E|Hin].
    + rewrite E. by eapply HP.
    + by eapply Forall_forall in HF.
Qed.


(** A fulfilled promise: [types] was an array, every type was processed,
    and [resolve] delivered the results. *)
Lemma squish_Fulfilled types h n st configured :
  squish merge slugify uuid_v4 plugins types h n = Some st →
  st_promise st = Fulfilled configured →
  ∃ l,
    array_elements types = Some l ∧
    mmap process_type' l (State h Pending n)
    = (Ret configured, State (st_heap st) Pending (st_uuid st)).
Proof.
  unfold squish, executor, mbind.
  destruct (is_array types) eqn:Harr; simpl.
  - pose proof (keeps_promise_types_map types (State h Pending n)) as K.
    unfold promise_quiet in K. simpl in K.
    destruct (types_map types process_type' (State h Pending n))
      as [[c|e|] st1] eqn:E; simpl in *; [| |done].
    + intros [= <-] Hf. destruct K as [K|[_ [e K]]].
      * rewrite settle_pending in Hf by done. injection Hf as ->.
        rewrite settle_heap, settle_uuid.
        assert (st1 = State (st_heap st1) Pending (st_uuid st1)) as <-
          by (destruct st1; simpl in *; by subst).
        unfold types_map in E.
        destruct types as [l|[r|[]]]; try done; eexists; (split; [done|]);
          by rewrite E.
      * rewrite settle_settled in Hf by (by rewrite K). by rewrite K in Hf.
    + intros [= <-] Hf. destruct K as [K|[_ [e' K]]].
      * rewrite settle_pending in Hf by done. done.
      * rewrite settle_settled in Hf by (by rewrite K). by rewrite K in Hf.
  - destruct types as [l|[r|[]]]; try done; simpl; by intros [= <-].
Qed.

End Types.

(** ** The identifier attribute is required to save *)

Section IdentifierSave.
Context (merge : data → data → outcome data) (slugify : data → string)
  (uuid_v4 : nat → string) (plugins : gmap string ref).

Lemma process_type_identifier_is_save type st v st' :
  process_type merge slugify uuid_v4 plugins type st = (Ret v, st') →
  identifier_is_save (load (st_heap st') v).
Proof.
  intros (l & attrs & Hl & HF & Hset & _)%process_type_Ret.
  intros attrs' a id identifier Hattrs Ha Hid Hident Heq.
  erewrite get_set_eq in Hattrs by done. injection Hattrs as <-.
  erewrite get_set_ne in Hident by done.
  apply list_elem_of_lookup in Ha as [i Ha].
  destruct (Forall2_lookup_r _ _ _ _ _ HF Ha)
    as (attribute & _ & ids & st0 & ids' & st0' & Hh & Hres).
  apply resolve_attribute_required in Hres
    as (id' & identifier' & required & ty & tys & _ & Hident' & _ & _ & _
        & Hid' & Hreq).
  rewrite Hh in Hident'.
  assert (id' = id) as -> by congruence.
  assert (identifier' = identifier) as -> by congruence.
  by rewrite Heq in Hreq.
Qed.

(** C4: in every content type a fulfilled run returns, the resolved
    attribute whose id is the type's identifier has required level
    [save], whatever [required] the configuration declared for it. *)
Theorem identifier_attribute_required_save types h n st configured v :
  squish merge slugify uuid_v4 plugins types h n = Some st →
  st_promise st = Fulfilled configured →
  v ∈ configured →
  identifier_is_save (load (st_heap st) v).
Proof.
  intros Hs Hf Hv.
  destruct (squish_Fulfilled _ _ _ _ _ _ _ _ _ Hs Hf) as (l & _ & Hm).
  eapply (mmap_process_type_Forall _ _ _ _ identifier_is_save) in Hm.
  - by eapply Forall_forall in Hm.
  - apply process_type_identifier_is_save.
Qed.

(** C8, as the code has it: an attribute that declares [required: false]
    keeps the required level of its plugin template (the declared
    [false] is not applied), unless it is the identifier attribute,
    which is required to save. *)
Theorem required_false_keeps_template type ids attribute st plugin ids' st'
    id identifier :
  resolve_attribute merge slugify uuid_v4 plugins type ids attribute st
  = (Ret (plugin, ids'), st') →
  get attribute "required" = Ret (VBool false) →
  get attribute "id" = Ret id →
  get (load (st_heap st) type) "identifier" = Ret identifier →
  ∃ ty tys r template,
    get attribute "type" = Ret ty ∧ to_string ty = Ret tys ∧
    plugins !! ("input-plugin-" +:+ tys) = Some r ∧
    st_heap st !! r = Some template ∧
    get plugin "required"
    = if strict_eq id identifier then Ret (VStr "save")
      else get (VObj template) "required".
Proof.
  intros Hres Hreq Hid Hident.
  pose proof Hres as Hres'.
  apply resolve_attribute_required in Hres
    as (id' & identifier' & required & ty & tys & Hid' & Hident' & Hreq' & Hty
        & Htys & _ & Hr).
  assert (id' = id) as -> by congruence.
  assert (identifier' = identifier) as -> by congruence.
  assert (required = VBool false) as -> by congruence.
  simpl in Hr.
  apply resolve_attribute_Ret in Hres'
    as (st1 & p0 & p1 & _ & _ & _ & _ & _ & Ht & Hc & _ & _ & _ & _ & _ & Hh1 & _).
  apply template_Ret in Ht as (ty' & tys' & Hty' & Htys' & Hp0 & _).
  assert (ty' = ty) as -> by congruence.
  assert (tys' = tys) as -> by congruence.
  rewrite Hh1 in Hp0.
  destruct (plugins !! _) as [r|] eqn:Hp; simpl in *;
    [|subst p0; by apply configure_undefined in Hc].
  destruct (st_heap st !! r) as [template|] eqn:Hr';
    [|subst p0; by apply configure_undefined in Hc].
  by exists ty, tys, r, template.
Qed.

End IdentifierSave.

Lemma identifier_attribute_required_save_witness :
  ∃ st,
    sample_squish (Arr [Ref 0%nat]) (sample_heap post) = Some st ∧
    st_promise st = Fulfilled [Ref 0%nat] ∧
    Ref 0%nat ∈ [Ref 0%nat] ∧
    identifier_is_save (load (st_heap st) (Ref 0%nat)).
Proof.
  eexists. split; [vm_compute; reflexivity|].
  split; [reflexivity|]. split; [left|].
  eapply (identifier_attribute_required_save
            deepmerge kebabCase uuid_seq sample_plugins (Arr [Ref 0%nat])
            (sample_heap post) 0 _ [Ref 0%nat] (Ref 0%nat)).
  - vm_compute; reflexivity.
  - reflexivity.
  - left.
Defined.

Lemma required_false_keeps_template_witness :
  ∃ plugin ids' st',
    resolve_attribute deepmerge kebabCase uuid_seq sample_plugins (Ref 0%nat)
      [VStr "slug"]
      (VObj [("id", VStr "contact"); ("type", VStr "email");
             ("name", VStr "Contact"); ("required", VBool false)])
      (State (sample_heap post) Pending 1)
    = (Ret (plugin, ids'), st') ∧
    get plugin "required" = Ret (VStr "publish").
Proof.
  eexists _, _, _. split; [vm_compute; reflexivity|].
  destruct (required_false_keeps_template
              deepmerge kebabCase uuid_seq sample_plugins (Ref 0%nat)
              [VStr "slug"]
              (VObj [("id", VStr "contact"); ("type", VStr "email");
                     ("name", VStr "Contact"); ("required", VBool false)])
              (State (sample_heap post) Pending 1) _ _ _
              (VStr "contact") (VStr "slug")
              ltac:(vm_compute; reflexivity) eq_refl eq_refl eq_refl)
    as (ty & tys & r & template & Hty & Htys & Hr & Ht & Hreq).
  injection Hty as <-. injection Htys as <-.
  vm_compute in Hr. injection Hr as <-.
  vm_compute in Ht. injection Ht as <-.
  exact Hreq.
Defined.

(** The claim of C8 fails on the sample: [contact] declares
    [required: false], its template declares ['publish'], and the resolved
    attribute is required to publish, not [none]. *)
Lemma required_false_is_not_none :
  ∃ st attrs attribute a,
    sample_squish (Arr [Ref 0%nat]) (sample_heap post) = Some st ∧
    st_promise st = Fulfilled [Ref 0%nat] ∧
    get (VObj post) "attributes" = Ret (VArr attrs) ∧
    attrs !! 1%nat = Some attribute ∧
    get attribute "required" = Ret (VBool false) ∧
    (∃ resolved,
        get (load (st_heap st) (Ref 0%nat)) "attributes" = Ret (VArr resolved) ∧
        resolved !! 1%nat = Some a) ∧
    get a "id" = Ret (VStr "contact") ∧
    get a "required" = Ret (VStr "publish") ∧
    get a "required" ≠ Ret (level_value none).
Proof.
  eexists _, _, _, _. split; [vm_compute; reflexivity|].
  split; [reflexivity|]. split; [reflexivity|]. split; [reflexivity|].
  split; [reflexivity|]. split; [eexists; split; reflexivity|].
  split; [reflexivity|]. split; [reflexivity|]. discriminate.
Qed.

(** ** What a run writes *)

Lemma upsert_upsert k v1 v2 ps : upsert k v2 (upsert k v1 ps) = upsert k v2 ps.
Proof.
  induction ps as [|[k' v'] ps IH]; simpl.
  - by rewrite String.eqb_refl.
  - destruct (String.eqb_spec k k') as [->|Hne]; simpl.
    + by rewrite String.eqb_refl.
    + destruct (String.eqb_spec k k'); [done|]. by rewrite IH.
Qed.

Lemma writes_only_attributes_refl rs h : writes_only_attributes rs h h.
Proof. intros r. by left. Qed.

Lemma writes_only_attributes_trans rs h1 h2 h3 :
  writes_only_attributes rs h1 h2 → writes_only_attributes rs h2 h3 →
  writes_only_attributes rs h1 h3.
Proof.
  intros H12 H23 r.
  destruct (H23 r) as [E|(Hr & ps & x & E2 & E3)].
  - rewrite E. apply H12.
  - destruct (H12 r) as [E|(_ & ps' & x' & E1 & E2')].
    + right. split; [done|]. exists ps, x. by rewrite <- E.
    + right. split; [done|]. exists ps', x. split; [done|].
      rewrite E3. f_equal. rewrite E2' in E2. injection E2 as <-.
      apply upsert_upsert.
Qed.


Global Instance frame_preorder rs : PreOrder (frame rs).
Proof.
  split.
  - intros st. apply writes_only_attributes_refl.
  - intros x y z. apply writes_only_attributes_trans.
Qed.




Section Frame.
Context (merge : data → data → outcome data) (slugify : data → string)
  (uuid_v4 : nat → string) (plugins : gmap string ref).





End Frame.



(** ** A failed check does not stop the run *)

(** C1 does not hold of the code: on the sample type [draft], whose first
    attribute has no name, the promise is rejected with that error, yet
    both attributes are resolved (two identifiers are drawn) and the
    caller's content-type object ends up holding the resolved
    attributes. *)
Lemma squish_continues_after_rejection :
  ∃ st first second,
    sample_squish (Arr [Ref 0%nat]) (sample_heap draft) = Some st ∧
    st_promise st = Rejected (MissingAttributeName "slug" "Draft") ∧
    get (load (st_heap st) (Ref 0%nat)) "attributes"
    = Ret (VArr [first; second]) ∧
    get first "inputs"
    = Ret (VObj [("value",
                  VObj [("type", VStr "string");
                        ("validation", VObj [("maxLength", VNum 10)]);
                        ("label", VStr "Text"); ("id", VStr "id-0");
                        ("name", VStr "slug--value")])]) ∧
    get second "inputs"
    = Ret (VObj [("value",
                  VObj [("type", VStr "string");
                        ("validation", VObj [("maxLength", VNum 10)]);
                        ("label", VStr "Body"); ("id", VStr "id-1");
                        ("name", VStr "body--value")])]) ∧
    st_uuid st = 2%nat.
Proof.
  eexists _, _, _. split; [vm_compute; reflexivity|].
  repeat split; reflexivity.
Qed.

(** ** The checks on the identifier attribute *)

Lemma find_contender_Ret type attrs st identifier :
  Forall is_object attrs →
  get (load (st_heap st) type) "identifier" = Ret identifier →
  find_contender type attrs st
  = (Ret (default VUndef (contender_of identifier attrs)), st).
Proof.
  intros Hobj Hident. induction Hobj as [|a attrs [ps ->] _ IH]; simpl; [done|].
  unfold mbind, lift, prop. simpl. rewrite Hident.
  destruct (strict_eq _ identifier); [done|]. apply IH.
Qed.

Lemma contender_of_object identifier attrs c :
  Forall is_object attrs → contender_of identifier attrs = Some c → is_object c.
Proof.
  intros Hobj Hc. apply find_some in Hc as [Hin _].
  apply list_elem_of_In in Hin. by eapply Forall_forall in Hobj.
Qed.

(** Stepping through a run whose reads are known. *)
Lemma mbind_assoc {A B C} (m : M A) (f : A → M B) (k : B → M C) st :
  mbind (mbind m f) k st = mbind m (λ a, mbind (f a) k) st.
Proof. unfold mbind. by destruct (m st) as [[a|e|] st1]. Qed.

Lemma mbind_lift_Ret {A B} (a : A) (k : A → M B) st :
  mbind (lift (Ret a)) k st = k a st.
Proof. done. Qed.

Lemma mbind_mret {A B} (a : A) (k : A → M B) st : mbind (mret a) k st = k a st.
Proof. done. Qed.

Lemma mbind_reject {B} e (k : unit → M B) st :
  mbind (reject e) k st = k tt (settle (Rejected e) st).
Proof. done. Qed.

Lemma mbind_prop {B} v key x (k : data → M B) st :
  get (load (st_heap st) v) key = Ret x → mbind (prop v key) k st = k x st.
Proof. unfold mbind, prop. by intros ->. Qed.

Lemma mbind_run {A B} (m : M A) (k : A → M B) st a st1 :
  m st = (Ret a, st1) → mbind m k st = k a st1.
Proof. unfold mbind. by intros ->. Qed.

Lemma rejected_stays {A} (m : M A) st e :
  keeps quiet m → st_promise st = Rejected e → st_promise (m st).2 = Rejected e.
Proof.
  intros K He. destruct (K st) as (_ & Hp & _). rewrite He in Hp.
  by apply only_rejects_settled in Hp.
Qed.

Ltac run :=
  repeat first
    [ rewrite mbind_assoc
    | rewrite mbind_lift_Ret
    | rewrite mbind_mret
    | rewrite mbind_reject
    | erewrite mbind_prop by (rewrite ?settle_heap; eassumption) ];
  cbv beta.

Section Identifier.
Context (type : val) (attrs : list data) (st : state).
Context (identifier name : data) (si sn : string).
Context (Hpending : st_promise st = Pending).
Context (Hidentifier : get (load (st_heap st) type) "identifier" = Ret identifier).
Context (Hname : get (load (st_heap st) type) "name" = Ret name).
Context (Hsi : to_string identifier = Ret si).
Context (Hsn : to_string name = Ret sn).
Context (Hobjects : Forall is_object attrs).


Context (c inputs : data) (ks : list string).
Context (Hc : contender_of identifier attrs = Some c).
Context (Hinputs : get c "inputs" = Ret inputs).
Context (Hks : own_keys inputs = Ret ks).



Context (input : string) (first : data).
Context (Hsingle : ks = [input]).
Context (Hnorep : hasOwnProperty c "repeatable" = Ret false).
Context (Hfirst : get inputs input = Ret first).



End Identifier.



(** ** Repeatable attributes *)

Lemma omapM_Ret {A B} (f : A → outcome B) l r :
  omapM f l = Ret r → Forall2 (λ a b, f a = Ret b) l r.
Proof.
  revert r. induction l as [|a l IH]; intros r; simpl.
  - intros [= <-]. constructor.
  - intros H.
    apply obind_Ret in H as (b & Hb & H).
    apply obind_Ret in H as (bs & Hbs & H).
    injection H as <-. constructor; auto.
Qed.

Lemma suffix_input_Ret i inputs input inputs' ks :
  suffix_input i inputs input = Ret inputs' →
  own_keys inputs = Ret ks → input ∈ ks →
  own_keys inputs' = Ret ks ∧
  (∀ k, k ≠ input → get inputs' k = get inputs k) ∧
  ∃ b c, get inputs input = Ret b ∧ get inputs' input = Ret c ∧ suffixed i b c.
Proof.
  unfold suffix_input. intros H Hks Hin.
  apply obind_Ret in H as (inputs1 & H1 & H2).
  apply set_in_Ret in H1 as (b & b1 & Hb & Hf1 & Hs1).
  apply set_in_Ret in H2 as (b1' & c & Hb1 & Hf2 & Hs2).
  erewrite get_set_eq in Hb1 by done. injection Hb1 as <-.
  apply obind_Ret in Hf1 as (id & Hid & Hf1).
  apply obind_Ret in Hf1 as (sid & Hsid & Hf1).
  apply obind_Ret in Hf2 as (name & Hname & Hf2).
  apply obind_Ret in Hf2 as (sname & Hsname & Hf2).
  erewrite get_set_ne in Hname by done.
  split; [|split].
  - eapply own_keys_set; [done| |done]. by eapply own_keys_set.
  - intros k Hk. erewrite get_set_ne by done. by erewrite get_set_ne.
  - exists b, c. split; [done|]. split; [by eapply get_set_eq|].
    exists id, name, sid, sname, b1. repeat split; try done.
    + erewrite get_set_ne by done. by eapply get_set_eq.
    + by eapply get_set_eq.
    + intros k ??. erewrite get_set_ne by done. by erewrite get_set_ne.
Qed.

Lemma suffix_inputs_Ret i l : ∀ inputs inst ks,
  NoDup l → (∀ input, input ∈ l → input ∈ ks) →
  own_keys inputs = Ret ks →
  ofold (suffix_input i) inputs l = Ret inst →
  own_keys inst = Ret ks ∧
  (∀ k, k ∉ l → get inst k = get inputs k) ∧
  (∀ input, input ∈ l →
     ∃ b c, get inputs input = Ret b ∧ get inst input = Ret c ∧ suffixed i b c).
Proof.
  induction l as [|a l IH]; intros inputs inst ks Hnd Hsub Hks; simpl.
  - intros [= <-]. split; [done|]. split; [done|]. by intros ? ?%elem_of_nil.
  - intros H. apply obind_Ret in H as (inputs1 & H1 & H2).
    apply NoDup_cons in Hnd as [Ha Hnd].
    eapply suffix_input_Ret in H1 as (Hks1 & Hother & b & c & Hb & Hc & Hbc);
      [|done|apply Hsub; left].
    eapply IH in H2 as (Hks' & Hout & Hin); [|done| |done].
    2:{ intros ??. apply Hsub. by right. }
    split; [done|]. split.
    + intros k [Hk1 Hk2]%not_elem_of_cons. rewrite Hout by done. by apply Hother.
    + intros input [->|Hin']%elem_of_cons.
      * exists b, c. split; [done|]. split; [|done]. by rewrite Hout.
      * destruct (Hin _ Hin') as (b' & c' & Hb' & Hc' & Hbc').
        exists b', c'. split; [|done]. rewrite <- Hother; [done|].
        intros ->. done.
Qed.

Lemma instance_Ret base i inst : instance base i = Ret inst → copy_of i base inst.
Proof.
  unfold instance. rewrite cloneDeep_eq. intros H.
  apply obind_Ret in H as (ks & Hks & H).
  eapply suffix_inputs_Ret in H as (Hks' & _ & Hin);
    [|by eapply own_keys_NoDup|done|done].
  by exists ks.
Qed.

Lemma unify_repeatable_Ret repeatable plugin plugin' min max :
  unify_repeatable repeatable plugin = Ret plugin' →
  normalized_repeatable repeatable = Some (min, max) →
  set plugin "repeatable" (VObj [("min", min); ("max", max)]) = Ret plugin'.
Proof.
  unfold unify_repeatable, normalized_repeatable.
  destruct repeatable as [| |[]| | | |spec]; try done; simpl.
  - by intros ? [= <- <-].
  - intros H [= <- <-].
    apply obind_Ret in H as (hmin & Hmin & H).
    apply obind_Ret in H as (min & Hmin' & H).
    apply obind_Ret in H as (hmax & Hmax & H).
    apply obind_Ret in H as (max & Hmax' & H).
    destruct (lookup_prop "hasOwnProperty" spec); [done|].
    injection Hmin as <-. injection Hmax as <-.
    destruct (lookup_prop "min" spec) as [vmin|] eqn:Emin;
      [rewrite bool_decide_true in Hmin' by eauto
      |rewrite bool_decide_false in Hmin' by (by intros [? ?])];
      simpl in Hmin'; injection Hmin' as <-;
      (destruct (lookup_prop "max" spec) as [vmax|] eqn:Emax;
       [rewrite bool_decide_true in Hmax' by eauto
       |rewrite bool_decide_false in Hmax' by (by intros [? ?])];
       simpl in Hmax'; injection Hmax' as <-); done.
Qed.

Lemma normalized_repeatable_truthy repeatable p :
  normalized_repeatable repeatable = Some p → truthy repeatable = true.
Proof. by destruct repeatable as [| |[]| | | |]. Qed.

(** The expansion of an attribute with a specification. *)
Lemma expand_repeatable_Ret attribute resolved plugin repeatable min max :
  expand_repeatable attribute resolved = Ret plugin →
  get attribute "repeatable" = Ret repeatable →
  normalized_repeatable repeatable = Some (min, max) →
  ∃ base n instances,
    get resolved "inputs" = Ret base ∧
    loop_bound min = Ret n ∧
    Forall2 (λ i inst, instance base i = Ret inst) (seq 0 n) instances ∧
    get plugin "inputs" = Ret (VArr instances) ∧
    get plugin "repeatable" = Ret (VObj [("min", min); ("max", max)]).
Proof.
  unfold expand_repeatable. intros H Hrep Hnorm. rewrite Hrep in H. simpl in H.
  rewrite (normalized_repeatable_truthy _ _ Hnorm) in H.
  apply obind_Ret in H as (p5 & Hu & H).
  eapply unify_repeatable_Ret in Hu; [|done].
  apply obind_Ret in H as (r & Hr & H).
  erewrite get_set_eq in Hr by done. injection Hr as <-.
  apply obind_Ret in H as (min' & Hmin & H).
  simpl in Hmin. injection Hmin as <-.
  apply obind_Ret in H as (n & Hn & H).
  apply obind_Ret in H as (base & Hbase & H).
  apply obind_Ret in H as (instances & Hinst & H).
  erewrite get_set_ne in Hbase by done.
  exists base, n, instances. split; [done|]. split; [done|].
  split; [by apply omapM_Ret|]. split; [by eapply get_set_eq|].
  erewrite get_set_ne by done. by eapply get_set_eq.
Qed.

Section Repeatable.
Context (merge : data → data → outcome data) (slugify : data → string)
  (uuid_v4 : nat → string) (plugins : gmap string ref).


(** C10: for an attribute whose repeatable specification is an object
    declaring [min: 0], the resolved attribute's [inputs] is the empty
    sequence. *)
Theorem repeatable_min_zero type ids attribute st plugin ids' st' spec :
  resolve_attribute merge slugify uuid_v4 plugins type ids attribute st
  = (Ret (plugin, ids'), st') →
  get attribute "repeatable" = Ret (VObj spec) →
  lookup_prop "min" spec = Some (VNum 0) →
  get plugin "inputs" = Ret (VArr []).
Proof.
  intros Hres Hrep Hmin.
  apply resolve_attribute_Ret in Hres
    as (st1 & p0 & p1 & p2 & p3 & p4 & st2 & _ & _ & _ & _ & _ & _ & He & _).
  eapply (expand_repeatable_Ret _ _ _ _ (VNum 0)) in He
    as (base & n & instances & Hbase & Hn & HF & Hinputs & Hr); [|done|].
  - simpl in Hn. injection Hn as <-. simpl in HF.
    apply Forall2_nil_inv_l in HF as ->. done.
  - simpl. by rewrite Hmin.
Qed.

End Repeatable.


Lemma repeatable_min_zero_witness :
  sample_resolve notes
  = (Ret (notes_resolved, [VStr "notes"]), State (sample_heap post) Pending 1) ∧
  get notes_resolved "inputs" = Ret (VArr []).
Proof.
  assert (sample_resolve notes
          = (Ret (notes_resolved, [VStr "notes"]),
             State (sample_heap post) Pending 1)) as Hrun
    by (vm_compute; reflexivity).
  split; [exact Hrun|].
  exact (repeatable_min_zero deepmerge kebabCase uuid_seq sample_plugins
           (Ref 0%nat) [] notes (State (sample_heap post) Pending 0)
           notes_resolved [VStr "notes"] (State (sample_heap post) Pending 1)
           [("min", VNum 0)] Hrun eq_refl eq_refl).
Defined.

(** ** The per-input override merge *)

Lemma has_set_eq o k x o' k0 b :
  set o k x = Ret o' → hasOwnProperty o' k0 = Ret b →
  hasOwnProperty o' k = Ret true.
Proof.
  destruct o; simpl; try done.
  - destruct (index_of_key k (length l)) as [i|] eqn:Hi; [|done].
    intros [= <-] _. simpl. unfold indexed_has. by rewrite length_insert, Hi.
  - intros [= <-]. simpl.
    destruct (lookup_prop "hasOwnProperty" (upsert k x ps)); [done|].
    intros _. by rewrite lookup_upsert_eq, bool_decide_true.
Qed.

Section Merge.
Context (merge : data → data → outcome data).

Lemma merge_input_Ret overrides plugin attr plugin' defaults ks :
  merge_input merge overrides plugin attr = Ret plugin' →
  get plugin "inputs" = Ret defaults → own_keys defaults = Ret ks →
  attr ∈ ks →
  ∃ default override merged resolved resolved_inputs,
    get defaults attr = Ret default ∧
    get overrides attr = Ret override ∧
    merge default override = Ret merged ∧
    get plugin' "inputs" = Ret resolved_inputs ∧
    own_keys resolved_inputs = Ret ks ∧
    (∀ k, k ≠ attr → get resolved_inputs k = get defaults k) ∧
    get resolved_inputs attr = Ret resolved ∧
    precedence default override merged resolved.
Proof.
  unfold merge_input. intros H Hd Hks Hin.
  rewrite Hd in H. simpl in H. rewrite Hks in H. simpl in H.
  rewrite bool_decide_true in H by done.
  apply obind_Ret in H as (default & Hdef & H).
  apply obind_Ret in H as (override & Hov & H).
  apply obind_Ret in H as (merged & Hm & H).
  apply obind_Ret in H as (validation & Hv & H).
  apply obind_Ret in H as (m1 & H1 & H).
  apply obind_Ret in H as (ty & Hty & H).
  apply obind_Ret in H as (m2 & H2 & H).
  apply obind_Ret in H as (hs & Hhs & H).
  apply obind_Ret in H as (m3 & H3 & H).
  apply obind_Ret in H as (ho & Hho & H).
  apply obind_Ret in H as (m4 & H4 & H).
  apply obind_Ret in H as (hr & Hhr & H).
  apply obind_Ret in H as (m5 & H5 & H).
  apply obind_Ret in H as (inputs2 & Hi2 & H).
  assert (∃ required, set m4 "required" required = Ret m5) as [required H5'].
  { destruct hr; simpl in H5;
      apply obind_Ret in H5 as (r & _ & H5); eauto. }
  clear H5.
  assert (∃ script, m3 = m2 ∧ hs = false ∨
                    hs = true ∧ get default "script" = Ret script ∧
                    set m2 "script" script = Ret m3) as [script H3'].
  { destruct hs.
    - apply obind_Ret in H3 as (s & Hs & H3). exists s. right. done.
    - injection H3 as <-. exists VUndef. by left. }
  assert (∃ options, m4 = m3 ∧ ho = false ∨
                     ho = true ∧ get override "options" = Ret options ∧
                     set m3 "options" options = Ret m4) as [options H4'].
  { destruct ho.
    - apply obind_Ret in H4 as (o & Ho & H4). exists o. right. done.
    - injection H4 as <-. exists VUndef. by left. }
  assert (∀ k, k ≠ "options" → get m4 k = get m3 k) as G43.
  { intros k Hk. destruct H4' as [[-> _]|(_ & _ & Hs)]; [done|].
    by eapply get_set_ne. }
  assert (∀ k, k ≠ "script" → get m3 k = get m2 k) as G32.
  { intros k Hk. destruct H3' as [[-> _]|(_ & _ & Hs)]; [done|].
    by eapply get_set_ne. }
  assert (∀ k, k ≠ "options" → hasOwnProperty m4 k = hasOwnProperty m3 k) as P43.
  { intros k Hk. destruct H4' as [[-> _]|(_ & _ & Hs)]; [done|].
    by eapply has_set_ne. }
  exists default, override, merged, m5, inputs2.
  split; [done|]. split; [done|]. split; [done|].
  split; [by eapply get_set_eq|].
  split; [by eapply own_keys_set|].
  split; [intros k Hk; by eapply get_set_ne|].
  split; [by eapply get_set_eq|].
  unfold precedence. split; [|split; [|split; [|split]]].
  - erewrite (get_set_ne m4) by done. rewrite G43, G32 by done.
    erewrite (get_set_ne m1) by done. rewrite Hv. by eapply get_set_eq.
  - erewrite (get_set_ne m4) by done. rewrite G43, G32 by done.
    rewrite Hty. by eapply get_set_eq.
  - intros Hs. rewrite Hhs in Hs. injection Hs as ->.
    destruct H3' as [[_ [=]]|(_ & Hscript & Hset)].
    erewrite (has_set_ne m4) by done. rewrite P43 by done.
    erewrite (get_set_ne m4) by done. rewrite G43 by done.
    split.
    + rewrite P43 in Hhr by done. by eapply has_set_eq.
    + rewrite Hscript. by eapply get_set_eq.
  - intros Hs. rewrite Hhs in Hs. injection Hs as ->.
    destruct H3' as [[-> _]|([=] & _)].
    erewrite (has_set_ne m4) by done. rewrite P43 by done.
    erewrite (has_set_ne m1) by done. erewrite (has_set_ne merged) by done.
    erewrite (get_set_ne m4) by done. rewrite G43 by done.
    erewrite (get_set_ne m1) by done. by erewrite (get_set_ne merged).
  - intros Ho. rewrite Hho in Ho. injection Ho as ->.
    destruct H4' as [[_ [=]]|(_ & Hoptions & Hset)].
    erewrite (get_set_ne m4) by done. rewrite Hoptions.
    by eapply get_set_eq.
Qed.

Lemma merge_input_skip overrides plugin attr plugin' defaults ks :
  merge_input merge overrides plugin attr = Ret plugin' →
  get plugin "inputs" = Ret defaults → own_keys defaults = Ret ks →
  attr ∉ ks → plugin' = plugin.
Proof.
  unfold merge_input. intros H Hd Hks Hin.
  rewrite Hd in H. simpl in H. rewrite Hks in H. simpl in H.
  rewrite bool_decide_false in H by done. by injection H.
Qed.

Lemma merge_inputs_fold overrides l : ∀ plugin plugin' defaults ks,
  NoDup l →
  ofold (merge_input merge overrides) plugin l = Ret plugin' →
  get plugin "inputs" = Ret defaults → own_keys defaults = Ret ks →
  ∃ resolved_inputs,
    get plugin' "inputs" = Ret resolved_inputs ∧
    own_keys resolved_inputs = Ret ks ∧
    (∀ k, k ∉ l → get resolved_inputs k = get defaults k) ∧
    (∀ attr, attr ∈ l → attr ∈ ks →
       ∃ default override merged resolved,
         get defaults attr = Ret default ∧
         get overrides attr = Ret override ∧
         merge default override = Ret merged ∧
         get resolved_inputs attr = Ret resolved ∧
         precedence default override merged resolved).
Proof.
  induction l as [|a l IH]; intros plugin plugin' defaults ks Hnd; simpl.
  - intros [= <-] Hd Hks. exists defaults. split; [done|]. split; [done|].
    split; [done|]. by intros ? ?%elem_of_nil.
  - intros H Hd Hks. apply obind_Ret in H as (plugin1 & H1 & H).
    apply NoDup_cons in Hnd as [Ha Hnd].
    destruct (decide (a ∈ ks)) as [Hin|Hnin].
    + eapply merge_input_Ret in H1
        as (default & override & merged & resolved & inputs1 & Hdef & Hov & Hm
            & Hi1 & Hk1 & Hother & Hres & Hprec); [|done..].
      eapply IH in H as (inputs' & Hi' & Hk' & Hout & Hl); [|done..].
      exists inputs'. split; [done|]. split; [done|]. split.
      * intros k [??]%not_elem_of_cons. rewrite Hout by done. by apply Hother.
      * intros attr [->|Hattr]%elem_of_cons Hks'.
        -- exists default, override, merged, resolved.
           split; [done|]. split; [done|]. split; [done|].
           split; [by rewrite Hout|done].
        -- destruct (Hl _ Hattr Hks') as (d & o & m & r & Hd' & ?).
           exists d, o, m, r. split; [|done].
           rewrite <- Hother; [done|]. by intros ->.
    + eapply merge_input_skip in H1 as ->; [|done..].
      eapply IH in H as (inputs' & Hi' & Hk' & Hout & Hl); [|done..].
      exists inputs'. split; [done|]. split; [done|]. split.
      * intros k [??]%not_elem_of_cons. by apply Hout.
      * intros attr [->|Hattr]%elem_of_cons Hks'; [done|]. by apply Hl.
Qed.

(** The merge of the overrides of an attribute, for one input key that
    the attribute overrides and the plugin has. *)
Lemma merge_inputs_precedence attribute plugin plugin' overrides defaults
    ko kd attr :
  merge_inputs merge attribute plugin = Ret plugin' →
  get attribute "inputs" = Ret overrides → truthy overrides = true →
  own_keys overrides = Ret ko → attr ∈ ko →
  get plugin "inputs" = Ret defaults →
  own_keys defaults = Ret kd → attr ∈ kd →
  ∃ default override merged resolved_inputs resolved,
    get defaults attr = Ret default ∧
    get overrides attr = Ret override ∧
    merge default override = Ret merged ∧
    get plugin' "inputs" = Ret resolved_inputs ∧
    own_keys resolved_inputs = Ret kd ∧
    get resolved_inputs attr = Ret resolved ∧
    precedence default override merged resolved.
Proof.
  unfold merge_inputs. intros H Hov Ht Hko Hattr Hd Hkd Hattr'.
  rewrite Hov in H. simpl in H. rewrite Ht, Hko in H. simpl in H.
  eapply merge_inputs_fold in H as (inputs' & Hi' & Hk' & _ & Hl);
    [|by eapply own_keys_NoDup|done..].
  destruct (Hl _ Hattr Hattr') as (d & o & m & r & ? & ? & ? & ? & ?).
  by exists d, o, m, inputs', r.
Qed.

End Merge.

(** ** From the template to the resolved input *)

Lemma own_keys_get v ks k : own_keys v = Ret ks → ∃ b, get v k = Ret b.
Proof. destruct v; simpl; intros [=]; eauto. Qed.

Lemma default_label_inputs plugin plugin' inputs ks :
  default_label plugin = Ret plugin' →
  get plugin "inputs" = Ret inputs → own_keys inputs = Ret ks →
  ∃ inputs',
    get plugin' "inputs" = Ret inputs' ∧ own_keys inputs' = Ret ks ∧
    ∀ input, input ∈ ks →
      ∃ b c, get inputs input = Ret b ∧ get inputs' input = Ret c ∧ labelled b c.
Proof.
  unfold default_label. intros H Hi Hks. rewrite Hi in H. simpl in H.
  rewrite Hks in H. simpl in H.
  case_bool_decide as Hlen.
  - destruct ks as [|input0 [|??]]; try done. simpl in H.
    apply obind_Ret in H as (name & Hname & H).
    apply set_in_Ret in H as (inputs0 & inputs' & Hi0 & H & Hset).
    assert (inputs0 = inputs) as -> by congruence.
    apply set_in_Ret in H as (b & c & Hb & Hc & Hset').
    exists inputs'. split; [by eapply get_set_eq|].
    split; [eapply own_keys_set; [done..|left]|].
    intros input ->%list_elem_of_singleton.
    exists b, c. split; [done|]. split; [by eapply get_set_eq|].
    right. by exists name.
  - injection H as <-. exists inputs. split; [done|]. split; [done|].
    intros input _. destruct (own_keys_get _ _ input Hks) as [b Hb].
    exists b, b. split; [done|]. split; [done|]. by left.
Qed.

Section Resolved.
Context (merge : data → data → outcome data) (slugify : data → string)
  (uuid_v4 : nat → string) (plugins : gmap string ref).

Lemma assign_id_inputs plugin input st plugin' st' inputs ks :
  assign_id uuid_v4 plugin input st = (Ret plugin', st') →
  get plugin "inputs" = Ret inputs → own_keys inputs = Ret ks → input ∈ ks →
  ∃ inputs',
    get plugin' "inputs" = Ret inputs' ∧ own_keys inputs' = Ret ks ∧
    (∀ k, k ≠ input → get inputs' k = get inputs k) ∧
    ∃ b c, get inputs input = Ret b ∧ get inputs' input = Ret c ∧ identified b c.
Proof.
  unfold assign_id. intros H Hi Hks Hin.
  apply mbind_Ret in H as (u & st1 & _ & H).
  apply mbind_Ret in H as (p1 & ? & [H1 ->]%lift_Ret & H).
  apply mbind_Ret in H as (id & ? & [_ ->]%lift_Ret & H).
  apply mbind_Ret in H as (sid & ? & [_ ->]%lift_Ret & H).
  apply lift_Ret in H as [H2 _].
  apply set_in_Ret in H1 as (inputs0 & inputs1 & Hi0 & H1 & Hset1).
  assert (inputs0 = inputs) as -> by congruence.
  apply set_in_Ret in H1 as (b & b' & Hb & Hb' & Hset1').
  apply set_in_Ret in H2 as (inputs1' & inputs2 & Hi1 & H2 & Hset2).
  erewrite get_set_eq in Hi1 by done. injection Hi1 as <-.
  apply set_in_Ret in H2 as (b1 & c & Hb1 & Hc & Hset2').
  erewrite get_set_eq in Hb1 by done. injection Hb1 as <-.
  exists inputs2. split; [by eapply get_set_eq|].
  split; [eapply own_keys_set; [done| |done]; by eapply own_keys_set|].
  split.
  - intros k Hk. erewrite get_set_ne by done. by erewrite get_set_ne.
  - exists b, c. split; [done|]. split; [by eapply get_set_eq|].
    by eexists _, _, b'.
Qed.

Lemma assign_ids_fold l : ∀ plugin st plugin' st' inputs ks,
  NoDup l → (∀ input, input ∈ l → input ∈ ks) →
  mfold (assign_id uuid_v4) plugin l st = (Ret plugin', st') →
  get plugin "inputs" = Ret inputs → own_keys inputs = Ret ks →
  ∃ inputs',
    get plugin' "inputs" = Ret inputs' ∧ own_keys inputs' = Ret ks ∧
    (∀ k, k ∉ l → get inputs' k = get inputs k) ∧
    ∀ input, input ∈ l →
      ∃ b c, get inputs input = Ret b ∧ get inputs' input = Ret c ∧ identified b c.
Proof.
  induction l as [|a l IH]; intros plugin st plugin' st' inputs ks Hnd Hsub; simpl.
  - intros [-> _]%mret_Ret Hi Hks. exists inputs. split; [done|].
    split; [done|]. split; [done|]. by intros ? ?%elem_of_nil.
  - intros H Hi Hks. apply mbind_Ret in H as (p1 & st1 & H1 & H).
    apply NoDup_cons in Hnd as [Ha Hnd].
    eapply assign_id_inputs in H1
      as (inputs1 & Hi1 & Hk1 & Hother & b & c & Hb & Hc & Hbc);
      [|done|done|apply Hsub; left].
    eapply IH in H as (inputs' & Hi' & Hk' & Hout & Hl); [|done| |done..].
    2:{ intros ??. apply Hsub. by right. }
    exists inputs'. split; [done|]. split; [done|]. split.
    + intros k [??]%not_elem_of_cons. rewrite Hout by done. by apply Hother.
    + intros input [->|Hin]%elem_of_cons.
      * exists b, c. split; [done|]. split; [by rewrite Hout|done].
      * destruct (Hl _ Hin) as (b' & c' & Hb' & ?).
        exists b', c'. split; [|done]. rewrite <- Hother; [done|]. by intros ->.
Qed.

Lemma assign_ids_inputs plugin st plugin' st' inputs ks :
  assign_ids uuid_v4 plugin st = (Ret plugin', st') →
  get plugin "inputs" = Ret inputs → own_keys inputs = Ret ks →
  ∃ inputs',
    get plugin' "inputs" = Ret inputs' ∧ own_keys inputs' = Ret ks ∧
    ∀ input, input ∈ ks →
      ∃ b c, get inputs input = Ret b ∧ get inputs' input = Ret c ∧ identified b c.
Proof.
  unfold assign_ids. intros H Hi Hks.
  apply mbind_Ret in H as (inputs0 & ? & [Hi0 ->]%lift_Ret & H).
  apply mbind_Ret in H as (ks0 & ? & [Hks0 ->]%lift_Ret & H).
  assert (inputs0 = inputs) as -> by congruence.
  assert (ks0 = ks) as -> by congruence.
  eapply assign_ids_fold in H as (inputs' & ? & ? & _ & ?);
    [|by eapply own_keys_NoDup|done..].
  by exists inputs'.
Qed.

End Resolved.

Lemma labelled_get b c k : labelled b c → k ≠ "label" → get c k = get b k.
Proof. intros [->|[label H]] Hk; [done|]. by eapply get_set_ne. Qed.

Lemma labelled_has b c k :
  labelled b c → k ≠ "label" → hasOwnProperty c k = hasOwnProperty b k.
Proof. intros [->|[label H]] Hk; [done|]. by eapply has_set_ne. Qed.

Lemma identified_get b c k :
  identified b c → k ≠ "id" → k ≠ "name" → get c k = get b k.
Proof.
  intros (id & name & b' & H1 & H2) ??.
  erewrite get_set_ne by done. by eapply get_set_ne.
Qed.

Lemma identified_has b c k :
  identified b c → k ≠ "id" → k ≠ "name" →
  hasOwnProperty c k = hasOwnProperty b k.
Proof.
  intros (id & name & b' & H1 & H2) ??.
  erewrite has_set_ne by done. by eapply has_set_ne.
Qed.

Lemma expand_repeatable_falsy attribute plugin plugin' repeatable :
  expand_repeatable attribute plugin = Ret plugin' →
  get attribute "repeatable" = Ret repeatable → truthy repeatable = false →
  plugin' = plugin.
Proof.
  unfold expand_repeatable. intros H Hr Ht. rewrite Hr in H. simpl in H.
  rewrite Ht in H. by injection H.
Qed.

Section Precedence.
Context (merge : data → data → outcome data) (slugify : data → string)
  (uuid_v4 : nat → string) (plugins : gmap string ref).

(** C3, as the code has it: for every input key that an attribute
    overrides and the plugin template has, every resolved input under
    that key takes [validation] and [type] from the template's input; it
    has the template's [script], copied, when the template's input has
    one, and otherwise keeps whatever the deep merge produced (the
    override's script, if it supplies one); and when the override has
    [options], the resolved input's [options] is the override's.  The
    input the merge starts from is the template's, with the default label
    when the plugin has a single input. *)
Theorem override_precedence type ids attribute st plugin ids' st'
    overrides ko attr repeatable ty tys r template template_inputs kd :
  resolve_attribute merge slugify uuid_v4 plugins type ids attribute st
  = (Ret (plugin, ids'), st') →
  get attribute "inputs" = Ret overrides → truthy overrides = true →
  own_keys overrides = Ret ko → attr ∈ ko →
  get attribute "repeatable" = Ret repeatable →
  truthy repeatable = false ∨ is_Some (normalized_repeatable repeatable) →
  get attribute "type" = Ret ty → to_string ty = Ret tys →
  plugins !! ("input-plugin-" +:+ tys) = Some r →
  st_heap st !! r = Some template →
  get (VObj template) "inputs" = Ret template_inputs →
  own_keys template_inputs = Ret kd → attr ∈ kd →
  ∃ template_input default override merged,
    get template_inputs attr = Ret template_input ∧
    labelled template_input default ∧
    get overrides attr = Ret override ∧
    merge default override = Ret merged ∧
    (truthy repeatable = false →
     ∃ resolved, resolved_input repeatable plugin attr resolved) ∧
    ∀ resolved,
      resolved_input repeatable plugin attr resolved →
      precedence template_input override merged resolved.
Proof.
  intros Hres Hov Htov Hko Hattr Hrep Hspec Hty Htys Hr Htpl Hti Hkd Hattr'.
  apply resolve_attribute_Ret in Hres
    as (st1 & p0 & p1 & p2 & p3 & p4 & st2 & _ & Ht & Hc & Hd & Hm & Ha & He
        & _ & Hh1 & _).
  apply template_Ret in Ht as (ty' & tys' & Hty' & Htys' & Hp0 & _).
  assert (ty' = ty) as -> by congruence.
  assert (tys' = tys) as -> by congruence.
  rewrite Hr, Hh1 in Hp0. simpl in Hp0. rewrite Htpl in Hp0. subst p0.
  apply configure_Ret in Hc as (_ & _ & _ & _ & _ & _ & _ & _ & Hout).
  assert (get p1 "inputs" = Ret template_inputs) as Hi1.
  { rewrite Hout; [done|]. solve_nelem. }
  eapply default_label_inputs in Hd as (inputs2 & Hi2 & Hk2 & Hl2); [|done..].
  destruct (Hl2 _ Hattr') as (template_input & default & Hti' & Hdef & Hlab).
  eapply merge_inputs_precedence in Hm
    as (default' & override & merged & inputs3 & resolved3 & Hdef' & Hover & Hmerged
        & Hi3 & Hk3 & Hres3 & Hprec); [|done..].
  assert (default' = default) as -> by congruence.
  eapply assign_ids_inputs in Ha as (inputs4 & Hi4 & Hk4 & Hl4); [|done..].
  destruct (Hl4 _ Hattr') as (resolved3' & resolved4 & Hres3' & Hres4 & Hident).
  assert (resolved3' = resolved3) as -> by congruence.
  assert (precedence template_input override merged resolved4) as Hprec4.
  { destruct Hprec as (Hv & Ht & Hs1 & Hs2 & Ho). unfold precedence.
    rewrite !(identified_get resolved3 resolved4) by done.
    rewrite !(identified_has resolved3 resolved4) by done.
    rewrite <- !(labelled_get template_input default) by done.
    rewrite <- !(labelled_has template_input default) by done.
    done. }
  exists template_input, default, override, merged.
  split; [done|]. split; [done|]. split; [done|]. split; [done|].
  destruct Hspec as [Hfalsy|[[min max] Hnorm]].
  - eapply expand_repeatable_falsy in He as ->; [|done..].
    split.
    + intros _. exists resolved4, inputs4. split; [done|]. by rewrite Hfalsy.
    + intros resolved (inputs & Hi & Hresolved).
      rewrite Hfalsy in Hresolved.
      assert (inputs = inputs4) as -> by congruence.
      assert (resolved = resolved4) as -> by congruence. done.
  - pose proof (normalized_repeatable_truthy _ _ Hnorm) as Htruthy.
    split; [by rewrite Htruthy|].
    eapply expand_repeatable_Ret in He
      as (base & n & instances & Hbase & _ & HF & Hinputs & _); [|done..].
    assert (base = inputs4) as -> by congruence.
    intros resolved (inputs & Hi & Hresolved).
    rewrite Htruthy in Hresolved.
    destruct Hresolved as (instances' & i & inst & -> & Hinst & Hresolved).
    assert (instances' = instances) as -> by congruence.
    destruct (Forall2_lookup_r _ _ _ _ _ HF Hinst) as (i' & _ & Hinstance).
    apply instance_Ret in Hinstance as (ks & Hks & _ & Hcopy).
    assert (ks = kd) as -> by congruence.
    destruct (Hcopy _ Hattr') as (b & c & Hb & Hc & Hsuffixed).
    assert (b = resolved4) as -> by congruence.
    assert (c = resolved) as -> by congruence.
    destruct Hsuffixed as (? & ? & ? & ? & b' & _ & _ & _ & _ & Hs1 & Hs2 & _).
    assert (identified resolved4 resolved) as Hident' by by eexists _, _, b'.
    destruct Hprec4 as (Hv & Ht & Hs1' & Hs2' & Ho). unfold precedence.
    rewrite !(identified_get resolved4 resolved) by done.
    rewrite !(identified_has resolved4 resolved) by done.
    done.
Qed.

End Precedence.

Lemma override_precedence_witness :
  sample_resolve title
  = (Ret (title_resolved, [VStr "title"]), State (sample_heap post) Pending 1) ∧
  ∃ template_input default override merged resolved,
    get (VObj [("value",
                VObj [("type", VStr "string");
                      ("validation", VObj [("maxLength", VNum 10)])])]) "value"
    = Ret template_input ∧
    labelled template_input default ∧
    get (VObj [("value",
                VObj [("validation", VObj [("maxLength", VNum 999)]);
                      ("script", VStr "custom.js");
                      ("options", VArr [VStr "A"; VStr "B"])])]) "value"
    = Ret override ∧
    deepmerge default override = Ret merged ∧
    resolved_input VUndef title_resolved "value" resolved ∧
    precedence template_input override merged resolved.
Proof.
  assert (sample_resolve title
          = (Ret (title_resolved, [VStr "title"]),
             State (sample_heap post) Pending 1)) as Hrun
    by (vm_compute; reflexivity).
  split; [exact Hrun|].
  destruct (override_precedence deepmerge kebabCase uuid_seq sample_plugins
              (Ref 0%nat) [] title (State (sample_heap post) Pending 0)
              title_resolved [VStr "title"] (State (sample_heap post) Pending 1)
              _ ["value"] "value" VUndef (VStr "text") "text" 10%nat text_plugin
              _ ["value"]
              Hrun eq_refl eq_refl eq_refl ltac:(left) eq_refl
              (or_introl eq_refl)
              eq_refl eq_refl eq_refl eq_refl eq_refl eq_refl ltac:(left))
    as (template_input & default & override & merged & H1 & H2 & H3 & H4 & H5 & H6).
  destruct (H5 eq_refl) as [resolved Hresolved].
  exists template_input, default, override, merged, resolved.
  repeat (split; [assumption|]). exact (H6 resolved Hresolved).
Defined.

(** The claim of C3 fails on the sample: the template's input [value]
    defines no script, the attribute's override supplies one, and the
    resolved input has the override's script. *)
Lemma override_script_survives :
  ∃ template_inputs template_input inputs resolved,
    get (VObj text_plugin) "inputs" = Ret template_inputs ∧
    get template_inputs "value" = Ret template_input ∧
    hasOwnProperty template_input "script" = Ret false ∧
    sample_resolve title
    = (Ret (title_resolved, [VStr "title"]), State (sample_heap post) Pending 1) ∧
    get title_resolved "inputs" = Ret inputs ∧
    get inputs "value" = Ret resolved ∧
    hasOwnProperty resolved "script" = Ret true ∧
    get resolved "script" = Ret (VStr "custom.js").
Proof.
  eexists _, _, _, _. split; [reflexivity|]. split; [reflexivity|].
  split; [reflexivity|]. split; [vm_compute; reflexivity|].
  repeat split; reflexivity.
Qed.

(** * The checks on an attribute (lines 63-94) *)

(** A failed check settles a pending promise. *)
Lemma reject_not_pending e st st' :
  reject e st = (Ret tt, st') → st_promise st' ≠ Pending.
Proof.
  unfold reject. intros [= <-]. unfold settle.
  destruct (st_promise st) eqn:E; simpl; by rewrite ?E.
Qed.

Lemma only_rejects_pending p : only_rejects p Pending → p = Pending.
Proof. by intros [?|[? [? ?]]]. Qed.

(** A computation that only rejects and ends pending began pending. *)
Lemma quiet_pending {A} (m : M A) st :
  keeps quiet m → st_promise (m st).2 = Pending → st_promise st = Pending.
Proof.
  intros K Hp. destruct (K st) as (_ & Hr & _). rewrite Hp in Hr.
  by apply only_rejects_pending.
Qed.

Lemma quiet_pending_Ret {A} (m : M A) st a st' :
  keeps quiet m → m st = (Ret a, st') → st_promise st' = Pending →
  st_promise st = Pending.
Proof. intros K E Hp. apply (quiet_pending m); [done|]. by rewrite E. Qed.

Lemma strict_eq_VStr s v : strict_eq (VStr s) v = true ↔ v = VStr s.
Proof.
  destruct v; simpl; try (split; [done|congruence]).
  rewrite bool_decide_eq_true. split; congruence.
Qed.

Section Validate.
Context (slugify : data → string) (plugins : gmap string ref).
Context (type : val) (ids : list data) (attribute : data) (st : state).

(** X1: on a pending promise, an attribute whose [type] names no plugin
    of the catalog rejects with the plugin-not-found error, whatever the
    later checks find. *)
Theorem validate_plugin_not_found ty tys :
  st_promise st = Pending →
  get attribute "type" = Ret ty → to_string ty = Ret tys →
  plugins !! ("input-plugin-" +:+ tys) = None →
  st_promise (validate slugify plugins type ids attribute st).2
  = Rejected (PluginNotFound tys).
Proof.
  intros Hp Hty Htys Hnone. unfold validate.
  rewrite Hty. run. rewrite Htys. run.
  rewrite bool_decide_true by done. run.
  apply rejected_stays; [keeps_tac|by apply settle_pending].
Qed.

(** X2: on a pending promise, an attribute of a known plugin that has no
    [name] of its own rejects with the missing-name error; the message
    shows the attribute's [id], or its [type] when it has no [id]. *)
Theorem validate_missing_name ty tys (hi : bool) id sid tn stn :
  st_promise st = Pending →
  get attribute "type" = Ret ty → to_string ty = Ret tys →
  is_Some (plugins !! ("input-plugin-" +:+ tys)) →
  hasOwnProperty attribute "name" = Ret false →
  hasOwnProperty attribute "id" = Ret hi →
  (if hi then get attribute "id" else Ret ty) = Ret id →
  to_string id = Ret sid →
  get (load (st_heap st) type) "name" = Ret tn → to_string tn = Ret stn →
  st_promise (validate slugify plugins type ids attribute st).2
  = Rejected (MissingAttributeName sid stn).
Proof.
  intros Hp Hty Htys Hsome Hn Hi Hid Hsid Htn Hstn. unfold validate.
  rewrite Hty. run. rewrite Htys. run.
  rewrite bool_decide_false by (by apply not_eq_None_Some). run.
  rewrite Hn. run. cbn [negb]. run. rewrite Hi. run. rewrite Hid. run.
  rewrite Hsid. run. rewrite Hstn. run.
  apply rejected_stays; [keeps_tac|by apply settle_pending].
Qed.

(** X3: on a pending promise, an attribute of a known plugin that has a
    [name] but no [id] of its own rejects with the missing-id error. *)
Theorem validate_missing_id ty tys n sn tn stn :
  st_promise st = Pending →
  get attribute "type" = Ret ty → to_string ty = Ret tys →
  is_Some (plugins !! ("input-plugin-" +:+ tys)) →
  hasOwnProperty attribute "name" = Ret true →
  hasOwnProperty attribute "id" = Ret false →
  get attribute "name" = Ret n → to_string n = Ret sn →
  get (load (st_heap st) type) "name" = Ret tn → to_string tn = Ret stn →
  st_promise (validate slugify plugins type ids attribute st).2
  = Rejected (MissingAttributeId sn stn).
Proof.
  intros Hp Hty Htys Hsome Hn Hi Hname Hsn Htn Hstn. unfold validate.
  rewrite Hty. run. rewrite Htys. run.
  rewrite bool_decide_false by (by apply not_eq_None_Some). run.
  rewrite Hn. run. cbn [negb]. run. rewrite Hi. run. cbn [negb].
  rewrite Hname. run. rewrite Hsn. run. rewrite Hstn. run.
  apply rejected_stays; [keeps_tac|by apply settle_pending].
Qed.

(** X4: on a pending promise, an attribute of a known plugin with a name
    and an id rejects with the duplicate-id error when its id is strictly
    equal to the id of an earlier attribute of the type. *)
Theorem validate_duplicate_id ty tys id sid n sn tn stn :
  st_promise st = Pending →
  get attribute "type" = Ret ty → to_string ty = Ret tys →
  is_Some (plugins !! ("input-plugin-" +:+ tys)) →
  hasOwnProperty attribute "name" = Ret true →
  hasOwnProperty attribute "id" = Ret true →
  get attribute "id" = Ret id → to_string id = Ret sid →
  existsb (strict_eq id) ids = true →
  get attribute "name" = Ret n → to_string n = Ret sn →
  get (load (st_heap st) type) "name" = Ret tn → to_string tn = Ret stn →
  st_promise (validate slugify plugins type ids attribute st).2
  = Rejected (DuplicateAttributeId sid stn sn).
Proof.
  intros Hp Hty Htys Hsome Hn Hi Hid Hsid Hdup Hname Hsn Htn Hstn.
  unfold validate.
  rewrite Hty. run. rewrite Htys. run.
  rewrite bool_decide_false by (by apply not_eq_None_Some). run.
  rewrite Hn. run. cbn [negb]. run. rewrite Hi. run. cbn [negb]. run.
  rewrite Hid. run. rewrite Hdup. run.
  rewrite Hsid. run. rewrite Hstn. run. rewrite Hname. run. rewrite Hsn. run.
  apply rejected_stays; [keeps_tac|by apply settle_pending].
Qed.

(** X5: on a pending promise, an attribute that passes the first four
    checks rejects with the kebab-case error when [slugify] of its id is
    not the id; the message proposes the slug. *)
Theorem validate_non_kebab_id ty tys id sid :
  st_promise st = Pending →
  get attribute "type" = Ret ty → to_string ty = Ret tys →
  is_Some (plugins !! ("input-plugin-" +:+ tys)) →
  hasOwnProperty attribute "name" = Ret true →
  hasOwnProperty attribute "id" = Ret true →
  get attribute "id" = Ret id → to_string id = Ret sid →
  existsb (strict_eq id) ids = false →
  id ≠ VStr (slugify id) →
  st_promise (validate slugify plugins type ids attribute st).2
  = Rejected (NonKebabCaseId sid (slugify id)).
Proof.
  intros Hp Hty Htys Hsome Hn Hi Hid Hsid Hdup Hk.
  unfold validate.
  rewrite Hty. run. rewrite Htys. run.
  rewrite bool_decide_false by (by apply not_eq_None_Some). run.
  rewrite Hn. run. cbn [negb]. run. rewrite Hi. run. cbn [negb]. run.
  rewrite Hid. run. rewrite Hdup. run.
  destruct (strict_eq (VStr (slugify id)) id) eqn:E;
    [by apply strict_eq_VStr in E|].
  cbn [negb]. run. rewrite Hsid. run.
  by apply settle_pending.
Qed.

(** A valid attribute passes, and only a valid one leaves the promise
    pending. *)
Lemma validate_valid id :
  valid_attribute slugify plugins ids attribute id →
  validate slugify plugins type ids attribute st = (Ret (ids ++ [id]), st).
Proof.
  intros (ty & tys & Hty & Htys & Hsome & Hn & Hi & Hid & Hdup & Hk).
  unfold validate.
  rewrite Hty. run. rewrite Htys. run.
  rewrite bool_decide_false by (by apply not_eq_None_Some). run.
  rewrite Hn. run. cbn [negb]. run. rewrite Hi. run. cbn [negb]. run.
  rewrite Hid. run. rewrite Hdup. run.
  rewrite (proj2 (strict_eq_VStr _ _) Hk). cbn [negb]. run. done.
Qed.

Lemma validate_pending ids' st' :
  validate slugify plugins type ids attribute st = (Ret ids', st') →
  st_promise st' = Pending →
  ∃ id, valid_attribute slugify plugins ids attribute id ∧
        ids' = ids ++ [id] ∧ st' = st.
Proof.
  intros H Hp. unfold validate in H.
  apply mbind_Ret in H as (ty & ? & Hty%lift_Ret & H). destruct Hty as [Hty ->].
  apply mbind_Ret in H as (tys & ? & Htys%lift_Ret & H).
  destruct Htys as [Htys ->].
  (* every block that rejects would leave the promise settled *)
  assert (Hblock : ∀ (c : bool) (m : M unit) (k : unit → M (list data)) s,
    mbind (if c then m else mret tt) k s = (Ret ids', st') →
    keeps quiet (k tt) →
    (∀ s1, m s = (Ret tt, s1) → st_promise s1 ≠ Pending) →
    c = false ∧ k tt s = (Ret ids', st')).
  { intros c m k s Hb K Hm. apply mbind_Ret in Hb as ([] & s1 & E & Hb).
    destruct c.
    - destruct (Hm _ E). by eapply quiet_pending_Ret.
    - by apply mret_Ret in E as [_ ->]. }
  apply Hblock in H as [Hsome H]; [|keeps_tac|by apply reject_not_pending].
  apply mbind_Ret in H as (hn & ? & Hn%lift_Ret & H). destruct Hn as [Hn ->].
  apply Hblock in H as [Hhn H]; [|keeps_tac|];
    [|intros s1 E; repeat inv_step; by eapply reject_not_pending].
  apply mbind_Ret in H as (hi & ? & Hi%lift_Ret & H). destruct Hi as [Hi ->].
  apply Hblock in H as [Hhi H]; [|keeps_tac|];
    [|intros s1 E; repeat inv_step; by eapply reject_not_pending].
  apply mbind_Ret in H as (id & ? & Hid%lift_Ret & H). destruct Hid as [Hid ->].
  apply Hblock in H as [Hdup H]; [|keeps_tac|];
    [|intros s1 E; repeat inv_step; by eapply reject_not_pending].
  apply Hblock in H as [Hk H]; [|keeps_tac|];
    [|intros s1 E; repeat inv_step; by eapply reject_not_pending].
  apply mret_Ret in H as [-> ->].
  exists id. split; [|done].
  exists ty, tys. repeat split; try done.
  - apply bool_decide_eq_false in Hsome. by apply not_eq_None_Some.
  - by destruct hn.
  - by destruct hi.
  - apply strict_eq_VStr. by destruct (strict_eq _ id).
Qed.

(** X6: on a pending promise the checks return with the promise still
    pending exactly for a valid attribute; they then add its id to the
    ids seen and change nothing. *)
Theorem validate_pending_iff ids' st' :
  st_promise st = Pending →
  (validate slugify plugins type ids attribute st = (Ret ids', st') ∧
   st_promise st' = Pending) ↔
  (∃ id, valid_attribute slugify plugins ids attribute id ∧
         ids' = ids ++ [id] ∧ st' = st).
Proof.
  intros Hp. split.
  - intros [H Hp']. by eapply validate_pending.
  - intros (id & Hv & -> & ->). split; [by apply validate_valid|done].
Qed.

End Validate.

(** * The checks on a content type (lines 52-60) and what a failed
      callback leaves behind *)

Lemma mbind_has_prop {B} v key x (k : bool → M B) st :
  hasOwnProperty (load (st_heap st) v) key = Ret x →
  mbind (has_prop v key) k st = k x st.
Proof. unfold mbind, has_prop. by intros ->. Qed.

Lemma promise_rejected_stays {A} (m : M A) st e :
  keeps promise_quiet m → st_promise st = Rejected e →
  st_promise (m st).2 = Rejected e.
Proof.
  intros K He. specialize (K st). unfold promise_quiet in K.
  rewrite He in K. by apply only_rejects_settled in K.
Qed.

Lemma writes_on_return_mbind {A B} (m : M A) (k : A → M B) :
  keeps quiet m → (∀ a, writes_on_return (k a)) → writes_on_return (mbind m k).
Proof.
  intros K Hk st. unfold mbind. destruct (K st) as (Hh & _).
  destruct (m st) as [[a|e|] st1] eqn:E; simpl in *; [|done..].
  intros Hn. by rewrite Hk.
Qed.

Lemma writes_on_return_assign v k x : writes_on_return (assign v k x).
Proof.
  intros st. unfold assign. destruct v as [r|d].
  - destruct (st_heap st !! r); [|done]. intros H. by destruct (H (Ref r)).
  - by destruct (set d k x).
Qed.

Section TypeChecks.
Context (merge : data → data → outcome data) (slugify : data → string)
  (uuid_v4 : nat → string) (plugins : gmap string ref).
Context (type : val) (st : state).

(** X7: on a pending promise, a type object without an [identifier] of
    its own rejects with the missing-identifier error. *)
Theorem process_type_missing_identifier tn stn :
  st_promise st = Pending →
  hasOwnProperty (load (st_heap st) type) "identifier" = Ret false →
  get (load (st_heap st) type) "name" = Ret tn → to_string tn = Ret stn →
  st_promise (process_type merge slugify uuid_v4 plugins type st).2
  = Rejected (MissingIdentifierField stn).
Proof.
  intros Hp Hi Htn Hstn. unfold process_type.
  erewrite mbind_has_prop by done. cbn [negb]. run. rewrite Hstn. run.
  apply promise_rejected_stays; [keeps_tac'|by apply settle_pending].
Qed.

(** X8: on a pending promise, a type object whose [identifier] is not a
    string rejects with the invalid-identifier error. *)
Theorem process_type_identifier_not_string identifier tn stn :
  st_promise st = Pending →
  hasOwnProperty (load (st_heap st) type) "identifier" = Ret true →
  get (load (st_heap st) type) "identifier" = Ret identifier →
  typeof_string identifier = false →
  get (load (st_heap st) type) "name" = Ret tn → to_string tn = Ret stn →
  st_promise (process_type merge slugify uuid_v4 plugins type st).2
  = Rejected (InvalidIdentifierType stn).
Proof.
  intros Hp Hi Hid Hs Htn Hstn. unfold process_type.
  erewrite mbind_has_prop by done. cbn [negb]. run.
  erewrite mbind_has_prop by done. cbn [negb]. run. rewrite Hs. cbn [negb]. run.
  rewrite Hstn. run.
  apply promise_rejected_stays; [keeps_tac'|by apply settle_pending].
Qed.

Lemma writes_on_return_process_type :
  writes_on_return (process_type merge slugify uuid_v4 plugins type).
Proof.
  unfold process_type.
  repeat (apply writes_on_return_mbind; [keeps_tac|intros ?]).
  apply writes_on_return_assign.
Qed.


End TypeChecks.

(** * What a fulfilled run has checked *)

Lemma promise_quiet_pending_Ret {A} (m : M A) st a st' :
  keeps promise_quiet m → m st = (Ret a, st') → st_promise st' = Pending →
  st_promise st = Pending.
Proof.
  intros K E Hp. specialize (K st). rewrite E in K. unfold promise_quiet in K.
  simpl in K. rewrite Hp in K. by apply only_rejects_pending.
Qed.

(** A guarded block that ends in [reject] was not entered when the run
    returns with the promise pending. *)
Lemma block_pending {B} (c : bool) (m : M unit) (k : unit → M B) s b st' :
  mbind (if c then m else mret tt) k s = (Ret b, st') →
  keeps promise_quiet (k tt) → st_promise st' = Pending →
  (∀ s1, m s = (Ret tt, s1) → st_promise s1 ≠ Pending) →
  c = false ∧ k tt s = (Ret b, st').
Proof.
  intros Hb K Hp Hm. apply mbind_Ret in Hb as ([] & s1 & E & Hb).
  destruct c.
  - destruct (Hm _ E). by eapply promise_quiet_pending_Ret.
  - by apply mret_Ret in E as [_ ->].
Qed.

Lemma own_keys_nil_get v : own_keys v = Ret [] → get v "undefined" = Ret VUndef.
Proof.
  destruct v as [| | | |s|l|ps]; simpl; try done.
  - intros [= H]. apply fmap_nil_inv in H.
    assert (string_chars s = []) as ->; [|done].
    apply length_zero_iff_nil. by destruct (length (string_chars s)).
  - intros [= H]. apply fmap_nil_inv in H.
    assert (l = []) as ->; [|done].
    apply length_zero_iff_nil. by destruct (length l).
  - intros [= H]. destruct ps as [|[k x] ps]; [done|].
    exfalso. assert (k ∈ remove_dups (((k, x) :: ps).*1)) as Hin.
    { apply elem_of_remove_dups. simpl. left. }
    rewrite H in Hin. by apply not_elem_of_nil in Hin.
Qed.

Lemma contender_of_id identifier attrs c :
  contender_of identifier attrs = Some c →
  ∃ id, get c "id" = Ret id ∧ strict_eq id identifier = true.
Proof.
  intros Hc. apply find_some in Hc as [_ Hc].
  destruct (get c "id") as [id| |]; [|done..]. eauto.
Qed.

Lemma strict_eq_VStr_r v s : strict_eq v (VStr s) = true → v = VStr s.
Proof.
  destruct v; simpl; try done. rewrite bool_decide_eq_true. congruence.
Qed.

Lemma typeof_string_VStr v : typeof_string v = true → ∃ s, v = VStr s.
Proof. destruct v; simpl; try done. eauto. Qed.

(** The checks on the identifier attribute, read backwards. *)
Lemma check_identifier_pending type attrs st st' s :
  check_identifier type attrs st = (Ret tt, st') →
  st_promise st' = Pending →
  Forall is_object attrs →
  get (load (st_heap st) type) "identifier" = Ret (VStr s) →
  st' = st ∧
  ∃ c inputs k first,
    contender_of (VStr s) attrs = Some c ∧
    get c "id" = Ret (VStr s) ∧
    get c "inputs" = Ret inputs ∧
    own_keys inputs = Ret [k] ∧
    hasOwnProperty c "repeatable" = Ret false ∧
    get inputs k = Ret first ∧
    hasOwnProperty first "options" = Ret false.
Proof.
  intros H Hp Hobj Hident. unfold check_identifier in H.
  erewrite mbind_run in H by (by apply (find_contender_Ret _ _ _ (VStr s))).
  apply block_pending in H as [Hc H]; [|keeps_tac'|done|];
    [|intros s1 E; repeat inv_step; by eapply reject_not_pending].
  destruct (contender_of (VStr s) attrs) as [c|] eqn:Ec; [|done].
  simpl in Hc, H.
  apply mbind_Ret in H as (inputs & ? & [Hin ->]%lift_Ret & H).
  apply mbind_Ret in H as (ks & ? & [Hks ->]%lift_Ret & H).
  apply block_pending in H as [Hlen H]; [|keeps_tac'|done|];
    [|intros s1 E; repeat inv_step; by eapply reject_not_pending].
  apply mbind_Ret in H as (hr & ? & [Hr ->]%lift_Ret & H).
  apply block_pending in H as [-> H]; [|keeps_tac'|done|];
    [|intros s1 E; repeat inv_step; by eapply reject_not_pending].
  apply mbind_Ret in H as (inputs' & ? & [Hin' ->]%lift_Ret & H).
  rewrite Hin in Hin'. injection Hin' as <-.
  apply mbind_Ret in H as (ks' & ? & [Hks' ->]%lift_Ret & H).
  rewrite Hks in Hks'. injection Hks' as <-.
  apply mbind_Ret in H as (first & ? & [Hfirst ->]%lift_Ret & H).
  apply mbind_Ret in H as (ho & ? & [Ho ->]%lift_Ret & H).
  destruct ho.
  { repeat inv_step. by apply reject_not_pending in H. }
  apply mret_Ret in H as [_ ->]. split; [done|].
  apply bool_decide_eq_false in Hlen.
  destruct ks as [|k [|k' ks]]; [|clear Hlen|simpl in Hlen; lia].
  { simpl in Hfirst. rewrite own_keys_nil_get in Hfirst by done.
    by injection Hfirst as <-. }
  destruct (contender_of_id _ _ _ Ec) as (id & Hid & ->%strict_eq_VStr_r).
  exists c, inputs, k, first. done.
Qed.

Section Fulfilled.
Context (merge : data → data → outcome data) (slugify : data → string)
  (uuid_v4 : nat → string) (plugins : gmap string ref).

(** A resolved attribute on a promise that is still pending afterwards
    passed the five checks. *)
Lemma resolve_attribute_pending type ids attribute st plugin ids' st' :
  resolve_attribute merge slugify uuid_v4 plugins type ids attribute st
  = (Ret (plugin, ids'), st') →
  st_promise st' = Pending →
  ∃ id, valid_attribute slugify plugins ids attribute id ∧
        ids' = ids ++ [id] ∧ get plugin "id" = Ret id ∧
        st_promise st = Pending.
Proof.
  intros H Hp.
  pose proof (resolve_attribute_required _ _ _ _ _ _ _ _ _ _ _ H)
    as (id' & _ & _ & _ & _ & Hid' & _ & _ & _ & _ & Hpid & _).
  apply resolve_attribute_Ret in H
    as (st1 & p0 & p1 & p2 & p3 & p4 & st2 & Hv & _ & _ & _ & _ & Ha & _
        & -> & _).
  assert (st_promise st1 = Pending) as Hp1.
  { eapply quiet_pending_Ret; [|done..]. apply keeps_quiet_assign_ids. }
  apply validate_pending in Hv as (id & Hv & -> & ->); [|done].
  exists id. repeat split; try done.
  destruct Hv as (_ & _ & _ & _ & _ & _ & _ & Hid & _). congruence.
Qed.

Lemma map_attributes_pending type ids l st attrs st' :
  map_attributes merge slugify uuid_v4 plugins type ids l st = (Ret attrs, st') →
  st_promise st' = Pending →
  st_promise st = Pending ∧
  ∃ new : list string,
    Forall2 (λ a s, get a "id" = Ret (VStr s)) attrs new ∧
    NoDup new ∧
    Forall (λ s, slugify (VStr s) = s ∧
                 existsb (strict_eq (VStr s)) ids = false) new.
Proof.
  revert ids st attrs. induction l as [|a l IH]; intros ids st attrs; simpl.
  - intros [-> ->]%mret_Ret Hp. split; [done|]. exists []. by repeat constructor.
  - intros H Hp.
    apply mbind_Ret in H as ([p ids1] & st1 & Hr & H).
    apply mbind_Ret in H as (rest & st2 & Hm & H).
    apply mret_Ret in H as [-> ->]. simpl in *.
    apply IH in Hm as (Hp1 & new & Hids & Hnd & Hnew); [|done].
    apply resolve_attribute_pending in Hr as (id & Hv & -> & Hpid & Hp0); [|done].
    split; [done|].
    destruct Hv as (_ & _ & _ & _ & _ & _ & _ & _ & Hdup & Hk).
    exists (slugify id :: new). split; [constructor; [by rewrite <- Hk|done]|].
    split.
    + constructor; [|done]. intros Hin.
      eapply Forall_forall in Hnew as [_ Hnew]; [|done].
      rewrite existsb_app, orb_false_iff in Hnew. destruct Hnew as [_ Hnew].
      cbn [existsb] in Hnew. rewrite orb_false_r in Hnew.
      assert (strict_eq (VStr (slugify id)) id = true)
        by (by apply strict_eq_VStr).
      congruence.
    + constructor.
      * by rewrite <- Hk.
      * eapply Forall_impl; [done|]. intros s' [? Hs']. split; [done|].
        rewrite existsb_app, orb_false_iff in Hs'. by destruct Hs'.
Qed.

(** A processed type on a promise that is still pending afterwards. *)
Lemma process_type_pending type st v st' :
  process_type merge slugify uuid_v4 plugins type st = (Ret v, st') →
  st_promise st' = Pending →
  st_promise st = Pending ∧
  distinct_kebab_ids slugify
    match get (load (st_heap st') v) "attributes" with
    | Ret (VArr attrs) => attrs
    | _ => []
    end ∧
  single_input_identifier (load (st_heap st') v).
Proof.
  intros H Hp.
  pose proof (process_type_Ret _ _ _ _ _ _ _ _ H)
    as (l & attrs' & Hl & _ & Hset & _).
  unfold process_type in H.
  apply mbind_Ret in H as (hi & ? & [Hi ->]%has_prop_Ret & H).
  apply block_pending in H as [Hhi H]; [|keeps_tac'|done|];
    [|intros s1 E; repeat inv_step; by eapply reject_not_pending].
  destruct hi; [clear Hhi|done].
  apply mbind_Ret in H as (hi & ? & [Hi' ->]%has_prop_Ret & H).
  rewrite Hi in Hi'. injection Hi' as <-.
  apply mbind_Ret in H as ([] & st1 & E & H).
  apply mbind_Ret in E as (identifier & ? & [Hident ->]%prop_Ret & E).
  destruct (typeof_string identifier) eqn:Hts; simpl in E.
  2:{ revert H. repeat inv_step. intros H.
      apply reject_not_pending in E. destruct E.
      eapply promise_quiet_pending_Ret; [|done..]. keeps_tac'. }
  apply mret_Ret in E as [_ ->].
  apply typeof_string_VStr in Hts as [s ->].
  apply mbind_Ret in H as (attributes & ? & [Hattrs ->]%prop_Ret & H).
  rewrite Hl in Hattrs. injection Hattrs as <-.
  apply mbind_Ret in H as (attrs & st2 & Hm & H).
  apply mbind_Ret in H as ([] & st3 & Hc & H).
  assert (st_promise st3 = Pending) as Hp3.
  { eapply promise_quiet_pending_Ret; [|done..]. keeps_tac'. }
  assert (st_heap st2 = st_heap st) as Hh2.
  { pose proof (keeps_quiet_map_attributes merge slugify uuid_v4 plugins
                  type [] l st) as K.
    rewrite Hm in K. by destruct K as [K _]. }
  pose proof (map_attributes_objects _ _ _ _ _ _ _ _ _ _ Hm) as Hobj.
  apply check_identifier_pending with (s := s) in Hc
    as (-> & c & inputs & k & first & Hcont); [|done|done|by rewrite Hh2].
  apply map_attributes_pending in Hm as (Hp0 & new & Hids & Hnd & Hnew); [|done].
  apply assign_Ret in H as (Hset' & _). rewrite Hh2 in Hset'.
  pose proof (get_set_eq _ _ _ _ Hset') as Hget.
  split; [done|]. split.
  - rewrite Hget. exists new. repeat split; try done.
    eapply Forall_impl; [done|]. by intros ? [? _].
  - exists s, attrs, c, inputs, k, first.
    split; [|split; [|split; [done|done]]].
    + by rewrite (has_set_ne _ _ _ _ "identifier" Hset').
    + by rewrite (get_set_ne _ _ _ _ "identifier" Hset').
Qed.

(** A property that processing a type establishes when it leaves the
    promise pending holds of every type a fulfilled run returns. *)
Lemma mmap_process_type_pending (P : data → Prop) l st vs st' :
  (∀ type st v st',
      process_type merge slugify uuid_v4 plugins type st = (Ret v, st') →
      st_promise st' = Pending → P (load (st_heap st') v)) →
  mmap (process_type merge slugify uuid_v4 plugins) l st = (Ret vs, st') →
  st_promise st' = Pending →
  Forall (λ v, P (load (st_heap st') v)) vs.
Proof.
  intros HP. revert st vs. induction l as [|t l IH]; intros st vs; simpl.
  - intros [-> ->]%mret_Ret _. constructor.
  - intros H Hp.
    apply mbind_Ret in H as (v & st1 & Hpt & H).
    apply mbind_Ret in H as (rest & st2 & Hm & H).
    apply mret_Ret in H as [-> ->].
    pose proof (IH _ _ Hm Hp) as HF. constructor; [|done].
    destruct (mmap_process_type_load _ _ _ _ _ _ _ _ Hm v) as [E|Hin].
    + rewrite E. eapply HP; [done|].
      eapply promise_quiet_pending_Ret; [|done..].
      apply keeps_mmap; [apply _|]. intros ?. apply keeps_promise_process_type.
    + by eapply Forall_forall in HF.
Qed.

(** X10: in every content type that a fulfilled run returns, the ids of
    the resolved attributes are strings in kebab case and no two of them
    are equal. *)
Theorem fulfilled_ids_distinct_kebab types h n st configured v :
  squish merge slugify uuid_v4 plugins types h n = Some st →
  st_promise st = Fulfilled configured →
  v ∈ configured →
  ∃ attrs,
    get (load (st_heap st) v) "attributes" = Ret (VArr attrs) ∧
    distinct_kebab_ids slugify attrs.
Proof.
  intros Hs Hf Hv.
  destruct (squish_Fulfilled _ _ _ _ _ _ _ _ _ Hs Hf) as (l & _ & Hm).
  eapply (mmap_process_type_pending
            (λ t, ∃ attrs, get t "attributes" = Ret (VArr attrs) ∧
                           distinct_kebab_ids slugify attrs)) in Hm; [| |done].
  - by eapply Forall_forall in Hm.
  - intros type st0 v0 st1 Hpt Hp.
    destruct (process_type_pending _ _ _ _ Hpt Hp) as (_ & Hids & Hident).
    destruct Hident as (s & attrs & ? & ? & ? & ? & _ & _ & Hattrs & _).
    rewrite Hattrs in Hids. eauto.
Qed.

(** X11: in every content type that a fulfilled run returns, the
    identifier is a string, it is the id of one of the resolved
    attributes, and that attribute has exactly one input, no
    [repeatable] property and no [options] on its input. *)
Theorem fulfilled_identifier_single_input types h n st configured v :
  squish merge slugify uuid_v4 plugins types h n = Some st →
  st_promise st = Fulfilled configured →
  v ∈ configured →
  single_input_identifier (load (st_heap st) v).
Proof.
  intros Hs Hf Hv.
  destruct (squish_Fulfilled _ _ _ _ _ _ _ _ _ Hs Hf) as (l & _ & Hm).
  eapply (mmap_process_type_pending single_input_identifier) in Hm; [| |done].
  - by eapply Forall_forall in Hm.
  - intros type st0 v0 st1 Hpt Hp.
    by destruct (process_type_pending _ _ _ _ Hpt Hp) as (_ & _ & ?).
Qed.

End Fulfilled.

(** * The first rejection is the one the caller sees *)

Lemma mbind_rejected {A B} (m : M A) (k : A → M B) st e :
  st_promise (m st).2 = Rejected e → (∀ a, keeps promise_quiet (k a)) →
  st_promise (mbind m k st).2 = Rejected e.
Proof.
  intros He K. unfold mbind. destruct (m st) as [[a|e'|] st1]; [|done..].
  simpl in He. by apply promise_rejected_stays.
Qed.

Lemma types_map_elements types l f :
  array_elements types = Some l → types_map types f = mmap f l ∧ is_array types = true.
Proof. destruct types as [?|[?|[]]]; simpl; try done; by intros [= <-]. Qed.

Section Report.
Context (merge : data → data → outcome data) (slugify : data → string)
  (uuid_v4 : nat → string) (plugins : gmap string ref).

(** X12: a rejection by the checks on the first attribute of a type with
    a string identifier is still the state of the promise when the
    callback for that type ends: no later check, and no exception,
    replaces it. *)
Theorem first_attribute_rejection_stays type st identifier a rest e :
  hasOwnProperty (load (st_heap st) type) "identifier" = Ret true →
  get (load (st_heap st) type) "identifier" = Ret identifier →
  typeof_string identifier = true →
  get (load (st_heap st) type) "attributes" = Ret (VArr (a :: rest)) →
  st_promise (validate slugify plugins type [] a st).2 = Rejected e →
  st_promise (process_type merge slugify uuid_v4 plugins type st).2
  = Rejected e.
Proof.
  intros Hi Hident Hts Hattrs He. unfold process_type.
  erewrite mbind_has_prop by done. cbn [negb]. run.
  erewrite mbind_has_prop by done. cbn [negb]. run.
  rewrite Hts. cbn [negb]. run. cbn [map_attributes]. unfold resolve_attribute.
  run. apply mbind_rejected; [done|]. intros ids. keeps_tac'.
Qed.

(** X13: when the callback for the first element of [types] leaves the
    promise rejected, the promise [squish] returns is rejected with that
    same error, whatever the later elements do. *)
Theorem first_type_rejection_is_reported types h n t ts e st :
  array_elements types = Some (t :: ts) →
  st_promise (process_type merge slugify uuid_v4 plugins t (State h Pending n)).2
  = Rejected e →
  squish merge slugify uuid_v4 plugins types h n = Some st →
  st_promise st = Rejected e.
Proof.
  intros [Hmap Harr]%(types_map_elements _ _
                        (process_type merge slugify uuid_v4 plugins)) He.
  unfold squish, executor. rewrite Harr, Hmap. cbn [negb]. run.
  assert (st_promise
            (mmap (process_type merge slugify uuid_v4 plugins) (t :: ts)
               (State h Pending n)).2 = Rejected e) as Hm.
  { cbn [mmap]. apply mbind_rejected; [done|]. intros v.
    pose proof (keeps_promise_process_type merge slugify uuid_v4 plugins).
    keeps_tac'. }
  unfold mbind.
  destruct (mmap _ (t :: ts) _) as [[c|e'|] st1]; simpl in *; [| |done].
  - intros [= <-]. rewrite settle_settled; [done|]. by rewrite Hm.
  - intros [= <-]. rewrite settle_settled; [done|]. by rewrite Hm.
Qed.

(** X14: the promise is fulfilled exactly when [types] is an array, the
    callback returned for each of its elements, and none of them called
    [reject]; it is then fulfilled with the values the callbacks
    returned. *)
Theorem squish_fulfilled_iff types h n st configured :
  (squish merge slugify uuid_v4 plugins types h n = Some st ∧
   st_promise st = Fulfilled configured) ↔
  (∃ l h' n',
     array_elements types = Some l ∧
     mmap (process_type merge slugify uuid_v4 plugins) l (State h Pending n)
     = (Ret configured, State h' Pending n') ∧
     st = State h' (Fulfilled configured) n').
Proof.
  split.
  - intros [Hs Hf]. destruct (squish_Fulfilled _ _ _ _ _ _ _ _ _ Hs Hf)
      as (l & Hl & Hm).
    exists l, (st_heap st), (st_uuid st). repeat split; [done..|].
    destruct st; simpl in *; by subst.
  - intros (l & h' & n' & Hl & Hm & ->).
    apply (types_map_elements _ _ (process_type merge slugify uuid_v4 plugins))
      in Hl as [Hmap Harr].
    unfold squish, executor. rewrite Harr, Hmap. cbn [negb]. run.
    erewrite mbind_run by done. done.
Qed.

(** X15: when the executor ends, the promise is settled: fulfilled or
    rejected, never left pending. *)
Theorem squish_settles types h n st :
  squish merge slugify uuid_v4 plugins types h n = Some st →
  st_promise st ≠ Pending.
Proof.
  assert (∀ p s, p ≠ Pending → st_promise (settle p s) ≠ Pending) as Hsettle.
  { intros p s Hne. unfold settle. destruct (st_promise s) eqn:E; simpl;
      by rewrite ?E. }
  unfold squish.
  destruct (executor _ _ _ _ types _) as [[[]|e|] st1] eqn:E; [| |done].
  - intros [= <-]. unfold executor in E.
    apply mbind_Ret in E as ([] & st2 & _ & E).
    apply mbind_Ret in E as (configured & st3 & _ & E).
    injection E as <-. by apply Hsettle.
  - intros [= <-]. by apply Hsettle.
Qed.

(** X21: an attribute whose [type] names no plugin of the catalog is
    never resolved: the callback of a type that has such an attribute
    does not return, and the type object is not written. *)
Theorem unknown_plugin_never_resolved type st l a ty tys :
  get (load (st_heap st) type) "attributes" = Ret (VArr l) → a ∈ l →
  get a "type" = Ret ty → to_string ty = Ret tys →
  plugins !! ("input-plugin-" +:+ tys) = None →
  (∀ v, (process_type merge slugify uuid_v4 plugins type st).1 ≠ Ret v) ∧
  st_heap (process_type merge slugify uuid_v4 plugins type st).2 = st_heap st.
Proof.
  intros Hl Ha Hty Htys Hnone.
  assert (∀ v, (process_type merge slugify uuid_v4 plugins type st).1 ≠ Ret v)
    as Hnot.
  { intros v Hv.
    destruct (process_type merge slugify uuid_v4 plugins type st)
      as [o st'] eqn:E.
    simpl in Hv. subst o.
    apply process_type_Ret in E as (l' & attrs & Hl' & HF & _).
    rewrite Hl in Hl'. injection Hl' as <-.
    apply list_elem_of_lookup in Ha as [i Hi].
    destruct (Forall2_lookup_l _ _ _ _ _ HF Hi) as (p & _ & Hp).
    destruct Hp as (ids & st0 & ids' & st0' & _ & Hres).
    apply resolve_attribute_Ret in Hres
      as (st1 & p0 & p1 & _ & _ & _ & _ & _ & Ht & Hc & _).
    apply template_Ret in Ht as (ty' & tys' & Hty' & Htys' & Hp0 & _).
    rewrite Hty in Hty'. injection Hty' as <-.
    rewrite Htys in Htys'. injection Htys' as <-.
    rewrite Hnone in Hp0. subst p0. by apply configure_undefined in Hc. }
  split; [done|]. by apply writes_on_return_process_type.
Qed.

(** X22: when the first element of [types] has a string identifier but
    its [attributes] is not an array, the run ends at once: the promise
    is rejected with the [TypeError] of the failed [map] call, no
    identifier is drawn and nothing is written. *)
Theorem attributes_not_an_array types h n t ts identifier v :
  array_elements types = Some (t :: ts) →
  hasOwnProperty (load h t) "identifier" = Ret true →
  get (load h t) "identifier" = Ret identifier →
  typeof_string identifier = true →
  get (load h t) "attributes" = Ret v → (∀ l, v ≠ VArr l) →
  squish merge slugify uuid_v4 plugins types h n
  = Some (State h (Rejected TypeError) n).
Proof.
  intros [Hmap Harr]%(types_map_elements _ _
                        (process_type merge slugify uuid_v4 plugins))
         Hi Hident Hts Hattrs Hv.
  assert (process_type merge slugify uuid_v4 plugins t (State h Pending n)
          = (Throw TypeError, State h Pending n)) as Hpt.
  { unfold process_type.
    erewrite mbind_has_prop by done. cbn [negb]. run.
    erewrite mbind_has_prop by done. cbn [negb]. run.
    rewrite Hts. cbn [negb]. run.
    destruct v; try done. by destruct (Hv l). }
  unfold squish, executor. rewrite Harr, Hmap. cbn [negb]. run.
  cbn [mmap]. unfold mbind at 1 2. by rewrite Hpt.
Qed.

End Report.

(** * The resolved attribute, stage by stage *)

Global Instance same_uuid_preorder : PreOrder same_uuid.
Proof. split; [done|]. intros x y z H1 H2. unfold same_uuid in *. congruence. Qed.

Lemma keeps_uuid_reject e : keeps same_uuid (reject e).
Proof. intros st. apply settle_uuid. Qed.

Lemma keeps_uuid_prop v k : keeps same_uuid (prop v k).
Proof. by intros st. Qed.

#[export] Hint Resolve keeps_uuid_reject keeps_uuid_prop : keeps.

Lemma keeps_uuid_validate slugify plugins type ids attribute :
  keeps same_uuid (validate slugify plugins type ids attribute).
Proof. unfold validate. keeps_tac. Qed.

Lemma configure_fields type attribute plugin st p' st' :
  configure type attribute plugin st = (Ret p', st') →
  ∃ name description ty,
    get attribute "name" = Ret name ∧
    get attribute "description" = Ret description ∧
    get attribute "type" = Ret ty ∧
    get p' "name" = (if truthy name then Ret name else get plugin "name") ∧
    get p' "description"
    = (if truthy description then Ret description
       else get plugin "description") ∧
    get p' "type" = Ret ty.
Proof.
  unfold configure. intros H.
  apply mbind_Ret in H as (name & ? & [Hn ->]%lift_Ret & H).
  apply mbind_Ret in H as (p1 & ? & [H1 ->]%lift_Ret & H).
  apply mbind_Ret in H as (description & ? & [Hd ->]%lift_Ret & H).
  apply mbind_Ret in H as (p2 & ? & [H2 ->]%lift_Ret & H).
  apply mbind_Ret in H as (required & ? & [Hr ->]%lift_Ret & H).
  apply mbind_Ret in H as (p3 & ? & [H3 ->]%lift_Ret & H).
  apply mbind_Ret in H as (id & ? & [Hi ->]%lift_Ret & H).
  apply mbind_Ret in H as (identifier & ? & [Hident ->]%prop_Ret & H).
  apply mbind_Ret in H as (p4 & ? & [H4 ->]%lift_Ret & H).
  apply mbind_Ret in H as (p5 & ? & [H5 ->]%lift_Ret & H).
  apply mbind_Ret in H as (ty & ? & [Hty ->]%lift_Ret & H).
  apply lift_Ret in H as [H6 _].
  exists name, description, ty. repeat split; try done.
  - erewrite (get_set_ne p5) by done. erewrite (get_set_ne p4) by done.
    erewrite (get_cond_set_ne _ p3) by done.
    erewrite (get_cond_set_ne _ p2) by done.
    erewrite (get_cond_set_ne _ p1) by done.
    destruct (truthy name); [by eapply get_set_eq|]. by injection H1 as ->.
  - erewrite (get_set_ne p5) by done. erewrite (get_set_ne p4) by done.
    erewrite (get_cond_set_ne _ p3) by done.
    erewrite (get_cond_set_ne _ p2) by done.
    destruct (truthy description).
    + by eapply get_set_eq.
    + injection H2 as ->. by erewrite (get_cond_set_ne _ plugin).
  - by eapply get_set_eq.
Qed.

Lemma default_label_single plugin plugin' inputs k :
  default_label plugin = Ret plugin' →
  get plugin "inputs" = Ret inputs → own_keys inputs = Ret [k] →
  ∃ name b c inputs',
    get plugin "name" = Ret name ∧ get inputs k = Ret b ∧
    set b "label" name = Ret c ∧
    get plugin' "inputs" = Ret inputs' ∧ own_keys inputs' = Ret [k] ∧
    get inputs' k = Ret c.
Proof.
  unfold default_label. intros H Hi Hks. rewrite Hi in H. simpl in H.
  rewrite Hks in H. simpl in H.
  apply obind_Ret in H as (name & Hname & H).
  apply set_in_Ret in H as (inputs0 & inputs' & Hi0 & H & Hset).
  assert (inputs0 = inputs) as -> by congruence.
  apply set_in_Ret in H as (b & c & Hb & Hc & Hset').
  exists name, b, c, inputs'. split; [done|]. split; [done|]. split; [done|].
  split; [by eapply get_set_eq|].
  split; [eapply own_keys_set; [done..|left]|by eapply get_set_eq].
Qed.

Lemma default_label_many plugin plugin' inputs ks :
  default_label plugin = Ret plugin' →
  get plugin "inputs" = Ret inputs → own_keys inputs = Ret ks →
  length ks ≠ 1%nat → plugin' = plugin.
Proof.
  unfold default_label. intros H Hi Hks Hlen. rewrite Hi in H. simpl in H.
  rewrite Hks in H. simpl in H. rewrite bool_decide_false in H by done.
  by injection H.
Qed.

Lemma merge_inputs_keys merge attribute plugin plugin' inputs ks :
  merge_inputs merge attribute plugin = Ret plugin' →
  get plugin "inputs" = Ret inputs → own_keys inputs = Ret ks →
  ∃ inputs',
    get plugin' "inputs" = Ret inputs' ∧ own_keys inputs' = Ret ks ∧
    ∀ k, ¬ overridden attribute k → get inputs' k = get inputs k.
Proof.
  unfold merge_inputs. intros H Hi Hks.
  apply obind_Ret in H as (overrides & Hov & H).
  destruct (truthy overrides) eqn:Ht.
  - apply obind_Ret in H as (ko & Hko & H).
    eapply merge_inputs_fold in H as (inputs' & Hi' & Hk' & Hout & _);
      [|by eapply own_keys_NoDup|done..].
    exists inputs'. split; [done|]. split; [done|].
    intros k Hk. apply Hout. intros Hin. apply Hk. by exists overrides, ko.
  - injection H as <-. by exists inputs.
Qed.



(** What the later stages leave of the configured plugin. *)
Lemma stages_outside merge uuid_v4 attribute p1 p2 p3 p4 st1 st' plugin :
  default_label p1 = Ret p2 →
  merge_inputs merge attribute p2 = Ret p3 →
  assign_ids uuid_v4 p3 st1 = (Ret p4, st') →
  expand_repeatable attribute p4 = Ret plugin →
  outside ["inputs"] p1 p3 ∧ outside ["inputs"] p1 p4 ∧
  outside ["repeatable"; "inputs"] p1 plugin.
Proof.
  intros Hd%default_label_outside Hm%merge_inputs_outside
         Ha%assign_ids_outside He%expand_repeatable_outside.
  assert (outside ["inputs"] p1 p3) as H3 by by eapply outside_trans.
  assert (outside ["inputs"] p1 p4) as H4 by by eapply outside_trans.
  split; [done|]. split; [done|].
  eapply outside_trans; [|done]. eapply outside_weaken; [|done]. solve_elem.
Qed.

Section AttributeStages.
Context (merge : data → data → outcome data) (slugify : data → string)
  (uuid_v4 : nat → string) (plugins : gmap string ref).

(** The stages a resolved attribute went through, from its template. *)
Lemma resolve_attribute_stages type ids attribute st plugin ids' st' template :
  resolve_attribute merge slugify uuid_v4 plugins type ids attribute st
  = (Ret (plugin, ids'), st') →
  template_of plugins (st_heap st) attribute template →
  ∃ st1 p1 p2 p3 p4,
    st_uuid st1 = st_uuid st ∧ st_heap st1 = st_heap st ∧
    configure type attribute template st1 = (Ret p1, st1) ∧
    default_label p1 = Ret p2 ∧
    merge_inputs merge attribute p2 = Ret p3 ∧
    assign_ids uuid_v4 p3 st1 = (Ret p4, st') ∧
    expand_repeatable attribute p4 = Ret plugin.
Proof.
  intros (st1 & p0 & p1 & p2 & p3 & p4 & st2 & Hv & Ht & Hc & Hd & Hm & Ha & He
          & -> & Hh1 & Hh2)%resolve_attribute_Ret
         (ty & tys & r & ps & Hty & Htys & Hr & Hps & ->).
  apply template_Ret in Ht as (ty' & tys' & Hty' & Htys' & Hp0 & _).
  rewrite Hty in Hty'. injection Hty' as <-.
  rewrite Htys in Htys'. injection Htys' as <-.
  rewrite Hr, Hh1 in Hp0. simpl in Hp0. rewrite Hps in Hp0. subst p0.
  pose proof (keeps_uuid_validate slugify plugins type ids attribute st) as K.
  rewrite Hv in K.
  exists st1, p1, p2, p3, p4. done.
Qed.

(** X16: the resolved attribute has the attribute's [name] and
    [description] when these are truthy and the template's otherwise,
    and always the attribute's [type]. *)
Theorem resolved_name_description_type type ids attribute st plugin ids' st'
    template :
  resolve_attribute merge slugify uuid_v4 plugins type ids attribute st
  = (Ret (plugin, ids'), st') →
  template_of plugins (st_heap st) attribute template →
  ∃ name description ty,
    get attribute "name" = Ret name ∧
    get attribute "description" = Ret description ∧
    get attribute "type" = Ret ty ∧
    get plugin "name" = (if truthy name then Ret name else get template "name") ∧
    get plugin "description"
    = (if truthy description then Ret description
       else get template "description") ∧
    get plugin "type" = Ret ty.
Proof.
  intros Hres Ht.
  destruct (resolve_attribute_stages _ _ _ _ _ _ _ _ Hres Ht)
    as (st1 & p1 & p2 & p3 & p4 & _ & _ & Hc & Hd & Hm & Ha & He).
  destruct (stages_outside _ _ _ _ _ _ _ _ _ _ Hd Hm Ha He) as (_ & _ & Hout).
  apply configure_fields in Hc
    as (name & description & ty & Hn & Hdesc & Hty & Hpn & Hpd & Hpt).
  exists name, description, ty.
  rewrite !Hout by solve_nelem. done.
Qed.


(** X18: the resolved attribute has exactly the inputs of the template,
    in the template's order, so an override for a key the template does
    not have adds no input; and an input that the attribute does not
    override is the template's input with an id and a name assigned, and
    with a label when it is the only input. *)
Theorem inputs_follow_template type ids attribute st plugin ids' st'
    template inputs ks :
  resolve_attribute merge slugify uuid_v4 plugins type ids attribute st
  = (Ret (plugin, ids'), st') →
  template_of plugins (st_heap st) attribute template →
  get template "inputs" = Ret inputs → own_keys inputs = Ret ks →
  ∃ resolved resolved_inputs,
    expand_repeatable attribute resolved = Ret plugin ∧
    get resolved "inputs" = Ret resolved_inputs ∧
    own_keys resolved_inputs = Ret ks ∧
    ∀ k, k ∈ ks → ¬ overridden attribute k →
      ∃ b c, get inputs k = Ret b ∧ get resolved_inputs k = Ret c ∧
        ∀ key, key ≠ "id" → key ≠ "name" →
               (key = "label" → length ks ≠ 1%nat) →
               get c key = get b key.
Proof.
  intros Hres Ht Hi Hks.
  destruct (resolve_attribute_stages _ _ _ _ _ _ _ _ Hres Ht)
    as (st1 & p1 & p2 & p3 & p4 & _ & _ & Hc & Hd & Hm & Ha & He).
  apply configure_Ret in Hc as (_ & _ & _ & _ & _ & _ & _ & _ & Hout).
  assert (get p1 "inputs" = Ret inputs) as Hi1.
  { rewrite Hout; [done|]. solve_nelem. }
  pose proof Hd as Hd'.
  eapply default_label_inputs in Hd as (inputs2 & Hi2 & Hk2 & Hl2); [|done..].
  eapply merge_inputs_keys in Hm as (inputs3 & Hi3 & Hk3 & Hl3); [|done..].
  eapply assign_ids_inputs in Ha as (inputs4 & Hi4 & Hk4 & Hl4); [|done..].
  exists p4, inputs4. split; [done|]. split; [done|]. split; [done|].
  intros k Hk Hnov.
  destruct (Hl2 _ Hk) as (b & b2 & Hb & Hb2 & Hlab).
  destruct (Hl4 _ Hk) as (b3 & c & Hb3 & Hc & Hident).
  rewrite Hl3, Hb2 in Hb3 by done. injection Hb3 as <-.
  exists b, c. split; [done|]. split; [done|].
  intros key Hkey1 Hkey2 Hlabel.
  rewrite (identified_get b2 c) by done.
  destruct (decide (key = "label")) as [->|Hne].
  - eapply default_label_many in Hd' as ->; [|done..|by apply Hlabel].
    congruence.
  - by apply labelled_get.
Qed.

(** X19: when the template has a single input and the attribute does not
    override it, the label of that input is the resolved attribute's name
    (lines 117-121). *)
Theorem single_input_label type ids attribute st plugin ids' st'
    template inputs k :
  resolve_attribute merge slugify uuid_v4 plugins type ids attribute st
  = (Ret (plugin, ids'), st') →
  template_of plugins (st_heap st) attribute template →
  get template "inputs" = Ret inputs → own_keys inputs = Ret [k] →
  ¬ overridden attribute k →
  ∃ resolved resolved_inputs c,
    expand_repeatable attribute resolved = Ret plugin ∧
    get resolved "inputs" = Ret resolved_inputs ∧
    get resolved_inputs k = Ret c ∧
    get c "label" = get plugin "name".
Proof.
  intros Hres Ht Hi Hks Hnov.
  destruct (resolve_attribute_stages _ _ _ _ _ _ _ _ Hres Ht)
    as (st1 & p1 & p2 & p3 & p4 & _ & _ & Hc & Hd & Hm & Ha & He).
  destruct (stages_outside _ _ _ _ _ _ _ _ _ _ Hd Hm Ha He) as (_ & _ & Hout').
  apply configure_Ret in Hc as (_ & _ & _ & _ & _ & _ & _ & _ & Hout).
  assert (get p1 "inputs" = Ret inputs) as Hi1.
  { rewrite Hout; [done|]. solve_nelem. }
  eapply default_label_single in Hd
    as (name & b & b2 & inputs2 & Hname & Hb & Hset & Hi2 & Hk2 & Hb2); [|done..].
  eapply merge_inputs_keys in Hm as (inputs3 & Hi3 & Hk3 & Hl3); [|done..].
  eapply assign_ids_inputs in Ha as (inputs4 & Hi4 & Hk4 & Hl4); [|done..].
  destruct (Hl4 k ltac:(left)) as (b3 & c & Hb3 & Hc & Hident).
  rewrite Hl3, Hb2 in Hb3 by done. injection Hb3 as <-.
  exists p4, inputs4, c. split; [done|]. split; [done|]. split; [done|].
  rewrite (identified_get b2 c) by done.
  rewrite Hout', Hname by solve_nelem.
  by eapply get_set_eq.
Qed.

End AttributeStages.

(** * The required level of an overridden input (lines 144-149) *)

Lemma input_required_plugin merged plugin plugin' c :
  get plugin' "required" = get plugin "required" →
  input_required merged plugin c → input_required merged plugin' c.
Proof. intros E [H1 H2]. split; [done|]. intros ?. rewrite E. by apply H2. Qed.

Section InputRequired.
Context (merge : data → data → outcome data).

Lemma merge_input_required overrides plugin attr plugin' defaults ks :
  merge_input merge overrides plugin attr = Ret plugin' →
  get plugin "inputs" = Ret defaults → own_keys defaults = Ret ks →
  attr ∈ ks →
  ∃ default override merged resolved resolved_inputs,
    get defaults attr = Ret default ∧
    get overrides attr = Ret override ∧
    merge default override = Ret merged ∧
    get plugin' "inputs" = Ret resolved_inputs ∧
    get resolved_inputs attr = Ret resolved ∧
    input_required merged plugin resolved.
Proof.
  unfold merge_input. intros H Hd Hks Hin.
  rewrite Hd in H. simpl in H. rewrite Hks in H. simpl in H.
  rewrite bool_decide_true in H by done.
  apply obind_Ret in H as (default & Hdef & H).
  apply obind_Ret in H as (override & Hov & H).
  apply obind_Ret in H as (merged & Hm & H).
  apply obind_Ret in H as (validation & Hv & H).
  apply obind_Ret in H as (m1 & H1 & H).
  apply obind_Ret in H as (ty & Hty & H).
  apply obind_Ret in H as (m2 & H2 & H).
  apply obind_Ret in H as (hs & Hhs & H).
  apply obind_Ret in H as (m3 & H3 & H).
  apply obind_Ret in H as (ho & Hho & H).
  apply obind_Ret in H as (m4 & H4 & H).
  apply obind_Ret in H as (hr & Hhr & H).
  apply obind_Ret in H as (m5 & H5 & H).
  apply obind_Ret in H as (inputs2 & Hi2 & H).
  assert (∀ k, k ≠ "script" → k ≠ "options" → get m4 k = get m2 k) as G42.
  { intros k ??. destruct ho, hs; repeat inv_step;
      repeat match goal with
             | E : Ret _ = Ret _ |- _ => injection E as <-
             end;
      repeat (erewrite get_set_ne by done); done. }
  assert (∀ k, k ≠ "script" → k ≠ "options" →
               hasOwnProperty m4 k = hasOwnProperty m2 k) as P42.
  { intros k ??. destruct ho, hs; repeat inv_step;
      repeat match goal with
             | E : Ret _ = Ret _ |- _ => injection E as <-
             end;
      repeat (erewrite has_set_ne by done); done. }
  exists default, override, merged, m5, inputs2.
  split; [done|]. split; [done|]. split; [done|].
  split; [by eapply get_set_eq|]. split; [by eapply get_set_eq|].
  rewrite P42 in Hhr by done.
  erewrite (has_set_ne m1) in Hhr by done.
  erewrite (has_set_ne merged) in Hhr by done.
  split; intros Hhas; rewrite Hhr in Hhas; injection Hhas as ->; simpl in H5;
    apply obind_Ret in H5 as (r & Hr & H5).
  - exists r. split; [|by eapply get_set_eq].
    rewrite G42 in Hr by done.
    erewrite (get_set_ne m1) in Hr by done.
    by erewrite (get_set_ne merged) in Hr.
  - rewrite Hr. by eapply get_set_eq.
Qed.

Lemma merge_inputs_fold_required overrides l : ∀ plugin plugin' defaults ks,
  NoDup l →
  ofold (merge_input merge overrides) plugin l = Ret plugin' →
  get plugin "inputs" = Ret defaults → own_keys defaults = Ret ks →
  ∀ attr, attr ∈ l → attr ∈ ks →
    ∃ default override merged resolved resolved_inputs,
      get defaults attr = Ret default ∧
      get overrides attr = Ret override ∧
      merge default override = Ret merged ∧
      get plugin' "inputs" = Ret resolved_inputs ∧
      get resolved_inputs attr = Ret resolved ∧
      input_required merged plugin resolved.
Proof.
  induction l as [|a l IH]; intros plugin plugin' defaults ks Hnd; simpl.
  - by intros _ _ _ ? ?%elem_of_nil.
  - intros H Hd Hks attr Hattr Hin. apply obind_Ret in H as (plugin1 & H1 & H).
    apply NoDup_cons in Hnd as [Ha Hnd].
    pose proof (merge_input_outside _ _ _ _ _ H1) as Hout1.
    destruct (decide (a ∈ ks)) as [Hain|Hnin].
    + pose proof H1 as H1'.
      eapply merge_input_Ret in H1'
        as (_ & _ & _ & _ & inputs1 & _ & _ & _ & Hi1 & Hk1 & Hother & _);
        [|done..].
      eapply merge_inputs_fold in H as Hfold; [|done..].
      destruct Hfold as (inputs' & Hi' & _ & Hrest & _).
      apply elem_of_cons in Hattr as [->|Hattr].
      * eapply merge_input_required in H1
          as (default & override & merged & resolved & inputs1' & Hdef & Hov
              & Hm & Hi1' & Hres & Hreq); [|done..].
        rewrite Hi1 in Hi1'. injection Hi1' as <-.
        exists default, override, merged, resolved, inputs'.
        split; [done|]. split; [done|]. split; [done|]. split; [done|].
        split; [by rewrite Hrest|done].
      * eapply IH in H as (d & o & m & r & ri & Hd' & ? & ? & ? & ? & Hreq);
          [|done..].
        exists d, o, m, r, ri. rewrite <- Hother; [|by intros ->].
        split; [done|]. split; [done|]. split; [done|]. split; [done|].
        split; [done|]. eapply input_required_plugin; [|done].
        symmetry. apply Hout1. solve_nelem.
    + pose proof H1 as H1'.
      eapply merge_input_skip in H1' as ->; [|done..].
      apply elem_of_cons in Hattr as [->|Hattr]; [done|].
      by eapply IH.
Qed.

End InputRequired.

Section ResolvedRequired.
Context (merge : data → data → outcome data) (slugify : data → string)
  (uuid_v4 : nat → string) (plugins : gmap string ref).

(** X20: for an input that the attribute overrides and the template has,
    the resolved input's [required] is [requiredLevel] of the merged
    value when the deep merge of the input and its override has a
    [required] of its own, and the resolved attribute's own required
    level when it has none (lines 144-149).  For a repeatable attribute
    this is the input the instances are copied from. *)
Theorem overridden_input_required type ids attribute st plugin ids' st'
    template inputs ks overrides ko k :
  resolve_attribute merge slugify uuid_v4 plugins type ids attribute st
  = (Ret (plugin, ids'), st') →
  template_of plugins (st_heap st) attribute template →
  get template "inputs" = Ret inputs → own_keys inputs = Ret ks → k ∈ ks →
  get attribute "inputs" = Ret overrides → truthy overrides = true →
  own_keys overrides = Ret ko → k ∈ ko →
  ∃ resolved resolved_inputs b default override merged c,
    expand_repeatable attribute resolved = Ret plugin ∧
    get resolved "inputs" = Ret resolved_inputs ∧
    get inputs k = Ret b ∧ labelled b default ∧
    get overrides k = Ret override ∧
    merge default override = Ret merged ∧
    get resolved_inputs k = Ret c ∧
    input_required merged plugin c.
Proof.
  intros Hres Ht Hi Hks Hk Hov Htov Hko Hk'.
  destruct (resolve_attribute_stages _ _ _ _ _ _ _ _ _ _ _ _ Hres Ht)
    as (st1 & p1 & p2 & p3 & p4 & _ & _ & Hc & Hd & Hm & Ha & He).
  pose proof (merge_inputs_outside _ _ _ _ Hm) as Hout23.
  pose proof (assign_ids_outside _ _ _ _ _ Ha) as Hout34.
  pose proof (expand_repeatable_outside _ _ _ He) as Hout45.
  apply configure_Ret in Hc as (_ & _ & _ & _ & _ & _ & _ & _ & Hout).
  assert (get p1 "inputs" = Ret inputs) as Hi1.
  { rewrite Hout; [done|]. solve_nelem. }
  eapply default_label_inputs in Hd as (inputs2 & Hi2 & Hk2 & Hl2); [|done..].
  destruct (Hl2 _ Hk) as (b & default & Hb & Hdef & Hlab).
  unfold merge_inputs in Hm. rewrite Hov in Hm. simpl in Hm.
  rewrite Htov, Hko in Hm. simpl in Hm.
  pose proof Hm as Hm'.
  eapply merge_inputs_fold in Hm' as (inputs3 & Hi3 & Hk3 & _);
    [|by eapply own_keys_NoDup|done..].
  eapply merge_inputs_fold_required in Hm
    as (default' & override & merged & c3 & inputs3' & Hdef' & Hover & Hmerged
        & Hi3' & Hc3 & Hreq); [|by eapply own_keys_NoDup|done..].
  rewrite Hdef in Hdef'. injection Hdef' as <-.
  rewrite Hi3 in Hi3'. injection Hi3' as <-.
  eapply assign_ids_inputs in Ha as (inputs4 & Hi4 & Hk4 & Hl4); [|done..].
  destruct (Hl4 _ Hk) as (c3' & c & Hc3' & Hc4 & Hident).
  rewrite Hc3 in Hc3'. injection Hc3' as <-.
  exists p4, inputs4, b, default, override, merged, c.
  split; [done|]. split; [done|]. split; [done|]. split; [done|].
  split; [done|]. split; [done|]. split; [done|].
  destruct Hreq as [Hreq1 Hreq2]. split.
  - intros Hhas. destruct (Hreq1 Hhas) as (r & Hr & Hcr). exists r.
    split; [done|]. by rewrite (identified_get c3 c).
  - intros Hhas. rewrite (identified_get c3 c) by done.
    rewrite Hout45, Hout34, Hout23 by solve_nelem. by apply Hreq2.
Qed.

End ResolvedRequired.

(** * The properties above on the sample input *)

Lemma validate_plugin_not_found_witness :
  st_promise (sample_validate post [] map_attribute).2
  = Rejected (PluginNotFound "geo").
Proof.
  apply (validate_plugin_not_found kebabCase sample_plugins (Ref 0%nat) []
           map_attribute (sample_state post) (VStr "geo") "geo");
    reflexivity.
Defined.

Lemma validate_missing_name_witness :
  st_promise (sample_validate post [] nameless).2
  = Rejected (MissingAttributeName "slug" "Post").
Proof.
  apply (validate_missing_name kebabCase sample_plugins (Ref 0%nat) []
           nameless (sample_state post) (VStr "text") "text" true
           (VStr "slug") "slug" (VStr "Post") "Post");
    try reflexivity.
  eexists; vm_compute; reflexivity.
Defined.

Lemma validate_missing_id_witness :
  st_promise (sample_validate post [] idless).2
  = Rejected (MissingAttributeId "Body" "Post").
Proof.
  apply (validate_missing_id kebabCase sample_plugins (Ref 0%nat) []
           idless (sample_state post) (VStr "text") "text"
           (VStr "Body") "Body" (VStr "Post") "Post");
    try reflexivity.
  eexists; vm_compute; reflexivity.
Defined.

Lemma validate_duplicate_id_witness :
  st_promise (sample_validate post [VStr "slug"] slug_attribute).2
  = Rejected (DuplicateAttributeId "slug" "Post" "Slug").
Proof.
  apply (validate_duplicate_id kebabCase sample_plugins (Ref 0%nat)
           [VStr "slug"] slug_attribute (sample_state post) (VStr "text") "text"
           (VStr "slug") "slug" (VStr "Slug") "Slug" (VStr "Post") "Post");
    try reflexivity.
  eexists; vm_compute; reflexivity.
Defined.

Lemma validate_non_kebab_id_witness :
  st_promise (sample_validate post [] spaced).2
  = Rejected (NonKebabCaseId "My Id" "my-id").
Proof.
  apply (validate_non_kebab_id kebabCase sample_plugins (Ref 0%nat) []
           spaced (sample_state post) (VStr "text") "text"
           (VStr "My Id") "My Id");
    try reflexivity.
  - eexists; vm_compute; reflexivity.
  - vm_compute. discriminate.
Defined.

Lemma validate_pending_iff_witness :
  sample_validate post [] slug_attribute
  = (Ret ([] ++ [VStr "slug"]), sample_state post) ∧
  st_promise (sample_state post) = Pending.
Proof.
  apply (validate_pending_iff kebabCase sample_plugins (Ref 0%nat) []
           slug_attribute (sample_state post) ([] ++ [VStr "slug"])
           (sample_state post) eq_refl).
  exists (VStr "slug"). split; [|split; reflexivity].
  exists (VStr "text"), "text". repeat split; try reflexivity.
  eexists; vm_compute; reflexivity.
Defined.

Lemma process_type_missing_identifier_witness :
  st_promise (sample_process page_without_identifier).2
  = Rejected (MissingIdentifierField "Page").
Proof.
  apply (process_type_missing_identifier deepmerge kebabCase uuid_seq
           sample_plugins (Ref 0%nat) (sample_state page_without_identifier)
           (VStr "Page") "Page");
    reflexivity.
Defined.

Lemma process_type_identifier_not_string_witness :
  st_promise (sample_process page_numbered).2
  = Rejected (InvalidIdentifierType "Page").
Proof.
  apply (process_type_identifier_not_string deepmerge kebabCase uuid_seq
           sample_plugins (Ref 0%nat) (sample_state page_numbered)
           (VNum 7) (VStr "Page") "Page");
    reflexivity.
Defined.


Lemma fulfilled_ids_distinct_kebab_witness :
  ∃ st attrs,
    sample_squish (Arr [Ref 0%nat]) (sample_heap post) = Some st ∧
    st_promise st = Fulfilled [Ref 0%nat] ∧
    get (load (st_heap st) (Ref 0%nat)) "attributes" = Ret (VArr attrs) ∧
    distinct_kebab_ids kebabCase attrs.
Proof.
  assert (∃ st, sample_squish (Arr [Ref 0%nat]) (sample_heap post) = Some st ∧
                st_promise st = Fulfilled [Ref 0%nat]) as (st & Hs & Hf)
    by (eexists; split; [vm_compute; reflexivity|reflexivity]).
  destruct (fulfilled_ids_distinct_kebab deepmerge kebabCase uuid_seq
              sample_plugins (Arr [Ref 0%nat]) (sample_heap post) 0 st
              [Ref 0%nat] (Ref 0%nat) Hs Hf ltac:(left)) as (attrs & Ha & Hd).
  exists st, attrs. repeat split; assumption.
Defined.

Lemma fulfilled_identifier_single_input_witness :
  ∃ st,
    sample_squish (Arr [Ref 0%nat]) (sample_heap post) = Some st ∧
    st_promise st = Fulfilled [Ref 0%nat] ∧
    single_input_identifier (load (st_heap st) (Ref 0%nat)).
Proof.
  assert (∃ st, sample_squish (Arr [Ref 0%nat]) (sample_heap post) = Some st ∧
                st_promise st = Fulfilled [Ref 0%nat]) as (st & Hs & Hf)
    by (eexists; split; [vm_compute; reflexivity|reflexivity]).
  exists st. split; [assumption|]. split; [assumption|].
  exact (fulfilled_identifier_single_input deepmerge kebabCase uuid_seq
           sample_plugins (Arr [Ref 0%nat]) (sample_heap post) 0 st
           [Ref 0%nat] (Ref 0%nat) Hs Hf ltac:(left)).
Defined.

Lemma first_attribute_rejection_stays_witness :
  st_promise (sample_process draft).2
  = Rejected (MissingAttributeName "slug" "Draft").
Proof.
  apply (first_attribute_rejection_stays deepmerge kebabCase uuid_seq
           sample_plugins (Ref 0%nat) (sample_state draft) (VStr "slug")
           nameless
           [VObj [("id", VStr "body"); ("type", VStr "text");
                  ("name", VStr "Body")]]);
    reflexivity.
Defined.

Lemma first_type_rejection_is_reported_witness :
  ∃ st,
    sample_squish (Arr [Ref 0%nat]) (sample_heap draft) = Some st ∧
    st_promise st = Rejected (MissingAttributeName "slug" "Draft").
Proof.
  eexists. split; [vm_compute; reflexivity|].
  apply (first_type_rejection_is_reported deepmerge kebabCase uuid_seq
           sample_plugins (Arr [Ref 0%nat]) (sample_heap draft) 0
           (Ref 0%nat) []).
  - reflexivity.
  - vm_compute; reflexivity.
  - vm_compute; reflexivity.
Defined.

Lemma squish_settles_witness :
  ∃ st,
    sample_squish (Arr [Ref 0%nat]) (sample_heap draft) = Some st ∧
    st_promise st ≠ Pending.
Proof.
  eexists. split; [vm_compute; reflexivity|].
  apply (squish_settles deepmerge kebabCase uuid_seq sample_plugins
           (Arr [Ref 0%nat]) (sample_heap draft) 0).
  vm_compute; reflexivity.
Defined.

Lemma unknown_plugin_never_resolved_witness :
  (∀ v, (sample_process atlas).1 ≠ Ret v) ∧
  st_heap (sample_process atlas).2 = sample_heap atlas.
Proof.
  apply (unknown_plugin_never_resolved deepmerge kebabCase uuid_seq
           sample_plugins (Ref 0%nat) (sample_state atlas) [map_attribute]
           map_attribute (VStr "geo") "geo");
    try reflexivity.
  left.
Defined.

Lemma attributes_not_an_array_witness :
  sample_squish (Arr [Ref 0%nat]) (sample_heap page_without_attributes)
  = Some (State (sample_heap page_without_attributes) (Rejected TypeError) 0).
Proof.
  apply (attributes_not_an_array deepmerge kebabCase uuid_seq sample_plugins
           (Arr [Ref 0%nat]) (sample_heap page_without_attributes) 0
           (Ref 0%nat) [] (VStr "slug") VUndef);
    try reflexivity.
  intros l. discriminate.
Defined.

Lemma sample_resolve_title :
  sample_resolve title
  = (Ret (title_resolved, [VStr "title"]), State (sample_heap post) Pending 1).
Proof. vm_compute; reflexivity. Defined.

Lemma sample_resolve_slug :
  sample_resolve slug_attribute
  = (Ret (slug_resolved, [VStr "slug"]), State (sample_heap post) Pending 1).
Proof. vm_compute; reflexivity. Defined.

Lemma sample_template_text attribute :
  get attribute "type" = Ret (VStr "text") →
  template_of sample_plugins (sample_heap post) attribute (VObj text_plugin).
Proof.
  intros Hty. exists (VStr "text"), "text", 10%nat, text_plugin.
  repeat split; (assumption || reflexivity).
Defined.

Lemma resolved_name_description_type_witness :
  ∃ name description ty,
    get title "name" = Ret name ∧
    get title "description" = Ret description ∧
    get title "type" = Ret ty ∧
    get title_resolved "name"
    = (if truthy name then Ret name else get (VObj text_plugin) "name") ∧
    get title_resolved "description"
    = (if truthy description then Ret description
       else get (VObj text_plugin) "description") ∧
    get title_resolved "type" = Ret ty.
Proof.
  exact (resolved_name_description_type deepmerge kebabCase uuid_seq
           sample_plugins (Ref 0%nat) [] title (State (sample_heap post) Pending 0)
           title_resolved [VStr "title"] (State (sample_heap post) Pending 1)
           (VObj text_plugin) sample_resolve_title
           (sample_template_text title eq_refl)).
Defined.


Lemma slug_not_overridden k : ¬ overridden slug_attribute k.
Proof. intros (overrides & ko & [= <-] & Ht & _). discriminate. Defined.

Lemma inputs_follow_template_witness :
  ∃ resolved resolved_inputs,
    expand_repeatable slug_attribute resolved = Ret slug_resolved ∧
    get resolved "inputs" = Ret resolved_inputs ∧
    own_keys resolved_inputs = Ret ["value"] ∧
    ∃ b c,
      get (VObj [("value",
                  VObj [("type", VStr "string");
                        ("validation", VObj [("maxLength", VNum 10)])])])
        "value" = Ret b ∧
      get resolved_inputs "value" = Ret c ∧
      get c "validation" = get b "validation".
Proof.
  destruct (inputs_follow_template deepmerge kebabCase uuid_seq
              sample_plugins (Ref 0%nat) [] slug_attribute
              (State (sample_heap post) Pending 0)
              slug_resolved [VStr "slug"] (State (sample_heap post) Pending 1)
              (VObj text_plugin) _ ["value"]
              sample_resolve_slug (sample_template_text slug_attribute eq_refl)
              eq_refl eq_refl)
    as (resolved & resolved_inputs & H1 & H2 & H3 & H4).
  exists resolved, resolved_inputs.
  split; [assumption|]. split; [assumption|]. split; [assumption|].
  destruct (H4 "value" ltac:(left) (slug_not_overridden "value"))
    as (b & c & Hb & Hc & Hkeys).
  exists b, c. split; [assumption|]. split; [assumption|].
  apply Hkeys; discriminate.
Defined.

Lemma single_input_label_witness :
  ∃ resolved resolved_inputs c,
    expand_repeatable slug_attribute resolved = Ret slug_resolved ∧
    get resolved "inputs" = Ret resolved_inputs ∧
    get resolved_inputs "value" = Ret c ∧
    get c "label" = get slug_resolved "name".
Proof.
  exact (single_input_label deepmerge kebabCase uuid_seq
           sample_plugins (Ref 0%nat) [] slug_attribute
           (State (sample_heap post) Pending 0)
           slug_resolved [VStr "slug"] (State (sample_heap post) Pending 1)
           (VObj text_plugin) _ "value"
           sample_resolve_slug (sample_template_text slug_attribute eq_refl)
           eq_refl eq_refl (slug_not_overridden "value")).
Defined.

Lemma overridden_input_required_witness :
  ∃ resolved resolved_inputs b default override merged c,
    expand_repeatable title resolved = Ret title_resolved ∧
    get resolved "inputs" = Ret resolved_inputs ∧
    get (VObj [("value",
                VObj [("type", VStr "string");
                      ("validation", VObj [("maxLength", VNum 10)])])])
      "value" = Ret b ∧
    labelled b default ∧
    get (VObj [("value",
                VObj [("validation", VObj [("maxLength", VNum 999)]);
                      ("script", VStr "custom.js");
                      ("options", VArr [VStr "A"; VStr "B"])])]) "value"
    = Ret override ∧
    deepmerge default override = Ret merged ∧
    get resolved_inputs "value" = Ret c ∧
    input_required merged title_resolved c.
Proof.
  exact (overridden_input_required deepmerge kebabCase uuid_seq
           sample_plugins (Ref 0%nat) [] title (State (sample_heap post) Pending 0)
           title_resolved [VStr "title"] (State (sample_heap post) Pending 1)
           (VObj text_plugin) _ ["value"] _ ["value"] "value"
           sample_resolve_title (sample_template_text title eq_refl)
           eq_refl eq_refl ltac:(left) eq_refl eq_refl eq_refl ltac:(left)).
Defined.

(** * Inputs on which the callback throws *)

(** X23: an identifier attribute that has no input at all passes the
    check on the number of inputs, and the check on [options] then reads
    a property of [undefined]: the callback throws a [TypeError] (line
    221).  When the attribute has a [repeatable] property the promise is
    rejected for that first. *)
Theorem identifier_without_inputs_throws type attrs st identifier name si sn
    c inputs hr :
  Forall is_object attrs →
  get (load (st_heap st) type) "identifier" = Ret identifier →
  get (load (st_heap st) type) "name" = Ret name →
  to_string identifier = Ret si → to_string name = Ret sn →
  contender_of identifier attrs = Some c →
  get c "inputs" = Ret inputs → own_keys inputs = Ret [] →
  hasOwnProperty c "repeatable" = Ret hr →
  (check_identifier type attrs st).1 = Throw TypeError ∧
  (st_promise st = Pending →
   st_promise (check_identifier type attrs st).2
   = if hr then Rejected (IdentifierRepeatable si sn) else Pending).
Proof.
  intros Hobj Hident Hname Hsi Hsn Hc Hinputs Hks Hrep.
  destruct (contender_of_object _ _ _ Hobj Hc) as [ps ->].
  pose proof (own_keys_nil_get _ Hks) as Hfirst.
  unfold check_identifier.
  erewrite mbind_run by (by apply (find_contender_Ret _ _ _ identifier)).
  rewrite Hc. simpl.
  simpl in Hinputs. rewrite Hinputs. run. rewrite Hks. run.
  rewrite bool_decide_false by (simpl; lia). run.
  simpl in Hrep. rewrite Hrep. run.
  destruct hr.
  - run. rewrite Hsi. run. rewrite Hsn. run.
    rewrite Hks. run. simpl hd. rewrite Hfirst. run. simpl.
    split; [done|]. apply settle_pending.
  - run. rewrite Hks. run. simpl hd. rewrite Hfirst. run. simpl. done.
Qed.

(** X25: when no resolved attribute has the type's identifier as its id,
    the promise, when pending, is rejected for that, and the next
    statement reads [inputs] of [undefined]: the callback throws a
    [TypeError] (line 213). *)
Theorem identifier_not_attribute_throws type attrs st identifier name si sn :
  Forall is_object attrs →
  get (load (st_heap st) type) "identifier" = Ret identifier →
  get (load (st_heap st) type) "name" = Ret name →
  to_string identifier = Ret si → to_string name = Ret sn →
  contender_of identifier attrs = None →
  (check_identifier type attrs st).1 = Throw TypeError ∧
  (st_promise st = Pending →
   st_promise (check_identifier type attrs st).2
   = Rejected (IdentifierNotAttribute si sn)).
Proof.
  intros Hobj Hident Hname Hsi Hsn Hc.
  unfold check_identifier.
  erewrite mbind_run by (by apply (find_contender_Ret _ _ _ identifier)).
  rewrite Hc. simpl.
  run. rewrite Hsi. run. rewrite Hsn. run. simpl.
  split; [done|]. apply settle_pending.
Qed.

Section Edges.
Context (merge : data → data → outcome data) (slugify : data → string)
  (uuid_v4 : nat → string) (plugins : gmap string ref).

(** X24: a truthy [repeatable] that is neither an object nor [true] (a
    number or a string) is not unified (lines 165-185), so for a template
    without a [repeatable] of its own the loop bound
    [plugin.repeatable.min] reads a property of [undefined]: the
    attribute is never resolved. *)
Theorem repeatable_unrecognised_never_resolved type ids attribute st template
    repeatable r st' :
  template_of plugins (st_heap st) attribute template →
  get template "repeatable" = Ret VUndef →
  get attribute "repeatable" = Ret repeatable →
  truthy repeatable = true → typeof_object repeatable = false →
  repeatable ≠ VBool true →
  resolve_attribute merge slugify uuid_v4 plugins type ids attribute st
  ≠ (Ret r, st').
Proof.
  intros Ht Htr Hrep Htruthy Hobj Htrue Hres. destruct r as [plugin ids'].
  destruct (resolve_attribute_stages _ _ _ _ _ _ _ _ _ _ _ _ Hres Ht)
    as (st1 & p1 & p2 & p3 & p4 & _ & _ & Hc & Hd & Hm & Ha & He).
  destruct (stages_outside _ _ _ _ _ _ _ _ _ _ Hd Hm Ha He) as (_ & Hout4 & _).
  apply configure_Ret in Hc as (_ & _ & _ & _ & _ & _ & _ & _ & Hout).
  assert (get p4 "repeatable" = Ret VUndef) as Hp4.
  { rewrite Hout4 by solve_nelem. rewrite Hout by solve_nelem. done. }
  unfold expand_repeatable in He. rewrite Hrep in He. simpl in He.
  rewrite Htruthy in He. unfold unify_repeatable in He. rewrite Hobj in He.
  assert (strict_eq repeatable (VBool true) = false) as Hne.
  { destruct repeatable as [| |[]| | | |]; try done. }
  rewrite Hne in He. simpl in He. rewrite Hp4 in He. done.
Qed.

End Edges.

Lemma identifier_without_inputs_throws_witness :
  (check_identifier (Ref 0%nat) [notes_resolved]
     (State (sample_heap notebook) Pending 1)).1 = Throw TypeError ∧
  (Pending = Pending →
   st_promise (check_identifier (Ref 0%nat) [notes_resolved]
                 (State (sample_heap notebook) Pending 1)).2
   = Rejected (IdentifierRepeatable "notes" "Notebook")).
Proof.
  apply (identifier_without_inputs_throws (Ref 0%nat) [notes_resolved]
           (State (sample_heap notebook) Pending 1)
           (VStr "notes") (VStr "Notebook") "notes" "Notebook"
           notes_resolved (VArr []) true);
    try reflexivity.
  repeat constructor. eexists; reflexivity.
Defined.

Lemma identifier_not_attribute_throws_witness :
  (check_identifier (Ref 0%nat) [] (sample_state post)).1 = Throw TypeError ∧
  (Pending = Pending →
   st_promise (check_identifier (Ref 0%nat) [] (sample_state post)).2
   = Rejected (IdentifierNotAttribute "slug" "Post")).
Proof.
  apply (identifier_not_attribute_throws (Ref 0%nat) [] (sample_state post)
           (VStr "slug") (VStr "Post") "slug" "Post");
    try reflexivity.
  constructor.
Defined.

Lemma repeatable_unrecognised_never_resolved_witness :
  sample_resolve thrice
  ≠ (Ret (slug_resolved, []), State (sample_heap post) Pending 1).
Proof.
  apply (repeatable_unrecognised_never_resolved deepmerge kebabCase uuid_seq
           sample_plugins (Ref 0%nat) [] thrice
           (State (sample_heap post) Pending 0) (VObj text_plugin) (VNum 3)
           (slug_resolved, []) (State (sample_heap post) Pending 1)
           (sample_template_text thrice eq_refl));
    try reflexivity.
  discriminate.
Defined.
